(** * NaraJangTeo lead miner: a shallow embedding of [g2b_lead_miner.py]

    The development follows the pipeline of the program: the title
    classifier, the deduplicator, the recurrence detector, the urgency
    scorer, the retrying fetcher, the window planner and the lead ranker,
    and then the way notices come in: the address of a notice, the reading
    of a response, the fetcher of a date range and the command line.

    Conventions of the embedding.
    - A Python [str] is a list of Unicode code points ([list N]); literals
      are written as UTF-8 text and decoded by [u].
    - The Unicode tables the [re] and [str] modules consult (lower-casing,
      the classes behind [\w], [\d], [\s]) are parameters of the sections
      that need them.
    - A Python [float] is modelled twice. Where a property is about the
      integer that the scorer returns, it is a binary64 float ([float],
      with the operations of IEEE 754) and [math.log10] is a parameter on
      floats. Where a property is an order or a bound that has a margin,
      it is an exact rational ([Q]): there the rounding of binary64 and the
      special values (infinities, NaN) are not modelled, and the two
      scorers can differ by one where the exact sum is a half.
    - A naive [datetime] is the number of microseconds since
      0001-01-01T00:00:00, with the calendar fields computed from it the way
      CPython does.
    - A document of [json.loads] is a value of an inductive type; the
      server is a function from the number of a call, the address and the
      query to what each attempt of the call meets. *)

From Stdlib Require Import String Ascii Bool Arith ZArith NArith QArith
  Qround Lia Lqa List Permutation Sorted DecimalString Floats.
From stdpp Require gmap.
Import ListNotations.

Set Implicit Arguments.

(** ** Strings *)

Definition char := N.
Definition str := list char.

Definition str_eq_dec : forall a b : str, {a = b} + {a <> b} :=
  list_eq_dec N.eq_dec.

Definition str_eqb (a b : str) : bool :=
  if str_eq_dec a b then true else false.

(** UTF-8 decoding of a byte sequence, used only to write literals. *)
Fixpoint utf8_decode (bs : list N) : str :=
  match bs with
  | [] => []
  | b0 :: r0 =>
      if (b0 <? 128)%N then b0 :: utf8_decode r0
      else match r0 with
        | [] => [b0]
        | b1 :: r1 =>
            if (b0 <? 224)%N
            then ((b0 - 192) * 64 + (b1 - 128))%N :: utf8_decode r1
            else match r1 with
              | [] => [b0; b1]
              | b2 :: r2 =>
                  if (b0 <? 240)%N
                  then ((b0 - 224) * 4096 + (b1 - 128) * 64 + (b2 - 128))%N
                         :: utf8_decode r2
                  else match r2 with
                    | [] => [b0; b1; b2]
                    | b3 :: r3 =>
                        ((b0 - 240) * 262144 + (b1 - 128) * 4096
                         + (b2 - 128) * 64 + (b3 - 128))%N :: utf8_decode r3
                    end
              end
        end
  end.

Definition u (s : string) : str :=
  utf8_decode (map N_of_ascii (list_ascii_of_string s)).

(** The Unicode database consulted by [re] and [str]: the simple
    lower-casing of [_sre.unicode_tolower], the classes behind [\w], [\d]
    and [\s] (the last one is also what [str.strip] removes), and
    [str.lower]. *)
Record unicode_db : Type := {
  uni_lower : char -> char;
  is_word : char -> bool;
  is_digit : char -> bool;
  is_space : char -> bool;
  str_lower : str -> str
}.

Fixpoint lstrip (U : unicode_db) (s : str) : str :=
  match s with
  | c :: s' => if is_space U c then lstrip U s' else s
  | [] => []
  end.

(** [str.strip()] *)
Definition strip (U : unicode_db) (s : str) : str :=
  rev (lstrip U (rev (lstrip U s))).

Fixpoint starts_with (p s : str) : bool :=
  match p, s with
  | [], _ => true
  | _ :: _, [] => false
  | a :: p', b :: s' => (a =? b)%N && starts_with p' s'
  end.

(** [needle in s] *)
Fixpoint contains (needle s : str) : bool :=
  starts_with needle s
  || match s with
     | [] => false
     | _ :: s' => contains needle s'
     end.

Definition is_nil (A : Type) (l : list A) : bool :=
  match l with [] => true | _ => false end.

(** ** A backtracking matcher for the fragment of [re] the program uses *)

Module Re.

Inductive regex : Type :=
| Eps
| Chr (c : char)
| Digit
| Space
| WordB
| Seq (a b : regex)
| Alt (a b : regex)
| Plus (a : regex).

(** A literal string, and an alternation of patterns ([p1|p2|...]). *)
Fixpoint lit (s : str) : regex :=
  match s with
  | [] => Eps
  | c :: s' => Seq (Chr c) (lit s')
  end.

Fixpoint alts (rs : list regex) : regex :=
  match rs with
  | [] => Eps
  | [r] => r
  | r :: rs' => Alt r (alts rs')
  end.

Section Engine.
Variable U : unicode_db.
(** [re.IGNORECASE]. *)
Variable ignorecase : bool.

Definition chr_match (x c : char) : bool :=
  if ignorecase then (uni_lower U x =? uni_lower U c)%N else (x =? c)%N.

Definition word_opt (o : option char) : bool :=
  match o with Some c => is_word U c | None => false end.

(** One or more greedy repetitions of [body], with backtracking: after
    a repetition that consumed input, try another one first and fall back
    to the continuation. [n] bounds the number of repetitions. *)
Fixpoint plus_loop (A : Type)
    (body : option char -> str -> (option char -> str -> option A) -> option A)
    (k : option char -> str -> option A)
    (n : nat) (prev : option char) (s : str) : option A :=
  body prev s (fun p' s' =>
    match n with
    | O => k p' s'
    | S n' =>
        if (length s' <? length s)%nat
        then match plus_loop body k n' p' s' with
             | Some x => Some x
             | None => k p' s'
             end
        else k p' s'
    end).

(** [rmatch r prev s k] matches [r] at the front of [s], where [prev] is
    the character before the current position, and hands the position
    reached to the continuation [k]; alternatives are tried left to right
    and repetition is greedy, as in [sre]. *)
Fixpoint rmatch (A : Type) (r : regex) (prev : option char) (s : str)
    (k : option char -> str -> option A) {struct r} : option A :=
  match r with
  | Eps => k prev s
  | Chr c =>
      match s with
      | x :: s' => if chr_match x c then k (Some x) s' else None
      | [] => None
      end
  | Digit =>
      match s with
      | x :: s' => if is_digit U x then k (Some x) s' else None
      | [] => None
      end
  | Space =>
      match s with
      | x :: s' => if is_space U x then k (Some x) s' else None
      | [] => None
      end
  | WordB =>
      if xorb (word_opt prev) (word_opt (hd_error s)) then k prev s else None
  | Seq a b => rmatch a prev s (fun p' s' => rmatch b p' s' k)
  | Alt a b =>
      match rmatch a prev s k with
      | Some x => Some x
      | None => rmatch b prev s k
      end
  | Plus a => plus_loop (rmatch a) k (length s) prev s
  end.

(** The first match of [r] that starts at the current position. *)
Definition match_here (r : regex) (prev : option char) (s : str)
  : option (option char * str) :=
  rmatch r prev s (fun p rest => Some (p, rest)).

(** [re.search(r, s) is not None]. *)
Fixpoint search_from (r : regex) (prev : option char) (s : str) : bool :=
  match match_here r prev s with
  | Some _ => true
  | None =>
      match s with
      | [] => false
      | c :: s' => search_from r (Some c) s'
      end
  end.

Definition search (r : regex) (s : str) : bool := search_from r None s.

(** [re.sub(r, rep, s)] for patterns that match no empty string: scan
    left to right, replace the leftmost match, resume after it. An empty
    match is treated as no match at that position. *)
Fixpoint sub_from (n : nat) (r : regex) (rep : str) (prev : option char)
    (s : str) : str :=
  match n with
  | O => s
  | S n' =>
      match s with
      | [] => []
      | c :: s' =>
          match match_here r prev s with
          | Some (p', rest) =>
              if (length rest <? length s)%nat
              then rep ++ sub_from n' r rep p' rest
              else c :: sub_from n' r rep (Some c) s'
          | None => c :: sub_from n' r rep (Some c) s'
          end
      end
  end.

Definition sub (r : regex) (rep : str) (s : str) : str :=
  sub_from (length s) r rep None s.

End Engine.

(** *** Repetition of a one-character class

    [\d+] and [\s+] repeat a pattern that consumes one character of a
    class [P]; the definitions below describe such a repetition by a
    recursion on the input. *)

Definition class_body (A : Type) (P : char -> bool) (prev : option char)
    (s : str) (k : option char -> str -> option A) : option A :=
  match s with
  | x :: s' => if P x then k (Some x) s' else None
  | [] => None
  end.

Fixpoint class_plus (A : Type) (P : char -> bool)
    (k : option char -> str -> option A) (s : str) : option A :=
  match s with
  | x :: s' =>
      if P x
      then match class_plus P k s' with
           | Some r => Some r
           | None => k (Some x) s'
           end
      else None
  | [] => None
  end.

(** The length of the run of [P]-characters at the front of the input, and
    the character before the position after the run. *)
Fixpoint run (P : char -> bool) (s : str) : nat :=
  match s with
  | c :: s' => if P c then S (run P s') else O
  | [] => O
  end.

Fixpoint last_of_run (P : char -> bool) (prev : option char) (s : str)
  : option char :=
  match s with
  | c :: s' => if P c then last_of_run P (Some c) s' else prev
  | [] => prev
  end.

End Re.

(** ** The classifier ([match_category]) *)

Module Classifier.
Import Re.

Definition INCLUDE_PATTERNS : list regex :=
  [ lit (u "HRD"); lit (u "교육"); lit (u "연수"); lit (u "훈련");
    lit (u "강사"); lit (u "워크숍"); lit (u "세미나"); lit (u "코칭");
    lit (u "리더십"); lit (u "직무역량"); lit (u "역량"); lit (u "조직진단");
    lit (u "조직문화"); Seq WordB (Seq (lit (u "OD")) WordB);
    lit (u "성과평가"); lit (u "평가제도"); lit (u "인사제도");
    lit (u "컨설팅") ].

Definition EXCLUDE_PATTERNS : list regex :=
  [ lit (u "시설"); lit (u "소방"); lit (u "전기"); lit (u "청소");
    lit (u "급식"); lit (u "안전점검"); lit (u "조경"); lit (u "도로") ].

(** [r"조직진단|조직문화|\bOD\b|변화관리"] *)
Definition OD_RE : regex :=
  alts [ lit (u "조직진단"); lit (u "조직문화");
         Seq WordB (Seq (lit (u "OD")) WordB); lit (u "변화관리") ].

(** [r"평가|성과|역량모델|직무체계|인사제도"] *)
Definition EVAL_RE : regex :=
  alts [ lit (u "평가"); lit (u "성과"); lit (u "역량모델");
         lit (u "직무체계"); lit (u "인사제도") ].

Definition CAT_UNASSIGNED : str := u "미지정".
Definition CAT_NOT_APPLICABLE : str := u "비대상".
Definition CAT_HOLD : str := u "보류(노이즈 가능)".
Definition CAT_OD : str := u "OD/조직".
Definition CAT_EVAL : str := u "평가/제도".
Definition CAT_HRD : str := u "HRD/교육".

Section WithUnicode.
Variable U : unicode_db.

(** [re.search(pat, txt, re.IGNORECASE)] as a truth value. *)
Definition search_i (pat : regex) (txt : str) : bool :=
  Re.search U true pat txt.

Definition include_hits (txt : str) : list regex :=
  filter (fun pat => search_i pat txt) INCLUDE_PATTERNS.

Definition exclude_hits (txt : str) : list regex :=
  filter (fun pat => search_i pat txt) EXCLUDE_PATTERNS.

Definition match_category (title : str) : str * Q * list regex :=
  let txt := strip U title in
  if is_nil txt then (CAT_UNASSIGNED, 0.0, [])
  else
    let inc := include_hits txt in
    let exc := exclude_hits txt in
    if is_nil inc then (CAT_NOT_APPLICABLE, 0.0, [])
    else if negb (is_nil exc) && (length inc <=? length exc)%nat
    then (CAT_HOLD, 0.45, inc)
    else if search_i OD_RE txt then (CAT_OD, 0.84, inc)
    else if search_i EVAL_RE txt then (CAT_EVAL, 0.78, inc)
    else (CAT_HRD, 0.72, inc).

(** The classification algorithm in the words of the specification, as a
    relation between a title and its (category, strength, hits). *)
Inductive classify_spec (title : str) : str * Q * list regex -> Prop :=
| cs_blank :
    strip U title = [] ->
    classify_spec title (CAT_UNASSIGNED, 0.0, [])
| cs_not_applicable :
    strip U title <> [] ->
    length (include_hits (strip U title)) = 0%nat ->
    classify_spec title (CAT_NOT_APPLICABLE, 0.0, [])
| cs_hold :
    strip U title <> [] ->
    (1 <= length (include_hits (strip U title)))%nat ->
    (1 <= length (exclude_hits (strip U title)))%nat ->
    (length (include_hits (strip U title))
     <= length (exclude_hits (strip U title)))%nat ->
    classify_spec title (CAT_HOLD, 0.45, include_hits (strip U title))
| cs_od :
    strip U title <> [] ->
    (1 <= length (include_hits (strip U title)))%nat ->
    (length (exclude_hits (strip U title)) = 0
     \/ length (exclude_hits (strip U title))
        < length (include_hits (strip U title)))%nat ->
    search_i OD_RE (strip U title) = true ->
    classify_spec title (CAT_OD, 0.84, include_hits (strip U title))
| cs_eval :
    strip U title <> [] ->
    (1 <= length (include_hits (strip U title)))%nat ->
    (length (exclude_hits (strip U title)) = 0
     \/ length (exclude_hits (strip U title))
        < length (include_hits (strip U title)))%nat ->
    search_i OD_RE (strip U title) = false ->
    search_i EVAL_RE (strip U title) = true ->
    classify_spec title (CAT_EVAL, 0.78, include_hits (strip U title))
| cs_hrd :
    strip U title <> [] ->
    (1 <= length (include_hits (strip U title)))%nat ->
    (length (exclude_hits (strip U title)) = 0
     \/ length (exclude_hits (strip U title))
        < length (include_hits (strip U title)))%nat ->
    search_i OD_RE (strip U title) = false ->
    search_i EVAL_RE (strip U title) = false ->
    classify_spec title (CAT_HRD, 0.72, include_hits (strip U title)).

End WithUnicode.

(** A small Unicode database for examples: ASCII, with the Hangul
    syllables as word characters. *)
Definition ascii_lower (c : char) : char :=
  if ((65 <=? c) && (c <=? 90))%N then (c + 32)%N else c.

Definition basic_unicode : unicode_db := {|
  uni_lower := ascii_lower;
  is_word := fun c =>
    ((48 <=? c) && (c <=? 57) || (65 <=? c) && (c <=? 90)
     || (97 <=? c) && (c <=? 122) || (c =? 95)
     || (44032 <=? c) && (c <=? 55203))%N;
  is_digit := fun c => ((48 <=? c) && (c <=? 57))%N;
  is_space := fun c => ((9 <=? c) && (c <=? 13) || (28 <=? c) && (c <=? 32))%N;
  str_lower := map ascii_lower
|}.

End Classifier.

(** ** Python's insertion-ordered [dict] *)

Module PyDict.
Section Dict.
Variables K V : Type.
Variable eq_dec : forall a b : K, {a = b} + {a <> b}.

(** Entries in insertion order; keys are pairwise distinct. *)
Definition dict := list (K * V).

Definition empty : dict := [].

Fixpoint get (k : K) (d : dict) : option V :=
  match d with
  | [] => None
  | (k', v) :: d' => if eq_dec k k' then Some v else get k d'
  end.

(** [d[k] = v]: an existing key keeps its position and takes the new
    value; a new key is appended. *)
Fixpoint set (k : K) (v : V) (d : dict) : dict :=
  match d with
  | [] => [(k, v)]
  | (k', v') :: d' =>
      if eq_dec k k' then (k', v) :: d' else (k', v') :: set k v d'
  end.

Definition keys (d : dict) : list K := map fst d.
Definition values (d : dict) : list V := map snd d.
End Dict.
End PyDict.

(** ** Notices and the deduplicator *)

Module Notice.
Record RawNotice : Type := {
  bid_ntce_no : str;
  bid_ntce_ord : str;
  notice_title : str;
  work_type : str;
  agency_name : str;
  notice_date : str;
  deadline_dt : str;
  budget_amt : option Q;
  source_url : str
}.
End Notice.
Abbreviation RawNotice := Notice.RawNotice.

Module Dedup.

Definition key := (str * str)%type.

Definition key_eq_dec : forall a b : key, {a = b} + {a <> b}.
Proof. decide equality; apply str_eq_dec. Defined.
Arguments key_eq_dec : simpl never.

Definition notice_key (n : RawNotice) : key :=
  (Notice.bid_ntce_no n, Notice.bid_ntce_ord n).

(** The dictionary after the loop of [dedupe_notices]. *)
Definition deduped (notices : list RawNotice) : PyDict.dict key RawNotice :=
  fold_left (fun d notice => PyDict.set key_eq_dec (notice_key notice) notice d)
            notices (PyDict.empty key RawNotice).

Definition dedupe_notices (notices : list RawNotice) : list RawNotice :=
  PyDict.values (deduped notices).

(** The keys of a list in order of first appearance. *)
Fixpoint first_distinct (ks : list key) : list key :=
  match ks with
  | [] => []
  | k :: ks' => k :: remove key_eq_dec k (first_distinct ks')
  end.

(** The last notice of the list that carries the key. *)
Definition last_with_key (k : key) (notices : list RawNotice)
  : option RawNotice :=
  find (fun n => if key_eq_dec (notice_key n) k then true else false)
       (rev notices).

Definition count_key (k : key) (notices : list RawNotice) : nat :=
  length (filter (fun n => if key_eq_dec (notice_key n) k then true else false)
                 notices).

End Dedup.

(** ** The recurrence detector ([_normalize_title], [_find_repeated_titles]) *)

Module Recurrence.
Import Re.

(** [r"20\d{2}"] *)
Definition YEAR_RE : regex := Seq (lit (u "20")) (Seq Digit Digit).

(** [r"\d+차|\d+회"] *)
Definition ORDINAL_RE : regex :=
  Alt (Seq (Plus Digit) (lit (u "차"))) (Seq (Plus Digit) (lit (u "회"))).

(** [r"\s+"] *)
Definition SPACES_RE : regex := Plus Space.

Definition rkey := (str * str)%type.

Section WithUnicode.
Variable U : unicode_db.

Definition _normalize_title (title : str) : str :=
  let normalized := Re.sub U false YEAR_RE [] title in
  let normalized := Re.sub U false ORDINAL_RE [] normalized in
  let normalized := Re.sub U false SPACES_RE (u " ") normalized in
  str_lower U (strip U normalized).

Definition title_key (n : RawNotice) : rkey :=
  (Notice.agency_name n, _normalize_title (Notice.notice_title n)).

(** The normalisation in the words of the specification starts here: a
    year at the front of [s] is "20" and two digits. *)
Definition year_here (s : str) : bool :=
  match s with
  | c1 :: c2 :: c3 :: c4 :: _ =>
      ((c1 =? 50) && (c2 =? 48))%N && is_digit U c3 && is_digit U c4
  | _ => false
  end.

(** Drop every year, scanning left to right; [skip] counts the
    characters of a year still to be dropped. *)
Fixpoint drop_years (skip : nat) (s : str) : str :=
  match s with
  | [] => []
  | c :: s' =>
      match skip with
      | S k => drop_years k s'
      | O => if year_here s then drop_years 3 s' else c :: drop_years 0 s'
      end
  end.

(** The length of the digit run at the front of [s]. *)
Definition digit_run (s : str) : nat := Re.run (is_digit U) s.

(** An ordinal marker at the front of [s]: a non-empty digit run followed
    by "차" (round) or "회" (session). *)
Definition ordinal_here (s : str) : bool :=
  (1 <=? digit_run s)%nat
  && match skipn (digit_run s) s with
     | m :: _ => ((m =? 52264) || (m =? 54924))%N
     | [] => false
     end.

(** The continuation of a digit run: the marker [m] at the front of [s],
    and the position after it. *)
Definition marker_k (m : char) (p : option char) (s : str)
  : option (option char * str) :=
  match s with
  | x :: s' => if (x =? m)%N then Some (Some x, s') else None
  | [] => None
  end.

Fixpoint drop_ordinals (skip : nat) (s : str) : str :=
  match s with
  | [] => []
  | c :: s' =>
      match skip with
      | S k => drop_ordinals k s'
      | O =>
          if ordinal_here s then drop_ordinals (digit_run s) s'
          else c :: drop_ordinals 0 s'
      end
  end.

(** Replace every maximal run of whitespace by one space. *)
Fixpoint collapse_spaces (in_run : bool) (s : str) : str :=
  match s with
  | [] => []
  | c :: s' =>
      if is_space U c
      then if in_run then collapse_spaces true s'
           else 32%N :: collapse_spaces true s'
      else c :: collapse_spaces false s'
  end.

Definition normalize_spec (title : str) : str :=
  str_lower U
    (strip U (collapse_spaces false (drop_ordinals 0 (drop_years 0 title)))).
End WithUnicode.

Import stdpp.base stdpp.gmap.

Section Repeated.
Variable U : unicode_db.

(** The dictionary [counts] after the loop. *)
Definition count_titles (notices : list RawNotice) : gmap rkey nat :=
  fold_left
    (fun (counts : gmap rkey nat) n =>
       <[ title_key U n := (default 0%nat (counts !! title_key U n) + 1)%nat ]>
         counts)
    notices ∅.

Definition _find_repeated_titles (notices : list RawNotice) : gset rkey :=
  dom (filter (fun kv : rkey * nat => (2 <= kv.2)%nat) (count_titles notices)).

(** The size of the group of a key in the batch. *)
Definition group_size (k : rkey) (notices : list RawNotice) : nat :=
  length (List.filter (fun n => bool_decide (title_key U n = k)) notices).
End Repeated.

End Recurrence.

(** ** Numbers: Python's [min], [max], [round] on exact rationals *)

Module Num.
Local Open Scope Q_scope.

(** [min(a, b)] answers [a] unless [b] is strictly smaller. *)
Definition py_min (a b : Q) : Q := if Qle_bool a b then a else b.

(** [max(a, b)] answers [a] unless [b] is strictly larger. *)
Definition py_max (a b : Q) : Q := if Qle_bool b a then a else b.

(** [round(x)]: to the nearest integer, halves to the even neighbour. *)
Definition round_half_even (x : Q) : Z :=
  let f := Qfloor x in
  match Qcompare (x - inject_Z f) (1 # 2) with
  | Lt => f
  | Gt => (f + 1)%Z
  | Eq => if Z.even f then f else (f + 1)%Z
  end.

(** [round(x, 2)] *)
Definition round2 (x : Q) : Q := inject_Z (round_half_even (x * 100)) / 100.

(** Truth value of a float: zero is false. *)
Definition truthy (x : Q) : bool := negb (Qeq_bool x 0).

Definition Qlt_bool (a b : Q) : bool := negb (Qle_bool b a).

Definition clampZ (lo hi x : Z) : Z := Z.max lo (Z.min hi x).

End Num.

(** ** Naive [datetime] values *)

Module Datetime.
Local Open Scope Z_scope.

(** Microseconds since 0001-01-01T00:00:00. *)
Definition datetime := Z.

Definition US_PER_MINUTE : Z := 60000000.
Definition US_PER_DAY : Z := 86400000000.

Definition MINYEAR : Z := 1.
Definition MAXYEAR : Z := 9999.

Definition _is_leap (year : Z) : bool :=
  (year mod 4 =? 0) && (negb (year mod 100 =? 0) || (year mod 400 =? 0)).

Definition _days_before_year (year : Z) : Z :=
  let y := year - 1 in
  y * 365 + y / 4 - y / 100 + y / 400.

Definition _DAYS_IN_MONTH (month : Z) : Z :=
  match month with
  | 1 => 31 | 2 => 28 | 3 => 31 | 4 => 30 | 5 => 31 | 6 => 30
  | 7 => 31 | 8 => 31 | 9 => 30 | 10 => 31 | 11 => 30 | 12 => 31
  | _ => -1
  end.

Definition _DAYS_BEFORE_MONTH (month : Z) : Z :=
  match month with
  | 1 => 0 | 2 => 31 | 3 => 59 | 4 => 90 | 5 => 120 | 6 => 151
  | 7 => 181 | 8 => 212 | 9 => 243 | 10 => 273 | 11 => 304 | 12 => 334
  | _ => -1
  end.

Definition _days_in_month (year month : Z) : Z :=
  if (month =? 2) && _is_leap year then 29 else _DAYS_IN_MONTH month.

Definition _days_before_month (year month : Z) : Z :=
  _DAYS_BEFORE_MONTH month + (if (2 <? month) && _is_leap year then 1 else 0).

Definition _ymd2ord (year month day : Z) : Z :=
  _days_before_year year + _days_before_month year month + day.

Definition _DI400Y : Z := 146097.
Definition _DI100Y : Z := 36524.
Definition _DI4Y : Z := 1461.

(** The second half of CPython's [_ord2ymd]: month and day of the day
    number [n] (from 0) of a year, by an estimate of the month that is
    corrected when it is too large. *)
Definition _month_day (leapyear : bool) (n : Z) : Z * Z :=
  let month := Z.shiftr (n + 50) 5 in
  let preceding :=
    _DAYS_BEFORE_MONTH month + (if (2 <? month) && leapyear then 1 else 0) in
  if n <? preceding
  then
    let month := month - 1 in
    let preceding :=
      preceding
      - (_DAYS_IN_MONTH month + (if (month =? 2) && leapyear then 1 else 0)) in
    (month, n - preceding + 1)
  else (month, n - preceding + 1).

(** CPython's [_ord2ymd]: the (year, month, day) of a proleptic Gregorian
    ordinal, where 0001-01-01 is day 1. *)
Definition _ord2ymd (n : Z) : Z * Z * Z :=
  let n := n - 1 in
  let n400 := n / _DI400Y in
  let n := n mod _DI400Y in
  let year := n400 * 400 + 1 in
  let n100 := n / _DI100Y in
  let n := n mod _DI100Y in
  let n4 := n / _DI4Y in
  let n := n mod _DI4Y in
  let n1 := n / 365 in
  let n := n mod 365 in
  let year := year + n100 * 100 + n4 * 4 + n1 in
  if (n1 =? 4) || (n100 =? 4) then (year - 1, 12, 31)
  else
    let leapyear := (n1 =? 3) && (negb (n4 =? 24) || (n100 =? 3)) in
    let '(month, day) := _month_day leapyear n in
    (year, month, day).

Definition leap_day (leap : bool) : Z := if leap then 1 else 0.

(** The test that [_month_day] answers the month and day of a day number. *)
Definition month_day_ok (leap : bool) (n : Z) : bool :=
  let '(m, d) := _month_day leap n in
  (1 <=? m) && (m <=? 12) && (1 <=? d)
  && (d <=? _DAYS_IN_MONTH m + (if (m =? 2) && leap then 1 else 0))
  && (_DAYS_BEFORE_MONTH m + (if (2 <? m) && leap then 1 else 0) + d =? n + 1).

(** Ordinal of [datetime.max.date()], 9999-12-31. *)
Definition _MAXORDINAL : Z := 3652059.

(** One past [datetime.max]. *)
Definition END_OF_TIME : Z := _MAXORDINAL * US_PER_DAY.

Definition representable (t : Z) : bool := (0 <=? t) && (t <? END_OF_TIME).

Definition toordinal (t : datetime) : Z := t / US_PER_DAY + 1.

Definition year (t : datetime) : Z := fst (fst (_ord2ymd (toordinal t))).
Definition month (t : datetime) : Z := snd (fst (_ord2ymd (toordinal t))).
Definition day (t : datetime) : Z := snd (_ord2ymd (toordinal t)).

(** [datetime(year, month, day)], midnight; [None] stands for the
    [ValueError] of a field out of range. *)
Definition mk_date (y m d : Z) : option datetime :=
  if (MINYEAR <=? y) && (y <=? MAXYEAR) && (1 <=? m) && (m <=? 12)
     && (1 <=? d) && (d <=? _days_in_month y m)
  then Some ((_ymd2ord y m d - 1) * US_PER_DAY)
  else None.

(** [t + timedelta(microseconds=delta)]; [None] stands for the
    [OverflowError] of a result out of range. *)
Definition add_us (t : datetime) (delta : Z) : option datetime :=
  if representable (t + delta) then Some (t + delta) else None.

(** [(a - b).days]: a [timedelta] is normalised with a non-negative
    remainder, so its days are the floor of the quotient. *)
Definition days_between (a b : datetime) : Z := (a - b) / US_PER_DAY.

End Datetime.

(** ** The urgency scorer ([urgency_score]) in exact arithmetic

    The scorer with every operation exact: the model for orders and
    bounds. The scorer of the program, in binary64, is [Scorer64]. *)

Module Scorer.
Import Num Datetime.
Local Open Scope Q_scope.

Section WithLog.
(** [math.log10] *)
Variable log10 : Q -> Q.

Definition deadline_score (now : datetime) (deadline_dt : option datetime)
  : Q :=
  match deadline_dt with
  | None => 0.5
  | Some d =>
      let days_left := Z.max (days_between d now) 0 in
      1.0 / (1.0 + (inject_Z days_left / 7.0))
  end.

Definition budget_score (budget_amt : option Q) : Q :=
  match budget_amt with
  | Some b =>
      if truthy b && Qlt_bool 0 b
      then py_min 1.0 (log10 (b + 1.0) / 9.0)
      else 0.5
  | None => 0.5
  end.

Definition repeat_score (repeat : bool) : Q := if repeat then 1.0 else 0.0.

Definition raw_score (now : datetime) (deadline_dt : option datetime)
    (budget_amt : option Q) (repeat : bool) (agency_weight fit_weight : Q)
  : Q :=
  100.0 * (0.35 * deadline_score now deadline_dt
           + 0.25 * budget_score budget_amt
           + 0.15 * agency_weight
           + 0.15 * repeat_score repeat
           + 0.10 * fit_weight).

(** [now] is the value of [datetime.now()] at the call. *)
Definition urgency_score (now : datetime) (deadline_dt : option datetime)
    (budget_amt : option Q) (repeat : bool) (agency_weight fit_weight : Q)
  : Z :=
  let score := raw_score now deadline_dt budget_amt repeat
                         agency_weight fit_weight in
  round_half_even (py_max 0.0 (py_min 100.0 score)).

(** The call with the default [agency_weight=0.6], [fit_weight=0.8]. *)
Definition urgency_score_default (now : datetime)
    (deadline_dt : option datetime) (budget_amt : option Q) (repeat : bool)
  : Z :=
  urgency_score now deadline_dt budget_amt repeat 0.6 0.8.

(** The score in the words of the specification. *)
Definition D_spec (now : datetime) (deadline : option datetime) : Q :=
  match deadline with
  | None => 1 # 2
  | Some d => 1 / (1 + inject_Z (Z.max 0 (days_between d now)) / 7)
  end.

Definition B_spec (budget : option Q) : Q :=
  match budget with
  | Some b =>
      if Qlt_bool 0 b
      then (if Qle_bool 1 (log10 (b + 1.0) / 9) then 1
            else log10 (b + 1.0) / 9)
      else 1 # 2
  | None => 1 # 2
  end.

Definition R_spec (repeat : bool) : Q := if repeat then 1 else 0.

Definition urgency_spec (now : datetime) (deadline : option datetime)
    (budget : option Q) (repeat : bool) : Z :=
  clampZ 0 100
    (round_half_even
       (100 * ((35 # 100) * D_spec now deadline + (25 # 100) * B_spec budget
               + (15 # 100) * (6 # 10) + (15 # 100) * R_spec repeat
               + (10 # 100) * (8 # 10)))).
End WithLog.

(** A coarse monotone approximation of [log10] for examples: the binary
    logarithm of the integer part, scaled by 0.301 and truncated. *)
Definition log10_floor (x : Q) : Q :=
  inject_Z (Z.log2 (Qfloor x) * 301 / 1000).

End Scorer.

(** ** Binary64 floats *)

Module Float64.
Import Num.
Local Open Scope float_scope.

(** [min(a, b)] answers [a] unless [b] is strictly smaller. *)
Definition min64 (a b : float) : float := if b <? a then b else a.

(** [max(a, b)] answers [a] unless [b] is strictly larger. *)
Definition max64 (a b : float) : float := if a <? b then b else a.

(** Truth value of a float: zero is false, NaN is true. *)
Definition truthy64 (x : float) : bool := negb (x =? 0).

(** [float(n)] for an integer: the nearest float, halves to even. *)
Definition of_int (n : Z) : float :=
  SF2Prim (SpecFloat.binary_normalize prec emax n 0 false).

(** The number that a finite float with sign [s], mantissa [m] and
    exponent [e] stands for. *)
Definition F2Q (s : bool) (m : positive) (e : Z) : Q :=
  let n := if s then Z.neg m else Z.pos m in
  match e with
  | Z0 => inject_Z n
  | Z.pos k => inject_Z (n * 2 ^ Z.pos k)
  | Z.neg k => Qmake n (2 ^ k)
  end.

(** The number that a float stands for; none for NaN and the
    infinities. *)
Definition exact (x : float) : option Q :=
  match Prim2SF x with
  | S754_zero _ => Some 0%Q
  | S754_finite s m e => Some (F2Q s m e)
  | S754_infinity _ | S754_nan => None
  end.

(** [round(x)]: to the nearest integer, halves to the even neighbour;
    [None] stands for the [ValueError] of NaN and the [OverflowError] of
    an infinity. *)
Definition round64 (x : float) : option Z :=
  match exact x with
  | Some q => Some (round_half_even q)
  | None => None
  end.

End Float64.

(** ** The urgency scorer in binary64 ([urgency_score]) *)

Module Scorer64.
Import Num Datetime Float64.
Local Open Scope float_scope.
Local Set Warnings "-inexact-float".

Section WithLog.
(** [math.log10]. The scorer calls it on [b + 1.0] for a budget [b > 0]
    only, an argument of at least [1.0], where it does not raise. *)
Variable log10 : float -> float.

(** [(deadline_dt - now).days] is an integer; the division by [7.0]
    converts it to the nearest float. *)
Definition deadline_score (now : datetime) (deadline_dt : option datetime)
  : float :=
  match deadline_dt with
  | None => 0.5
  | Some d =>
      let days_left := Z.max (days_between d now) 0 in
      1.0 / (1.0 + (of_int days_left / 7.0))
  end.

Definition budget_score (budget_amt : option float) : float :=
  match budget_amt with
  | Some b =>
      if truthy64 b && (0 <? b)
      then min64 1.0 (log10 (b + 1.0) / 9.0)
      else 0.5
  | None => 0.5
  end.

Definition repeat_score (repeat : bool) : float :=
  if repeat then 1.0 else 0.0.

Definition raw_score (now : datetime) (deadline_dt : option datetime)
    (budget_amt : option float) (repeat : bool)
    (agency_weight fit_weight : float) : float :=
  100.0 * (0.35 * deadline_score now deadline_dt
           + 0.25 * budget_score budget_amt
           + 0.15 * agency_weight
           + 0.15 * repeat_score repeat
           + 0.10 * fit_weight).

(** [now] is the value of [datetime.now()] at the call; [None] stands for
    an exception of [round]. *)
Definition urgency_score (now : datetime) (deadline_dt : option datetime)
    (budget_amt : option float) (repeat : bool)
    (agency_weight fit_weight : float) : option Z :=
  let score := raw_score now deadline_dt budget_amt repeat
                         agency_weight fit_weight in
  round64 (max64 0.0 (min64 100.0 score)).

(** The score in the words of the specification, every operation being
    that of binary64. *)
Definition D_spec (now : datetime) (deadline : option datetime) : float :=
  match deadline with
  | None => 0.5
  | Some d => 1 / (1 + of_int (Z.max 0 (days_between d now)) / 7)
  end.

Definition B_spec (budget : option float) : float :=
  match budget with
  | Some b =>
      if 0 <? b then min64 1 (log10 (b + 1) / 9) else 0.5
  | None => 0.5
  end.

Definition R_spec (repeat : bool) : float := if repeat then 1 else 0.

Definition S_spec (now : datetime) (deadline : option datetime)
    (budget : option float) (repeat : bool) : float :=
  100 * (0.35 * D_spec now deadline + 0.25 * B_spec budget + 0.15 * 0.6
         + 0.15 * R_spec repeat + 0.10 * 0.8).

(** Rounded, and clamped to [0, 100]; a sum that is no number counts as
    the bound on its side, NaN as the upper one. *)
Definition urgency_spec (now : datetime) (deadline : option datetime)
    (budget : option float) (repeat : bool) : Z :=
  let s := S_spec now deadline budget repeat in
  match exact s with
  | Some q => clampZ 0 100 (round_half_even q)
  | None => if s <? 0 then 0%Z else 100%Z
  end.
End WithLog.

End Scorer64.

(** ** The retrying fetcher ([request_json]) *)

Module Fetcher.
Local Open Scope Z_scope.

Definition MAX_RETRIES : Z := 4.

(** [range(a, b)] *)
Definition py_range (a b : Z) : list Z :=
  map (fun i => a + Z.of_nat i) (seq 0 (Z.to_nat (b - a))).

Section Request.
(** Parsed JSON documents, and the exceptions other than [HTTPError]
    (network failures, decoding and parse errors). *)
Variables J E : Type.

(** What one pass through the [try] block meets. *)
Inductive response : Type :=
| Parsed (payload : J)
| HTTPError (code : Z)
| Failure (e : E).

Inductive exn : Type :=
| ExHTTP (code : Z)
| ExOther (e : E).

(** How [request_json] ends: it returns the payload, raises the
    authorization [RuntimeError], lets the [HTTPError] through, or raises
    the [RuntimeError] that carries [last_error]. *)
Inductive outcome : Type :=
| Return (payload : J)
| RaiseAuth (code : Z)
| Reraise (code : Z)
| RaiseFailed (last_error : option exn).

(** The result of a call together with its effects: the arguments of
    [time.sleep] in order, and the number of requests sent. *)
Record run : Type := {
  result : outcome;
  sleeps : list Z;
  calls : nat
}.

(** The response to the request number [n] of the call, from 0. *)
Variable urlopen : nat -> response.

Fixpoint attempts (range : list Z) (last_error : option exn)
    (slept : list Z) (sent : nat) : run :=
  match range with
  | [] => {| result := RaiseFailed last_error; sleeps := slept; calls := sent |}
  | attempt :: rest =>
      let after (last_error : option exn) : run :=
        if attempt =? MAX_RETRIES
        then {| result := RaiseFailed last_error;
                sleeps := slept; calls := S sent |}
        else attempts rest last_error
                      (slept ++ [Z.min (2 ^ attempt) 8]) (S sent) in
      match urlopen sent with
      | Parsed payload =>
          {| result := Return payload; sleeps := slept; calls := S sent |}
      | HTTPError code =>
          if (code =? 401) || (code =? 403)
          then {| result := RaiseAuth code; sleeps := slept; calls := S sent |}
          else if (code =? 429) || (500 <=? code)
          then after (Some (ExHTTP code))
          else {| result := Reraise code; sleeps := slept; calls := S sent |}
      | Failure e => after (Some (ExOther e))
      end
  end.

Definition request_json : run :=
  attempts (py_range 1 (MAX_RETRIES + 1)) None [] 0%nat.

(** The responses after which the loop goes on to another attempt. *)
Definition retryable (r : response) : Prop :=
  match r with
  | Parsed _ => False
  | HTTPError code => code = 429 \/ 500 <= code
  | Failure _ => True
  end.

Definition exn_of (r : response) : option exn :=
  match r with
  | Parsed _ => None
  | HTTPError code => Some (ExHTTP code)
  | Failure e => Some (ExOther e)
  end.

(** The back-off delays slept before attempt number [k + 1]. *)
Definition backoff (k : nat) : list Z :=
  map (fun i => Z.min (2 ^ Z.of_nat i) 8) (seq 1 k).
End Request.

End Fetcher.

(** ** The window planner ([iter_windows]) *)

Module Windows.
Import Datetime.
Local Open Scope Z_scope.

(** How the generator stops: the loop condition fails, an exception of
    [datetime] propagates, or the model's fuel runs out. *)
Inductive status : Type := Exhausted | Raised | OutOfFuel.

Definition window := (datetime * datetime)%type.

Fixpoint iter_windows_from (fuel : nat) (cursor end_ : datetime) (mode : str)
  : list window * status :=
  match fuel with
  | O => ([], OutOfFuel)
  | S fuel' =>
      if cursor <=? end_ then
        let step : option (datetime * datetime) :=
          if str_eqb mode (u "monthly") then
            match (if month cursor =? 12
                   then mk_date (year cursor + 1) 1 1
                   else mk_date (year cursor) (month cursor + 1) 1) with
            | Some nxt =>
                match add_us nxt (- US_PER_MINUTE) with
                | Some e => Some (nxt, Z.min end_ e)
                | None => None
                end
            | None => None
            end
          else
            match add_us cursor US_PER_DAY with
            | Some nxt =>
                match add_us nxt (- US_PER_MINUTE) with
                | Some e => Some (nxt, Z.min end_ e)
                | None => None
                end
            | None => None
            end in
        match step with
        | Some (nxt, window_end) =>
            let (ws, st) := iter_windows_from fuel' nxt end_ mode in
            ((cursor, window_end) :: ws, st)
        | None => ([], Raised)
        end
      else ([], Exhausted)
  end.

(** Enough fuel for any range: the cursor advances by a day or more at
    every step but possibly the first. *)
Definition fuel_for (start end_ : datetime) : nat :=
  Z.to_nat ((end_ - start) / US_PER_DAY) + 3.

Definition iter_windows (start end_ : datetime) (mode : str)
  : list window * status :=
  iter_windows_from (fuel_for start end_) start end_ mode.

(** The first instant of a month, and of the month after the one of an
    instant. *)
Definition month_start (y m : Z) : Z := (_ymd2ord y m 1 - 1) * US_PER_DAY.

Definition next_month_start (t : datetime) : Z :=
  if month t =? 12 then month_start (year t + 1) 1
  else month_start (year t) (month t + 1).

(** 9999-12-01T00:00:00, the start of the last month. *)
Definition LAST_MONTH_START : Z := month_start MAXYEAR 12.

(** The ranges on which no step of the planner leaves the years that
    [datetime] can represent: the day after [end_] exists, or [end_] lies
    before the last month. *)
Definition in_range (mode : str) (end_ : datetime) : Prop :=
  (mode = u "daily" /\ representable (end_ + US_PER_DAY) = true)
  \/ (mode = u "monthly" /\ end_ < LAST_MONTH_START).

(** The cursor after a window that starts at [cursor]. *)
Definition advance (mode : str) (cursor : datetime) : Z :=
  if str_eqb mode (u "monthly") then next_month_start cursor
  else cursor + US_PER_DAY.

(** The fuel one needs from [cursor] on. *)
Definition fuel_needed (mode : str) (cursor end_ : datetime) : Z :=
  if cursor <=? end_
  then (end_ - cursor) / US_PER_DAY + 2
       + (if str_eqb mode (u "monthly") && negb (cursor mod US_PER_DAY =? 0)
          then 1 else 0)
  else 1.

(** A window in the words of the specification: it ends a minute before
    the next cursor, or at the overall end when that comes first. *)
Definition window_ok (mode : str) (end_ : datetime) (w : window) : Prop :=
  fst w <= end_ /\ snd w = Z.min end_ (advance mode (fst w) - US_PER_MINUTE).

(** The sequence of windows from [cursor] on, in the words of the
    specification: none when the cursor is past the end, else the window
    of the cursor followed by the windows from the next cursor on. *)
Inductive planned (mode : str) (end_ : datetime)
  : datetime -> list window -> Prop :=
| planned_done (cursor : datetime) :
    end_ < cursor -> planned mode end_ cursor []
| planned_step (cursor : datetime) (ws : list window) :
    cursor <= end_ ->
    planned mode end_ (advance mode cursor) ws ->
    planned mode end_ cursor
      ((cursor, Z.min end_ (advance mode cursor - US_PER_MINUTE)) :: ws).

(** The span of a window: less than a day, or inside the calendar month of
    its start. *)
Definition span_ok (mode : str) (w : window) : Prop :=
  if str_eqb mode (u "monthly")
  then month_start (year (fst w)) (month (fst w)) <= fst w < next_month_start (fst w)
       /\ month_start (year (fst w)) (month (fst w)) <= snd w < next_month_start (fst w)
  else snd w - fst w < US_PER_DAY.

(** Consecutive windows: the next one starts a minute after the end of
    the previous one. *)
Fixpoint chained (ws : list window) : Prop :=
  match ws with
  | w1 :: ((w2 :: _) as rest) => fst w2 = snd w1 + US_PER_MINUTE /\ chained rest
  | _ => True
  end.

End Windows.

(** ** The lead ranker ([build_leads]) *)

Module Leads.
Import Num Datetime.

Record LeadRecord : Type := {
  as_of_date : str;
  bid_ntce_no : str;
  bid_ntce_ord : str;
  notice_title : str;
  work_type : str;
  agency_name : str;
  region_guess : str;
  deadline_dt : str;
  budget_amt : str;
  category : str;
  match_strength : Q;
  urgency_score : Z;
  source_url : str;
  contact_policy : str;
  notes : str
}.

(** The keys of [mapping] in [detect_region], in insertion order (every key
    maps to itself). *)
Definition REGIONS : list str :=
  [ u "서울"; u "부산"; u "대구"; u "인천"; u "광주"; u "대전"; u "울산";
    u "세종"; u "경기"; u "강원"; u "충북"; u "충남"; u "전북"; u "전남";
    u "경북"; u "경남"; u "제주" ].

Definition detect_region (agency_name : str) : str :=
  match find (fun needle => contains needle agency_name) REGIONS with
  | Some region => region
  | None => u "미지정"
  end.

(** [sort(key=urgency_score, reverse=True)]: a stable sort into descending
    order. An element goes in front of the first one whose score is not
    larger than its own, so that it stays ahead of the equal ones that
    followed it in the list. *)
Fixpoint insert_desc (x : LeadRecord) (l : list LeadRecord) : list LeadRecord :=
  match l with
  | [] => [x]
  | y :: l' =>
      if (urgency_score y <=? urgency_score x)%Z then x :: l
      else y :: insert_desc x l'
  end.

Fixpoint sort_desc (l : list LeadRecord) : list LeadRecord :=
  match l with
  | [] => []
  | x :: l' => insert_desc x (sort_desc l')
  end.

(** Descending order of the scores, and the leads of one score in the
    order of the list. *)
Definition desc (a b : LeadRecord) : Prop :=
  (urgency_score b <= urgency_score a)%Z.

Definition with_score (s : Z) (l : list LeadRecord) : list LeadRecord :=
  filter (fun x => (urgency_score x =? s)%Z) l.

(** [l[:n]] *)
Definition slice_to (A : Type) (n : Z) (l : list A) : list A :=
  if (0 <=? n)%Z then firstn (Z.to_nat n) l
  else firstn (length l - Z.to_nat (- n)) l.

(** [int(x)]: truncation towards zero. *)
Definition py_int (x : Q) : Z :=
  if Qle_bool 0 x then Qfloor x else Qceiling x.

Import stdpp.base stdpp.gmap.

Record SummaryStats : Type := {
  total_notices : nat;
  matched_notices : nat;
  by_category : gmap str nat;
  by_work_type : gmap str nat
}.

(** [d[k] = d.get(k, 0) + 1] *)
Definition bump (k : str) (d : gmap str nat) : gmap str nat :=
  <[ k := (default 0%nat (d !! k) + 1)%nat ]> d.

(** A counter filled by bumping the keys of a list one after the other. *)
Definition tally (ks : list str) : gmap str nat :=
  fold_left (fun d k => bump k d) ks ∅.

Section WithEnvironment.
Variable U : unicode_db.
Variable log10 : Q -> Q.
(** [datetime.strptime(value, fmt)], [None] for its [ValueError]. *)
Variable strptime : str -> str -> option datetime.
(** [dt.strftime(fmt)] *)
Variable strftime : datetime -> str -> str.
(** [f"{n:,}"] *)
Variable format_commas : Z -> str.
(** The reading of [datetime.now()] while the notice at a given position
    of the list is scored. *)
Variable clock : nat -> datetime.

Definition parse_datetime_guess (value : str) : option datetime :=
  if is_nil value then None
  else
    let candidates :=
      [ u "%Y-%m-%d %H:%M"; u "%Y%m%d%H%M"; u "%Y-%m-%d"; u "%Y%m%d" ] in
    (fix try (fmts : list str) : option datetime :=
       match fmts with
       | [] => None
       | fmt :: rest =>
           match strptime value fmt with
           | Some d => Some d
           | None => try rest
           end
       end) candidates.

(** [category in ("비대상", "보류(노이즈 가능)", "미지정")] *)
Definition rejected (category : str) : bool :=
  str_eqb category Classifier.CAT_NOT_APPLICABLE
  || str_eqb category Classifier.CAT_HOLD
  || str_eqb category Classifier.CAT_UNASSIGNED.

(** The variables of the loop of [build_leads]. *)
Record acc : Type := {
  leads : list LeadRecord;
  acc_by_category : gmap str nat;
  acc_by_work_type : gmap str nat;
  position : nat
}.

Definition make_lead (repeated_keys : gset Recurrence.rkey)
    (as_of : datetime) (i : nat) (notice : RawNotice) : LeadRecord :=
  let '(category, strength, _hits) :=
    Classifier.match_category U (Notice.notice_title notice) in
  let deadline := parse_datetime_guess (Notice.deadline_dt notice) in
  let repeat :=
    bool_decide ((Notice.agency_name notice,
                  Recurrence._normalize_title U (Notice.notice_title notice))
                 ∈ repeated_keys) in
  let score :=
    Scorer.urgency_score_default log10 (clock i) deadline
      (Notice.budget_amt notice) repeat in
  {| as_of_date := strftime as_of (u "%Y-%m-%d");
     bid_ntce_no := Notice.bid_ntce_no notice;
     bid_ntce_ord := Notice.bid_ntce_ord notice;
     notice_title := Notice.notice_title notice;
     work_type := Notice.work_type notice;
     agency_name := Notice.agency_name notice;
     region_guess := detect_region (Notice.agency_name notice);
     deadline_dt :=
       if is_nil (Notice.deadline_dt notice) then u "미지정"
       else Notice.deadline_dt notice;
     budget_amt :=
       match Notice.budget_amt notice with
       | Some b => if truthy b then format_commas (py_int b) else u "미지정"
       | None => u "미지정"
       end;
     category := category;
     match_strength := round2 strength;
     urgency_score := score;
     source_url := Notice.source_url notice;
     contact_policy :=
       u "개인정보 최소수집/수신거부 및 야간발송 제한 준수";
     notes :=
       u "자동 산출 리드. 원문 공고에서 세부 요구사항 재확인 필요" |}.

(** The body of the loop for one notice. *)
Definition step (repeated_keys : gset Recurrence.rkey) (as_of : datetime)
    (a : acc) (notice : RawNotice) : acc :=
  let category := fst (fst (Classifier.match_category U
                              (Notice.notice_title notice))) in
  let by_work_type := bump (Notice.work_type notice) (acc_by_work_type a) in
  if rejected category
  then {| leads := leads a;
          acc_by_category := acc_by_category a;
          acc_by_work_type := by_work_type;
          position := S (position a) |}
  else {| leads := leads a ++ [make_lead repeated_keys as_of (position a) notice];
          acc_by_category := bump category (acc_by_category a);
          acc_by_work_type := by_work_type;
          position := S (position a) |}.

Definition run_loop (notices : list RawNotice) (as_of : datetime) : acc :=
  fold_left (step (Recurrence._find_repeated_titles U notices) as_of) notices
    {| leads := []; acc_by_category := ∅; acc_by_work_type := ∅;
       position := 0 |}.

Definition build_leads (notices : list RawNotice) (as_of_date : datetime)
    (top_n : Z) : list LeadRecord * SummaryStats :=
  let a := run_loop notices as_of_date in
  let sorted := sort_desc (leads a) in
  let selected := slice_to top_n sorted in
  let stats :=
    {| total_notices := length notices;
       matched_notices := length sorted;
       by_category := acc_by_category a;
       by_work_type := acc_by_work_type a |} in
  (selected, stats).

(** The leads before the sort, in the order of construction. *)
Definition constructed (notices : list RawNotice) (as_of : datetime)
  : list LeadRecord :=
  leads (run_loop notices as_of).

(** A notice whose classification is a positive match. *)
Definition matched (notice : RawNotice) : bool :=
  negb (rejected (fst (fst (Classifier.match_category U
                              (Notice.notice_title notice))))).

Definition category_of (notice : RawNotice) : str :=
  fst (fst (Classifier.match_category U (Notice.notice_title notice))).

(** The number of occurrences of a key, as a counter holds it: a key
    that was never counted is absent. *)
Definition counted (k : str) (ks : list str) : option nat :=
  match length (List.filter (fun x => bool_decide (x = k)) ks) with
  | O => None
  | S n => Some (S n)
  end.
End WithEnvironment.

(** The batch of the test suite: a training notice with a large budget, an
    organisation notice without a budget, and a road repair notice. *)
Definition example_notice (no title wt agency deadline : string)
    (budget : option Q) (url : string) : RawNotice :=
  {| Notice.bid_ntce_no := u no;
     Notice.bid_ntce_ord := u "1";
     Notice.notice_title := u title;
     Notice.work_type := u wt;
     Notice.agency_name := u agency;
     Notice.notice_date := [];
     Notice.deadline_dt := u deadline;
     Notice.budget_amt := budget;
     Notice.source_url := u url |}.

Definition example_batch : list RawNotice :=
  [ example_notice "1" "리더십 교육 운영 용역" "용역" "서울특별시교육청"
      "202612311800" (Some 300000000%Q) "u1";
    example_notice "2" "조직문화 진단 컨설팅" "용역" "경기도청"
      "202612011800" None "u2";
    example_notice "3" "도로 보수 공사" "공사" "강원도" "" None "u3" ].

(** A batch for the ranking: three matched notices, of which the second
    has the higher score and the other two the same one, and a notice
    that is not matched. *)
Definition ranking_batch : list RawNotice :=
  [ example_notice "1" "리더십 교육 운영 용역" "용역" "서울특별시교육청"
      "" None "u1";
    example_notice "2" "조직문화 진단 컨설팅" "용역" "경기도청"
      "" (Some 300000000%Q) "u2";
    example_notice "3" "도로 보수 공사" "공사" "강원도" "" None "u3";
    example_notice "4" "성과평가 제도 고도화 컨설팅" "용역" "부산광역시"
      "" None "u4" ].

End Leads.

(** ** The address of a notice ([build_notice_url]) *)

Module Url.
Local Open Scope N_scope.

(** [c.encode("utf-8")] for one code point; [None] stands for the
    [UnicodeEncodeError] of a surrogate. *)
Definition utf8_encode_char (c : char) : option (list N) :=
  if c <? 128 then Some [c]
  else if c <? 2048 then Some [192 + c / 64; 128 + c mod 64]
  else if c <? 65536 then
    if (55296 <=? c) && (c <=? 57343) then None
    else Some [224 + c / 4096; 128 + (c / 64) mod 64; 128 + c mod 64]
  else Some [240 + c / 262144; 128 + (c / 4096) mod 64;
             128 + (c / 64) mod 64; 128 + c mod 64].

(** [s.encode("utf-8", "strict")] *)
Fixpoint utf8_encode (s : str) : option (list N) :=
  match s with
  | [] => Some []
  | c :: s' =>
      match utf8_encode_char c, utf8_encode s' with
      | Some bs, Some rest => Some (bs ++ rest)
      | _, _ => None
      end
  end.

(** [_ALWAYS_SAFE]: the ASCII letters and digits and [_.-~]. *)
Definition ALWAYS_SAFE (b : N) : bool :=
  ((65 <=? b) && (b <=? 90)) || ((97 <=? b) && (b <=? 122))
  || ((48 <=? b) && (b <=? 57))
  || (b =? 95) || (b =? 46) || (b =? 45) || (b =? 126).

(** One digit of ['%{:02X}'.format(b)]. *)
Definition hex_digit (n : N) : char := if n <? 10 then 48 + n else 55 + n.

(** [_Quoter.__missing__]: a safe byte stands for itself, another byte
    is a percent sign and two upper-case hexadecimal digits. *)
Definition quote_byte (safe : list N) (b : N) : str :=
  if ALWAYS_SAFE b || existsb (N.eqb b) safe then [b]
  else [37; hex_digit (b / 16); hex_digit (b mod 16)].

Definition quote_from_bytes (bs : list N) (safe : list N) : str :=
  flat_map (quote_byte safe) bs.

(** [urllib.parse.quote(s)] with the default [safe='/'], as of Python
    3.7, where [~] joined the characters that are never quoted. *)
Definition quote (s : str) : option str :=
  match utf8_encode s with
  | Some bs => Some (quote_from_bytes bs [47])
  | None => None
  end.

Definition NOTICE_URL : str :=
  u "https://www.g2b.go.kr:8101/ep/invitation/publish/bidInfoDtl.do?".

Definition UNASSIGNED : str := u "미지정".

(** [build_notice_url]; [None] stands for the [UnicodeEncodeError] of
    [quote]. *)
Definition build_notice_url (bid_no bid_ord : str) : option str :=
  if is_nil bid_no then Some UNASSIGNED
  else
    match quote bid_no with
    | Some no =>
        match quote (if is_nil bid_ord then u "0" else bid_ord) with
        | Some ord =>
            Some (NOTICE_URL ++ u "bidNtceNo=" ++ no ++ u "&bidNtceOrd=" ++ ord)
        | None => None
        end
    | None => None
    end.

(** The characters of a quoted string. *)
Definition quoted_char (c : char) : bool :=
  ALWAYS_SAFE c || (c =? 47) || (c =? 37).

(** The characters of a notice address: those of a quoted string and
    [: ? = &]. *)
Definition url_char (c : char) : bool :=
  quoted_char c || (c =? 58) || (c =? 63) || (c =? 61) || (c =? 38).

Definition surrogate (c : char) : bool := (55296 <=? c) && (c <=? 57343).

(** A Python string: every code point is below 0x110000. *)
Definition code_points (s : str) : Prop :=
  forallb (fun c => c <? 1114112) s = true.

(** The order that [build_notice_url] quotes: ["0"] for an empty one. *)
Definition ord_or_zero (bid_ord : str) : str :=
  if is_nil bid_ord then u "0" else bid_ord.
End Url.

(** ** Parsed JSON documents *)

Module Json.

(** What [json.loads] answers. A float is an exact rational, as
    elsewhere: the special values that [json.loads] also accepts ([NaN],
    [Infinity]) are not modelled. An object keeps the order of its keys. *)
Local Unset Elimination Schemes.
Inductive json : Type :=
| JNull
| JBool (b : bool)
| JInt (n : Z)
| JFloat (x : Q)
| JStr (s : str)
| JList (items : list json)
| JDict (entries : PyDict.dict str json).
Local Set Elimination Schemes.

(** The truth value of a document. *)
Definition truth_value (v : json) : bool :=
  match v with
  | JNull => false
  | JBool b => b
  | JInt n => negb (n =? 0)%Z
  | JFloat x => Num.truthy x
  | JStr s => negb (is_nil s)
  | JList items => negb (is_nil items)
  | JDict entries => negb (is_nil entries)
  end.

(** [a or b] *)
Definition py_or (a b : json) : json := if truth_value a then a else b.

(** [d.get(k, default)] *)
Definition dict_get (d : PyDict.dict str json) (k : str) (default : json)
  : json :=
  match PyDict.get str_eq_dec k d with
  | Some v => v
  | None => default
  end.

(** The exceptions that the reading of a document can raise. *)
Inductive error : Type :=
| AttributeError
| TypeError
| ValueError
| UnicodeEncodeError.

(** A dictionary, or the [AttributeError] of a [.get] on something else. *)
Definition as_dict (v : json) : error + PyDict.dict str json :=
  match v with
  | JDict entries => inr entries
  | _ => inl AttributeError
  end.

(** [for item in items]: the elements of a list, the keys of a dictionary,
    the characters of a string; other documents are not iterable. *)
Definition iterate (v : json) : error + list json :=
  match v with
  | JList items => inr items
  | JDict entries => inr (map JStr (PyDict.keys entries))
  | JStr s => inr (map (fun c => JStr [c]) s)
  | _ => inl TypeError
  end.

Section Conversions.
(** [str(v)] for a float, a list or a dictionary. *)
Variable repr : json -> str.
(** [int(s)] for a string, [None] for its [ValueError]. *)
Variable int_of_str : str -> option Z.

(** [str(v)] *)
Definition py_str (v : json) : str :=
  match v with
  | JStr s => s
  | JInt n => u (NilZero.string_of_int (Z.to_int n))
  | JBool true => u "True"
  | JBool false => u "False"
  | JNull => u "None"
  | _ => repr v
  end.

(** [int(v)] *)
Definition to_int (v : json) : error + Z :=
  match v with
  | JInt n => inr n
  | JBool b => inr (if b then 1 else 0)%Z
  | JFloat x => inr (Leads.py_int x)
  | JStr s =>
      match int_of_str s with
      | Some n => inr n
      | None => inl ValueError
      end
  | _ => inl TypeError
  end.
End Conversions.

End Json.

(** ** From the items of a response to notices *)

Module Ingest.
Import Json Url.

(** [s.replace(",", "")] *)
Definition remove_commas (s : str) : str :=
  filter (fun c => negb (c =? 44)%N) s.

(** [raw in (None, "", "-")] *)
Definition blank (raw : json) : bool :=
  match raw with
  | JNull => true
  | JStr s => is_nil s || str_eqb s (u "-")
  | _ => false
  end.

(** [s or default] for strings *)
Definition str_or (s default : str) : str :=
  if is_nil s then default else s.

Section WithEnvironment.
Variable U : unicode_db.
Variable repr : json -> str.
(** [float(s)], [None] for its [ValueError]. *)
Variable py_float : str -> option Q.

(** [str(item.get(k1) or item.get(k2) or default)] *)
Definition field (item : PyDict.dict str json) (k1 k2 : str) (default : str)
  : str :=
  py_str repr (py_or (py_or (dict_get item k1 JNull) (dict_get item k2 JNull))
                     (JStr default)).

(** [str(item.get(k) or default)] *)
Definition field1 (item : PyDict.dict str json) (k : str) (default : str)
  : str :=
  py_str repr (py_or (dict_get item k JNull) (JStr default)).

Definition normalize_bid_key (item : PyDict.dict str json) : str * str :=
  let bid_no := field item (u "bidNtceNo") (u "bid_ntce_no") [] in
  let bid_ord := field item (u "bidNtceOrd") (u "bid_ntce_ord") (u "0") in
  (strip U bid_no, strip U bid_ord).

(** The loop of [_parse_budget] over the keys that are left. *)
Fixpoint parse_budget_from (item : PyDict.dict str json) (keys : list str)
  : option Q :=
  match keys with
  | [] => None
  | key :: rest =>
      let raw := dict_get item key JNull in
      if blank raw then parse_budget_from item rest
      else
        match py_float (remove_commas (py_str repr raw)) with
        | Some x => Some x
        | None => parse_budget_from item rest
        end
  end.

(** The amount that one key of an item gives, if any. *)
Definition amount_of (item : PyDict.dict str json) (key : str) : option Q :=
  if blank (dict_get item key JNull) then None
  else py_float (remove_commas (py_str repr (dict_get item key JNull))).

Definition BUDGET_KEYS : list str :=
  [ u "asignBdgtAmt"; u "presmptPrce"; u "budgetAmt" ].

Definition _parse_budget (item : PyDict.dict str json) : option Q :=
  parse_budget_from item BUDGET_KEYS.

(** The body of the loop over the items of a page: the notice of an item.
    An item that is no dictionary has no [get]; an identifier that cannot
    be encoded stops [build_notice_url]. *)
Definition notice_of_item (item : json) : error + RawNotice :=
  match item with
  | JDict d =>
      let '(bid_no, bid_ord) := normalize_bid_key d in
      let title := field d (u "bidNtceNm") (u "bid_ntce_nm") [] in
      match Url.build_notice_url bid_no bid_ord with
      | Some url =>
          inr {| Notice.bid_ntce_no := str_or bid_no UNASSIGNED;
                 Notice.bid_ntce_ord := str_or bid_ord (u "0");
                 Notice.notice_title := str_or title UNASSIGNED;
                 Notice.work_type :=
                   field d (u "bsnsDivNm") (u "workType") UNASSIGNED;
                 Notice.agency_name :=
                   field d (u "dminsttNm") (u "ntceInsttNm") UNASSIGNED;
                 Notice.notice_date := field1 d (u "bidNtceDt") [];
                 Notice.deadline_dt := field1 d (u "bidClseDt") [];
                 Notice.budget_amt := _parse_budget d;
                 Notice.source_url := url |}
      | None => inl UnicodeEncodeError
      end
  | _ => inl AttributeError
  end.

(** The notices of the items of a page, up to the first exception. *)
Fixpoint notices_of_items (items : list json) : error + list RawNotice :=
  match items with
  | [] => inr []
  | item :: rest =>
      match notice_of_item item with
      | inl e => inl e
      | inr notice =>
          match notices_of_items rest with
          | inl e => inl e
          | inr notices => inr (notice :: notices)
          end
      end
  end.

(** The items and the body of a response:
    [data.get("response", {}).get("body", {})], then [body.get("items", [])]
    and, when that is a dictionary, its ["item"]. *)
Definition page_items (data : json) : error + (json * PyDict.dict str json) :=
  match as_dict data with
  | inl e => inl e
  | inr d =>
      match as_dict (dict_get d (u "response") (JDict [])) with
      | inl e => inl e
      | inr response =>
          match as_dict (dict_get response (u "body") (JDict [])) with
          | inl e => inl e
          | inr body =>
              match dict_get body (u "items") (JList []) with
              | JDict items => inr (dict_get items (u "item") (JList []), body)
              | items => inr (items, body)
              end
          end
      end
  end.
End WithEnvironment.

End Ingest.

(** ** The fetcher of a date range ([fetch_notices_std]) *)

Module Fetch.
Import Json Ingest Datetime.

Definition BASE_URL_STD : str :=
  u "http://apis.data.go.kr/1230000/ao/PubDataOpnStdService".
Definition ENDPOINT_STD_BID : str := u "/getDataSetOpnStdBidPblancInfo".

(** The query of a request. *)
Record Params : Type := {
  serviceKey : str;
  pageNo : Z;
  numOfRows : Z;
  type_ : str;
  inqryBgnDt : str;
  inqryEndDt : str
}.

Section WithEnvironment.
Variable U : unicode_db.
Variable repr : json -> str.
Variable py_float : str -> option Q.
Variable int_of_str : str -> option Z.
Variable strftime : datetime -> str -> str.
(** The exceptions of a request other than [HTTPError]. *)
Variable E : Type.
(** The server: what the attempts of the call number [i] of
    [request_json] meet, for the address and the query of the call. *)
Variable server : nat -> str -> Params -> nat -> Fetcher.response json E.

(** How [fetch_notices_std] can end other than by its [return]. *)
Inductive failure : Type :=
| RequestRaised (o : Fetcher.outcome json E)
| DocumentRaised (e : error)
| CalendarRaised
| OutOfFuel.

(** The result, and the queries sent so far. *)
Definition logged (A : Type) : Type := ((failure + A) * list Params)%type.

Definition query (service_key : str) (window_start window_end : datetime)
    (page_no : Z) : Params :=
  {| serviceKey := service_key;
     pageNo := page_no;
     numOfRows := 100;
     type_ := u "json";
     inqryBgnDt := strftime window_start (u "%Y%m%d%H%M");
     inqryEndDt := strftime window_end (u "%Y%m%d%H%M") |}.

(** What the body of the loop makes of the document of a page: the
    notices of its items, and whether the loop goes on to the next
    page. *)
Inductive page : Type :=
| LastPage (more : list RawNotice)
| NextPage (more : list RawNotice)
| BadPage (e : error).

Definition read_page (data : json) (page_no : Z) : page :=
  match page_items data with
  | inl e => BadPage e
  | inr (items, body) =>
      if negb (truth_value items) then LastPage []
      else
        match iterate items with
        | inl e => BadPage e
        | inr item_list =>
            match notices_of_items U repr py_float item_list with
            | inl e => BadPage e
            | inr more =>
                match to_int int_of_str
                        (py_or (dict_get body (u "totalCount") JNull)
                               (JInt 0)) with
                | inl e => BadPage e
                | inr total_count =>
                    if (total_count <=? page_no * 100)%Z
                    then LastPage more
                    else NextPage more
                end
            end
        end
  end.

(** [request_json] for the call number [i]. *)
Definition request (i : nat) (params : Params)
  : Fetcher.outcome json E :=
  Fetcher.result
    (Fetcher.request_json (server i (BASE_URL_STD ++ ENDPOINT_STD_BID) params)).

(** The loop over the pages of a window. *)
Fixpoint fetch_pages (fuel : nat) (service_key : str)
    (window_start window_end : datetime) (page_no : Z)
    (notices : list RawNotice) (log : list Params)
  : logged (list RawNotice) :=
  match fuel with
  | O => (inl OutOfFuel, log)
  | S fuel' =>
      let params := query service_key window_start window_end page_no in
      let log' := log ++ [params] in
      match request (length log) params with
      | Fetcher.Return _ data =>
          match read_page data page_no with
          | LastPage more => (inr (notices ++ more), log')
          | NextPage more =>
              fetch_pages fuel' service_key window_start window_end
                          (page_no + 1)%Z (notices ++ more) log'
          | BadPage e => (inl (DocumentRaised e), log')
          end
      | o => (inl (RequestRaised o), log')
      end
  end.

(** The loop over the windows. *)
Fixpoint fetch_windows (fuel : nat) (service_key : str)
    (windows : list Windows.window) (notices : list RawNotice)
    (log : list Params) : logged (list RawNotice) :=
  match windows with
  | [] => (inr notices, log)
  | (window_start, window_end) :: rest =>
      match fetch_pages fuel service_key window_start window_end 1
                        notices log with
      | (inr notices', log') =>
          fetch_windows fuel service_key rest notices' log'
      | (inl e, log') => (inl e, log')
      end
  end.

(** [fetch_notices_std]; [fuel] bounds the pages of a window. The
    windows come from a generator: an exception of the planner is met
    after the windows before it are fetched. *)
Definition fetch_notices_std (fuel : nat) (service_key : str)
    (start end_ : datetime) (mode : str) : logged (list RawNotice) :=
  let '(windows, status) := Windows.iter_windows start end_ mode in
  match fetch_windows fuel service_key windows [] [] with
  | (inr notices, log) =>
      match status with
      | Windows.Exhausted => (inr (Dedup.dedupe_notices notices), log)
      | Windows.Raised => (inl CalendarRaised, log)
      | Windows.OutOfFuel => (inl OutOfFuel, log)
      end
  | (inl e, log) => (inl e, log)
  end.
End WithEnvironment.

End Fetch.

(** ** The command line ([main]) *)

Module Cli.
Import Datetime.
Local Open Scope Z_scope.

(** The namespace that [parse_args] answers. An option that is not given
    is [None]; the key defaults to the environment's, or to the empty
    string. *)
Record Args : Type := {
  start : option str;
  end_ : option str;
  mode : str;
  out_dir : str;
  top_n : Z;
  service_key : str
}.

(** How [main] goes on after its checks: an exception, or the call of
    [run_pipeline] with its arguments. *)
Inductive ending : Type :=
| RaiseSystemExit (message : str)
| RaiseValueError
| RaiseOverflowError
| CallRunPipeline (service_key : str) (start end_ : datetime) (mode : str)
    (out_dir : str) (top_n : Z).

(** The truth value of an option of the command line. *)
Definition given (o : option str) : option str :=
  match o with
  | Some [] | None => None
  | Some s => Some s
  end.

Section WithEnvironment.
(** [datetime.strptime(value, fmt)], [None] for its [RaiseValueError]. *)
Variable strptime : str -> str -> option datetime.
(** The reading of [datetime.now()]. *)
Variable now : datetime.

Definition main (args : Args) : ending :=
  if is_nil (service_key args)
  then RaiseSystemExit (u "DATA_GO_KR_SERVICE_KEY(또는 --service-key)가 필요합니다.")
  else
    match (match given (end_ args) with
           | Some s => strptime s (u "%Y-%m-%d")
           | None => Some now
           end) with
    | None => RaiseValueError
    | Some e =>
        match given (start args) with
        | Some s =>
            match strptime s (u "%Y-%m-%d") with
            | None => RaiseValueError
            | Some b =>
                if e <? b
                then RaiseSystemExit (u "start는 end보다 이전이어야 합니다.")
                else CallRunPipeline (service_key args) b e (mode args)
                                 (out_dir args) (top_n args)
            end
        | None =>
            match add_us e (- (7 * US_PER_DAY)) with
            | None => RaiseOverflowError
            | Some b =>
                if e <? b
                then RaiseSystemExit (u "start는 end보다 이전이어야 합니다.")
                else CallRunPipeline (service_key args) b e (mode args)
                                 (out_dir args) (top_n args)
            end
        end
    end.
End WithEnvironment.

End Cli.

(** ** Notions that the properties are stated with *)

Module Log10.
Import Num Datetime.
Local Open Scope Q_scope.
(** An upper approximation of [log10] for examples: one more than the
    binary logarithm of the integer part, scaled by 0.302 and truncated. *)
Definition log10_upper (x : Q) : Q :=
  inject_Z ((Z.log2 (Qfloor x) + 1) * 302 / 1000).
End Log10.

Module Search.
(** Whether an attempt to match succeeded. *)
Definition hit (A : Type) (o : option A) : bool :=
  match o with Some _ => true | None => false end.
End Search.

Module Entries.
Import PyDict Dedup.
(** The entries of the dictionary of the loop: every notice sits under its
    own key. *)
Definition entries (ns : list RawNotice) : dict key RawNotice :=
  map (fun n => (notice_key n, n)) ns.
End Entries.

Module Runs.
Import Fetcher.
Local Open Scope Z_scope.

Section Request.
Variables J E : Type.
Variable urlopen : nat -> response J E.

(** What a run of [request_json] looks like, whatever the server does. *)
Definition explained (r : run J E) : Prop :=
  (1 <= calls r <= 4)%nat
  /\ sleeps r = backoff (calls r - 1)
  /\ (forall i : nat, (i < calls r - 1)%nat -> retryable (urlopen i))
  /\ match result r with
     | Return _ payload => urlopen (calls r - 1)%nat = Parsed E payload
     | RaiseAuth _ _ code =>
         urlopen (calls r - 1)%nat = HTTPError J E code
         /\ (code = 401 \/ code = 403)
     | Reraise _ _ code =>
         urlopen (calls r - 1)%nat = HTTPError J E code
         /\ code <> 401 /\ code <> 403 /\ code <> 429 /\ code < 500
     | RaiseFailed _ last_error =>
         calls r = 4%nat /\ retryable (urlopen 3%nat)
         /\ last_error = exn_of (urlopen 3%nat)
     end.

End Request.
End Runs.

Module Plans.
Import Datetime Windows.
Local Open Scope Z_scope.

(** The daily plan in closed form: window number [k] (from 0) starts [k]
    days after the start and ends a minute before window [k + 1] starts,
    or at the overall end. *)
Definition daily_window (start end_ : datetime) (k : nat) : window :=
  (start + Z.of_nat k * US_PER_DAY,
   Z.min end_ (start + (Z.of_nat k + 1) * US_PER_DAY - US_PER_MINUTE)).

Definition daily_plan (start end_ : datetime) : list window :=
  map (daily_window start end_)
      (seq 0 (Z.to_nat ((end_ - start) / US_PER_DAY + 1))).

(** The month after the month [m] of the year [y]. *)
Definition next_month (ym : Z * Z) : Z * Z :=
  if snd ym =? 12 then (fst ym + 1, 1) else (fst ym, snd ym + 1).

(** Consecutive windows lie in consecutive months. *)
Fixpoint month_by_month (ws : list window) : Prop :=
  match ws with
  | w1 :: ((w2 :: _) as rest) =>
      (year (fst w2), month (fst w2))
      = next_month (year (fst w1), month (fst w1))
      /\ day (fst w2) = 1 /\ fst w2 mod US_PER_DAY = 0
      /\ month_by_month rest
  | _ => True
  end.
End Plans.

Module Completion.
Import Datetime Windows.
Local Open Scope Z_scope.

(** The cursor that ends a daily plan: the first of the instants [start],
    [start] plus one day, [start] plus two days, ... that lies after the
    end of the range. *)
Definition first_past (start end_ : datetime) : Z :=
  start + ((end_ - start) / US_PER_DAY + 1) * US_PER_DAY.

(** The ranges that the planner gets through: in a daily plan the cursor
    that ends the loop is still a datetime; in a monthly plan no cursor
    lies in December 9999. *)
Definition completes (mode : str) (start end_ : datetime) : bool :=
  if str_eqb mode (u "monthly") then end_ <? LAST_MONTH_START
  else representable (first_past start end_).
End Completion.

Module Counters.
Import stdpp.base stdpp.gmap.
(** [sum(d.values())] *)
Definition sum_values (d : gmap str nat) : nat :=
  map_fold (fun _ v s => (v + s)%nat) 0%nat d.
End Counters.

Module Years.
Import Re Recurrence.
(** None of the last three characters of a string is the digit 2: no
    year that starts inside the string can reach beyond its end. *)
Definition closes_years (a : str) : Prop :=
  forall i : nat,
    (length a - 3 <= i < length a)%nat -> nth i a 0%N <> 50%N.

(** A year: "20" and two digits. *)
Definition is_year (U : unicode_db) (y : str) : Prop :=
  exists d1 d2 : char,
    y = [50%N; 48%N; d1; d2] /\ is_digit U d1 = true /\ is_digit U d2 = true.
End Years.

Module Pages.
Import Json Ingest Fetch Datetime.
(** A notice whose identifying fields are all filled in. *)
Definition complete (n : RawNotice) : Prop :=
  Notice.bid_ntce_no n <> [] /\ Notice.bid_ntce_ord n <> []
  /\ Notice.notice_title n <> [] /\ Notice.source_url n <> [].

(** A query of the fetcher for the caller's key. *)
Definition own_query (service_key : str) (p : Params) : Prop :=
  serviceKey p = service_key /\ numOfRows p = 100%Z /\ type_ p = u "json"
  /\ (1 <= pageNo p)%Z.

(** The total that a document reports, when it can be read as a number:
    [int(body.get("totalCount") or 0)]. *)
Definition total_count (int_of_str : str -> option Z) (data : json)
  : option Z :=
  match page_items data with
  | inr (_, body) =>
      match to_int int_of_str
                   (py_or (dict_get body (u "totalCount") JNull) (JInt 0)) with
      | inr total => Some total
      | inl _ => None
      end
  | inl _ => None
  end.

(** A server for examples: every page of every window holds one and the
    same item, and the total is one. *)
Definition example_item : json :=
  JDict [ (u "bidNtceNo", JStr (u " 20240101234 "));
          (u "bidNtceNm", JStr (u "리더십 교육 운영 용역"));
          (u "presmptPrce", JStr (u "1,000")) ].

Definition example_document : json :=
  JDict [ (u "response",
           JDict [ (u "body",
                    JDict [ (u "items", JList [example_item]);
                            (u "totalCount", JInt 1) ]) ]) ].

Definition example_server (i : nat) (url : str) (p : Params) (attempt : nat)
  : Fetcher.response json unit :=
  Fetcher.Parsed unit example_document.

(** The same with a total of 101: a second page is asked for. *)
Definition example_long_document : json :=
  JDict [ (u "response",
           JDict [ (u "body",
                    JDict [ (u "items", JList [example_item]);
                            (u "totalCount", JInt 101) ]) ]) ].

Definition example_long_server (i : nat) (url : str) (p : Params)
    (attempt : nat) : Fetcher.response json unit :=
  Fetcher.Parsed unit example_long_document.

(** The notice of [example_item], with every amount read as 1000. *)
Definition example_fetched : RawNotice :=
  {| Notice.bid_ntce_no := u "20240101234";
     Notice.bid_ntce_ord := u "0";
     Notice.notice_title := u "리더십 교육 운영 용역";
     Notice.work_type := u "미지정";
     Notice.agency_name := u "미지정";
     Notice.notice_date := [];
     Notice.deadline_dt := [];
     Notice.budget_amt := Some 1000%Q;
     Notice.source_url :=
       Url.NOTICE_URL ++ u "bidNtceNo=20240101234&bidNtceOrd=0" |}.
End Pages.

(** * Properties *)

Lemma str_eqb_eq (a b : str) : str_eqb a b = true <-> a = b.
Proof.
  unfold str_eqb. destruct (str_eq_dec a b); split; congruence.
Qed.

Lemma str_eqb_neq (a b : str) : str_eqb a b = false <-> a <> b.
Proof.
  unfold str_eqb. destruct (str_eq_dec a b); split; congruence.
Qed.

Lemma is_nil_true (A : Type) (l : list A) : is_nil l = true <-> l = [].
Proof. destruct l; simpl; split; congruence. Qed.

Lemma is_nil_length (A : Type) (l : list A) :
  is_nil l = false <-> (1 <= length l)%nat.
Proof. destruct l; simpl; split; intros; try congruence; lia. Qed.

(** ** The classifier *)

Module ClassifierFacts.
Import Classifier.

Section WithUnicode.
Variable U : unicode_db.

(** The strengths the classifier can answer. *)
Lemma strength_values (title : str) :
  In (snd (fst (match_category U title))) [0.0; 0.45; 0.84; 0.78; 0.72]%Q.
Proof.
  unfold match_category.
  repeat match goal with
         | |- context [if ?b then _ else _] => destruct b
         end; simpl; tauto.
Qed.

Lemma match_category_refines (title : str) :
  classify_spec U title (match_category U title).
Proof.
  unfold match_category.
  destruct (is_nil (strip U title)) eqn:Hblank.
  { apply cs_blank. now apply is_nil_true. }
  assert (Hne : strip U title <> []).
  { intros E. apply is_nil_true in E. congruence. }
  destruct (is_nil (include_hits U (strip U title))) eqn:Hinc.
  { apply cs_not_applicable; trivial.
    apply is_nil_true in Hinc. now rewrite Hinc. }
  apply is_nil_length in Hinc.
  destruct (negb (is_nil (exclude_hits U (strip U title)))
            && (length (include_hits U (strip U title))
                <=? length (exclude_hits U (strip U title)))%nat)
    eqn:Hhold.
  { apply andb_prop in Hhold as [Hexc Hle].
    apply negb_true_iff, is_nil_length in Hexc.
    apply Nat.leb_le in Hle.
    now apply cs_hold. }
  assert (Hclear :
    (length (exclude_hits U (strip U title)) = 0
     \/ length (exclude_hits U (strip U title))
        < length (include_hits U (strip U title)))%nat).
  { apply andb_false_iff in Hhold as [Hexc | Hlt].
    - left. apply negb_false_iff, is_nil_true in Hexc. now rewrite Hexc.
    - right. apply Nat.leb_gt in Hlt. exact Hlt. }
  destruct (search_i U OD_RE (strip U title)) eqn:Hod.
  { now apply cs_od. }
  destruct (search_i U EVAL_RE (strip U title)) eqn:Hev.
  { now apply cs_eval. }
  now apply cs_hrd.
Qed.

Lemma classify_spec_functional (title : str) (r r' : str * Q * list Re.regex) :
  classify_spec U title r -> classify_spec U title r' -> r = r'.
Proof.
  intros H H'.
  destruct H; destruct H'; trivial; try congruence; try lia.
Qed.
End WithUnicode.

(** C2. [match_category] is a total function of the title that follows the
    algorithm of the specification: a blank title is unassigned with
    strength 0.0 and no hits; no include hit means not applicable with
    strength 0.0; exclude hits that are at least as many as the include hits
    mean hold with 0.45; otherwise the organisation terms give OD with 0.84,
    else the evaluation terms give Evaluation with 0.78, else HRD with 0.72.
    The algorithm determines the answer, and the strength lies in [0, 1]. *)
Theorem match_category_follows_spec (U : unicode_db) (title : str) :
  classify_spec U title (match_category U title)
  /\ (forall r : str * Q * list Re.regex,
        classify_spec U title r -> r = match_category U title)
  /\ (0 <= snd (fst (match_category U title))
      /\ snd (fst (match_category U title)) <= 1)%Q.
Proof.
  split; [apply match_category_refines|].
  split.
  - intros r Hr.
    exact (classify_spec_functional Hr (match_category_refines U title)).
  - pose proof (strength_values U title) as Hin. simpl in Hin.
    destruct Hin as [E | [E | [E | [E | [E | []]]]]]; rewrite <- E;
      split; unfold Qle; simpl; lia.
Qed.

(** The end-to-end scenarios of the specification and the examples of the
    test suite, over [basic_unicode]. *)
Example scenario_A :
  fst (match_category basic_unicode (u "리더십 역량강화 교육 운영 용역"))
  = (CAT_HRD, 0.72%Q).
Proof. vm_compute. reflexivity. Qed.

Example scenario_B :
  fst (match_category basic_unicode (u "조직진단 및 조직문화 개선 컨설팅 용역"))
  = (CAT_OD, 0.84%Q).
Proof. vm_compute. reflexivity. Qed.

Example test_evaluation :
  fst (match_category basic_unicode (u "성과평가 제도 고도화 컨설팅"))
  = (CAT_EVAL, 0.78%Q).
Proof. vm_compute. reflexivity. Qed.

Example test_noise :
  fst (match_category basic_unicode (u "전기설비 안전점검 용역"))
  = (CAT_NOT_APPLICABLE, 0.0%Q).
Proof. vm_compute. reflexivity. Qed.

(** [\bOD\b] needs a word boundary: Hangul syllables are word characters. *)
Example od_needs_boundary :
  fst (match_category basic_unicode (u "od 컨설팅")) = (CAT_OD, 0.84%Q)
  /\ fst (match_category basic_unicode (u "OD컨설팅")) = (CAT_HRD, 0.72%Q).
Proof. vm_compute. split; reflexivity. Qed.

End ClassifierFacts.

(** ** Insertion-ordered dictionaries *)

Module PyDictFacts.
Import PyDict.

Section Dict.
Variables K V : Type.
Variable eq_dec : forall a b : K, {a = b} + {a <> b}.

Lemma get_set_eq (k : K) (v : V) (d : dict K V) :
  get eq_dec k (set eq_dec k v d) = Some v.
Proof.
  induction d as [|[k' v'] d IH]; simpl.
  - destruct (eq_dec k k); congruence.
  - destruct (eq_dec k k') as [E|N]; simpl.
    + destruct (eq_dec k k'); congruence.
    + destruct (eq_dec k k'); congruence.
Qed.

Lemma get_set_ne (k k0 : K) (v : V) (d : dict K V) :
  k0 <> k -> get eq_dec k0 (set eq_dec k v d) = get eq_dec k0 d.
Proof.
  intros Hne. induction d as [|[k' v'] d IH]; simpl.
  - destruct (eq_dec k0 k); congruence.
  - destruct (eq_dec k k') as [E|N]; simpl.
    + subst k'. destruct (eq_dec k0 k); congruence.
    + destruct (eq_dec k0 k'); congruence.
Qed.

Lemma keys_set_old (k : K) (v : V) (d : dict K V) :
  In k (keys d) -> keys (set eq_dec k v d) = keys d.
Proof.
  unfold keys. induction d as [|[k' v'] d IH]; simpl; [tauto|].
  intros Hin. destruct (eq_dec k k') as [E|N]; simpl; [reflexivity|].
  f_equal. apply IH. destruct Hin; congruence.
Qed.

Lemma keys_set_new (k : K) (v : V) (d : dict K V) :
  ~ In k (keys d) -> keys (set eq_dec k v d) = keys d ++ [k].
Proof.
  unfold keys. induction d as [|[k' v'] d IH]; simpl; [reflexivity|].
  intros Hnin. destruct (eq_dec k k') as [E|N]; simpl.
  - exfalso. apply Hnin. left. congruence.
  - f_equal. apply IH. tauto.
Qed.

Lemma get_Some_In (k : K) (v : V) (d : dict K V) :
  get eq_dec k d = Some v -> exists k', In (k', v) d.
Proof.
  induction d as [|[k' v'] d IH]; simpl; [discriminate|].
  destruct (eq_dec k k').
  - intros [= ->]. exists k'. now left.
  - intros H. destruct (IH H) as [k'' Hk]. exists k''. now right.
Qed.

Lemma In_get (k : K) (v : V) (d : dict K V) :
  NoDup (keys d) -> In (k, v) d -> get eq_dec k d = Some v.
Proof.
  unfold keys. induction d as [|[k' v'] d IH]; simpl; [tauto|].
  intros Hnd [E | Hin].
  - injection E as -> ->. destruct (eq_dec k k); congruence.
  - inversion Hnd as [|? ? Hnin Hnd']; subst.
    destruct (eq_dec k k') as [E|N].
    + subst k'. exfalso. apply Hnin.
      change k with (fst (k, v)). now apply in_map.
    + now apply IH.
Qed.
End Dict.
End PyDictFacts.

(** ** The deduplicator *)

Module DedupFacts.
Import PyDict PyDictFacts Dedup.

Lemma deduped_snoc (ns : list RawNotice) (n : RawNotice) :
  deduped (ns ++ [n]) = set key_eq_dec (notice_key n) n (deduped ns).
Proof. unfold deduped. now rewrite fold_left_app. Qed.

Lemma remove_app_last (k : key) (l : list key) (x : key) :
  remove key_eq_dec k (l ++ [x])
  = remove key_eq_dec k l ++ (if key_eq_dec k x then [] else [x]).
Proof.
  rewrite remove_app. simpl. now destruct (key_eq_dec k x).
Qed.

Lemma In_first_distinct (k : key) (l : list key) :
  In k (first_distinct l) <-> In k l.
Proof.
  induction l as [|x l IH]; simpl; [tauto|].
  split.
  - intros [E | Hin]; [now left|].
    apply in_remove in Hin. right. now apply IH.
  - intros [E | Hin]; [now left|].
    destruct (key_eq_dec x k) as [E|N]; [now left|].
    right. apply in_in_remove; [congruence|]. now apply IH.
Qed.

Lemma NoDup_remove_key (k : key) (l : list key) :
  NoDup l -> NoDup (remove key_eq_dec k l).
Proof.
  induction 1 as [|x l Hnin Hnd IH]; simpl; [constructor|].
  destruct (key_eq_dec k x); [assumption|].
  constructor; [|assumption].
  intros Hin. apply in_remove in Hin. tauto.
Qed.

Lemma NoDup_first_distinct (l : list key) : NoDup (first_distinct l).
Proof.
  induction l as [|x l IH]; simpl; constructor.
  - apply remove_In.
  - now apply NoDup_remove_key.
Qed.

Lemma first_distinct_snoc (l : list key) (x : key) :
  first_distinct (l ++ [x])
  = if in_dec key_eq_dec x l then first_distinct l else first_distinct l ++ [x].
Proof.
  induction l as [|y l IH]; simpl; [reflexivity|].
  rewrite IH.
  destruct (key_eq_dec y x) as [E|N].
  - subst y. f_equal.
    destruct (in_dec key_eq_dec x l); [reflexivity|].
    rewrite remove_app_last. destruct (key_eq_dec x x); [|congruence].
    now rewrite app_nil_r.
  - destruct (in_dec key_eq_dec x l) as [Hin|Hnin]; [reflexivity|].
    rewrite remove_app_last. destruct (key_eq_dec y x); [congruence|].
    reflexivity.
Qed.

Lemma length_remove_le (k : key) (l : list key) :
  (length (remove key_eq_dec k l) <= length l)%nat.
Proof.
  induction l as [|x l IH]; simpl; [lia|].
  destruct (key_eq_dec k x); simpl; lia.
Qed.

Lemma length_first_distinct (l : list key) :
  (length (first_distinct l) <= length l)%nat.
Proof.
  induction l as [|x l IH]; simpl; [lia|].
  pose proof (length_remove_le x (first_distinct l)). lia.
Qed.

(** The keys of the dictionary are the keys of the input in order of first
    appearance. *)
Lemma keys_deduped (ns : list RawNotice) :
  keys (deduped ns) = first_distinct (map notice_key ns).
Proof.
  induction ns as [|n ns IH] using rev_ind; [reflexivity|].
  rewrite deduped_snoc, map_app. simpl. rewrite first_distinct_snoc.
  destruct (in_dec key_eq_dec (notice_key n) (map notice_key ns)) as [Hin|Hnin].
  - rewrite keys_set_old; [assumption|].
    rewrite IH. now apply In_first_distinct.
  - rewrite keys_set_new; [now rewrite IH|].
    rewrite IH. now rewrite In_first_distinct.
Qed.

Lemma last_with_key_snoc (k : key) (ns : list RawNotice) (n : RawNotice) :
  last_with_key k (ns ++ [n])
  = if key_eq_dec (notice_key n) k then Some n else last_with_key k ns.
Proof.
  unfold last_with_key. rewrite rev_app_distr. cbn [rev app find].
  now destruct (key_eq_dec (notice_key n) k).
Qed.

(** Every key is bound to the last notice that carries it. *)
Lemma get_deduped (k : key) (ns : list RawNotice) :
  get key_eq_dec k (deduped ns) = last_with_key k ns.
Proof.
  induction ns as [|n ns IH] using rev_ind; [reflexivity|].
  rewrite deduped_snoc, last_with_key_snoc.
  destruct (key_eq_dec (notice_key n) k) as [E|N].
  - subst k. apply get_set_eq.
  - rewrite get_set_ne; [assumption | congruence].
Qed.

Lemma last_with_key_key (k : key) (ns : list RawNotice) (n : RawNotice) :
  last_with_key k ns = Some n -> notice_key n = k.
Proof.
  unfold last_with_key. intros H. apply find_some in H as [_ H].
  now destruct (key_eq_dec (notice_key n) k).
Qed.

Lemma count_one (l : list RawNotice) (k : key) :
  NoDup (map notice_key l) -> In k (map notice_key l) -> count_key k l = 1%nat.
Proof.
  unfold count_key. induction l as [|n l IH]; simpl; [tauto|].
  intros Hnd Hin. inversion Hnd as [|? ? Hnin Hnd']; subst.
  destruct (key_eq_dec (notice_key n) k) as [E|N]; simpl.
  - subst k. f_equal.
    clear - Hnin. induction l as [|m l IH]; simpl; [reflexivity|].
    simpl in Hnin.
    destruct (key_eq_dec (notice_key m) (notice_key n)) as [E|N]; [|tauto].
    exfalso. apply Hnin. now left.
  - apply IH; [assumption|]. destruct Hin; congruence.
Qed.

(** C3. [dedupe_notices] answers a list no longer than its input, where
    every key (notice identifier, amendment ordinal) of the input occurs
    exactly once, bound to the last notice of the input that carries it,
    and the keys come in the order in which they first appear in the
    input. *)
Theorem dedupe_notices_spec (notices : list RawNotice) :
  (length (dedupe_notices notices) <= length notices)%nat
  /\ map notice_key (dedupe_notices notices)
     = first_distinct (map notice_key notices)
  /\ (forall k : key,
        In k (map notice_key notices) ->
        count_key k (dedupe_notices notices) = 1%nat)
  /\ (forall n : RawNotice,
        In n (dedupe_notices notices) ->
        last_with_key (notice_key n) notices = Some n).
Proof.
  assert (Hbound : forall k n,
             In (k, n) (deduped notices) -> last_with_key k notices = Some n).
  { intros k n Hin. rewrite <- get_deduped.
    apply In_get; [|assumption].
    rewrite keys_deduped. apply NoDup_first_distinct. }
  assert (Hkeys : map notice_key (dedupe_notices notices)
                  = first_distinct (map notice_key notices)).
  { rewrite <- keys_deduped. unfold dedupe_notices, values, keys.
    rewrite map_map. apply map_ext_in. intros [k n] Hin. simpl.
    apply Hbound in Hin. now apply last_with_key_key in Hin. }
  split; [|split; [exact Hkeys|split]].
  - unfold dedupe_notices, values. rewrite length_map.
    replace (length (deduped notices)) with (length (keys (deduped notices)))
      by (unfold keys; apply length_map).
    rewrite keys_deduped.
    pose proof (length_first_distinct (map notice_key notices)) as H.
    now rewrite length_map in H.
  - intros k Hin. apply count_one.
    + rewrite Hkeys. apply NoDup_first_distinct.
    + rewrite Hkeys. now apply In_first_distinct.
  - intros n Hin. unfold dedupe_notices, values in Hin.
    apply in_map_iff in Hin as [[k m] [E Hin]]. simpl in E. subst m.
    pose proof (Hbound _ _ Hin) as H.
    pose proof (last_with_key_key _ _ H) as Hk. now rewrite Hk.
Qed.

(** Scenario C of the specification: of two notices with one key, the
    later one is kept. *)
Example scenario_C :
  let n1 := {| Notice.bid_ntce_no := u "123"; Notice.bid_ntce_ord := u "1";
               Notice.notice_title := u "교육 운영";
               Notice.work_type := u "용역"; Notice.agency_name := u "서울시";
               Notice.notice_date := []; Notice.deadline_dt := [];
               Notice.budget_amt := None; Notice.source_url := u "u" |} in
  let n2 := {| Notice.bid_ntce_no := u "123"; Notice.bid_ntce_ord := u "1";
               Notice.notice_title := u "교육 운영 (정정)";
               Notice.work_type := u "용역"; Notice.agency_name := u "서울시";
               Notice.notice_date := []; Notice.deadline_dt := [];
               Notice.budget_amt := None; Notice.source_url := u "u" |} in
  dedupe_notices [n1; n2] = [n2].
Proof. vm_compute. reflexivity. Qed.

End DedupFacts.

(** ** The regular expressions of the recurrence detector *)

Module ReFacts.
Import Re.

Section Engine.
Variable U : unicode_db.
Variable ignorecase : bool.

Lemma plus_loop_class (A : Type) (P : char -> bool)
    (k : option char -> str -> option A) (n : nat) :
  forall (prev : option char) (s : str),
    (length s <= n)%nat ->
    plus_loop (class_body (A:=A) P) k n prev s = class_plus P k s.
Proof.
  induction n as [|n IH]; intros prev s Hlen.
  - destruct s; [reflexivity | simpl in Hlen; lia].
  - destruct s as [|x s']; [reflexivity|].
    cbn [plus_loop class_body class_plus].
    destruct (P x); [|reflexivity].
    replace (length s' <? length (x :: s'))%nat with true
      by (symmetry; apply Nat.ltb_lt; simpl; lia).
    rewrite IH by (simpl in Hlen; lia).
    reflexivity.
Qed.

(** When the continuation cannot start with a [P]-character, only the
    whole run can be followed by a match. *)
Lemma class_plus_greedy (A : Type) (P : char -> bool)
    (k : option char -> str -> option A) :
  (forall p x s', P x = true -> k p (x :: s') = None) ->
  forall (prev : option char) (s : str),
    class_plus P k s
    = if (1 <=? run P s)%nat
      then k (last_of_run P prev s) (skipn (run P s) s)
      else None.
Proof.
  intros Hk prev s. revert prev.
  induction s as [|x s' IH]; intros prev; [reflexivity|].
  cbn [class_plus run last_of_run].
  destruct (P x) eqn:Px; [|reflexivity].
  cbn [Nat.leb skipn]. rewrite (IH (Some x)).
  destruct s' as [|y s'']; [reflexivity|].
  cbn [run last_of_run]. destruct (P y) eqn:Py.
  - cbn [Nat.leb].
    destruct (k (last_of_run P (Some y) s'') (skipn (S (run P s'')) (y :: s'')));
      [reflexivity|].
    now apply Hk.
  - reflexivity.
Qed.

(** When the continuation always succeeds, the whole run is taken. *)
Lemma class_plus_total (A : Type) (P : char -> bool)
    (k : option char -> str -> A) :
  forall (prev : option char) (s : str),
    class_plus P (fun p r => Some (k p r)) s
    = if (1 <=? run P s)%nat
      then Some (k (last_of_run P prev s) (skipn (run P s) s))
      else None.
Proof.
  intros prev s. revert prev.
  induction s as [|x s' IH]; intros prev; [reflexivity|].
  cbn [class_plus run last_of_run].
  destruct (P x) eqn:Px; [|reflexivity].
  cbn [Nat.leb skipn]. rewrite (IH (Some x)).
  destruct s' as [|y s'']; [reflexivity|].
  cbn [run last_of_run]. destruct (P y) eqn:Py; reflexivity.
Qed.

Lemma length_skipn_run (P : char -> bool) (s : str) :
  (length (skipn (run P s) s) <= length s)%nat.
Proof. rewrite length_skipn. lia. Qed.
End Engine.

End ReFacts.

Module RecurrenceFacts.
Import Re ReFacts Recurrence.

Section Normalisation.
Variable U : unicode_db.

Lemma YEAR_RE_eq :
  YEAR_RE = Seq (Seq (Chr 50%N) (Seq (Chr 48%N) Eps)) (Seq Digit Digit).
Proof. reflexivity. Qed.

Lemma ORDINAL_RE_eq :
  ORDINAL_RE = Alt (Seq (Plus Digit) (Seq (Chr 52264%N) Eps))
                   (Seq (Plus Digit) (Seq (Chr 54924%N) Eps)).
Proof. reflexivity. Qed.

Lemma space_literal : u " " = [32%N].
Proof. reflexivity. Qed.

(** *** Years *)

Lemma match_year (prev : option char) (s : str) :
  match_here U false YEAR_RE prev s
  = if year_here U s
    then Some (hd_error (skipn 3 s), skipn 4 s)
    else None.
Proof.
  rewrite YEAR_RE_eq. unfold match_here, year_here.
  destruct s as [|c1 [|c2 [|c3 [|c4 rest]]]];
    cbn [rmatch chr_match skipn hd_error];
    repeat match goal with
           | |- context [(?a =? ?b)%N] => destruct (a =? b)%N; cbn [andb]
           | |- context [is_digit U ?c] => destruct (is_digit U c); cbn [andb]
           end; reflexivity.
Qed.

Lemma drop_years_skip (k : nat) (s : str) :
  drop_years U k s = drop_years U 0 (skipn k s).
Proof.
  revert s. induction k as [|k IH]; intros s; [reflexivity|].
  destruct s as [|c s']; [reflexivity|].
  cbn [drop_years skipn]. apply IH.
Qed.

Lemma drop_years_step (c : char) (s' : str) :
  drop_years U 0 (c :: s')
  = if year_here U (c :: s') then drop_years U 0 (skipn 4 (c :: s'))
    else c :: drop_years U 0 s'.
Proof.
  cbn [drop_years].
  destruct (year_here U (c :: s')) eqn:Hy; [|reflexivity].
  destruct s' as [|c2 [|c3 [|c4 rest]]]; try discriminate Hy.
  reflexivity.
Qed.

Lemma year_here_length (s : str) :
  year_here U s = true -> (length (skipn 4 s) < length s)%nat.
Proof.
  destruct s as [|c1 [|c2 [|c3 [|c4 rest]]]]; try discriminate.
  intros _. rewrite length_skipn. simpl. lia.
Qed.

Lemma sub_year_from (n : nat) :
  forall (prev : option char) (s : str),
    (length s <= n)%nat ->
    sub_from U false n YEAR_RE [] prev s = drop_years U 0 s.
Proof.
  induction n as [|n IH]; intros prev s Hlen.
  - destruct s; [reflexivity | simpl in Hlen; lia].
  - destruct s as [|c s']; [reflexivity|].
    cbn [sub_from]. rewrite match_year, drop_years_step.
    destruct (year_here U (c :: s')) eqn:Hy.
    + pose proof (year_here_length _ Hy) as Hlt.
      apply Nat.ltb_lt in Hlt as Hb. rewrite Hb.
      rewrite IH by lia. reflexivity.
    + rewrite IH by (simpl in Hlen; lia). reflexivity.
Qed.

Lemma sub_year (s : str) : Re.sub U false YEAR_RE [] s = drop_years U 0 s.
Proof. unfold Re.sub. now apply sub_year_from. Qed.

(** *** Ordinal markers *)

Hypothesis cha_not_digit : is_digit U 52264%N = false.
Hypothesis hoe_not_digit : is_digit U 54924%N = false.

Lemma marker_k_digit (m : char) :
  is_digit U m = false ->
  forall p x s', is_digit U x = true -> marker_k m p (x :: s') = None.
Proof.
  intros Hm p x s' Hx. unfold marker_k.
  destruct (x =? m)%N eqn:E; [|reflexivity].
  apply N.eqb_eq in E. congruence.
Qed.

Lemma match_digits_marker (m : char) (prev : option char) (s : str) :
  is_digit U m = false ->
  rmatch U false (Seq (Plus Digit) (Seq (Chr m) Eps)) prev s
    (fun p rest => Some (p, rest))
  = if (1 <=? digit_run U s)%nat
    then marker_k m prev (skipn (digit_run U s) s)
    else None.
Proof.
  intros Hm. cbn [rmatch].
  match goal with
  | |- plus_loop _ ?k ?n ?p ?t = ?rhs =>
      change (plus_loop (class_body (is_digit U)) k n p t = rhs)
  end.
  rewrite plus_loop_class by lia.
  rewrite (class_plus_greedy (is_digit U)) with (prev := prev).
  - unfold digit_run. destruct (1 <=? run (is_digit U) s)%nat; [|reflexivity].
    unfold marker_k, chr_match.
    destruct (skipn (run (is_digit U) s) s); reflexivity.
  - intros p x s' Hx. cbn [chr_match].
    pose proof (marker_k_digit m Hm p x s' Hx) as H. unfold marker_k in H.
    unfold chr_match. exact H.
Qed.

Lemma match_ordinal (prev : option char) (s : str) :
  match_here U false ORDINAL_RE prev s
  = if ordinal_here U s
    then Some (hd_error (skipn (digit_run U s) s),
               skipn (S (digit_run U s)) s)
    else None.
Proof.
  rewrite ORDINAL_RE_eq. unfold match_here. cbn [rmatch].
  pose proof (match_digits_marker 52264%N prev s cha_not_digit) as H1.
  pose proof (match_digits_marker 54924%N prev s hoe_not_digit) as H2.
  cbn [rmatch] in H1, H2. rewrite H1, H2. clear H1 H2.
  unfold ordinal_here, marker_k.
  destruct (1 <=? digit_run U s)%nat; [|reflexivity]. cbn [andb].
  rewrite <- Nat.add_1_r, Nat.add_comm, <- skipn_skipn.
  destruct (skipn (digit_run U s) s) as [|x rest]; [reflexivity|].
  cbn [skipn hd_error].
  destruct (x =? 52264)%N; [reflexivity|]. cbn [orb].
  destruct (x =? 54924)%N; reflexivity.
Qed.

Lemma drop_ordinals_skip (k : nat) (s : str) :
  drop_ordinals U k s = drop_ordinals U 0 (skipn k s).
Proof.
  revert s. induction k as [|k IH]; intros s; [reflexivity|].
  destruct s as [|c s']; [reflexivity|].
  cbn [drop_ordinals skipn]. apply IH.
Qed.

Lemma sub_ordinal_from (n : nat) :
  forall (prev : option char) (s : str),
    (length s <= n)%nat ->
    sub_from U false n ORDINAL_RE [] prev s = drop_ordinals U 0 s.
Proof.
  induction n as [|n IH]; intros prev s Hlen.
  - destruct s; [reflexivity | simpl in Hlen; lia].
  - destruct s as [|c s']; [reflexivity|].
    cbn [sub_from]. rewrite match_ordinal. cbn [drop_ordinals].
    destruct (ordinal_here U (c :: s')) eqn:Ho.
    + replace (length (skipn (S (digit_run U (c :: s'))) (c :: s'))
               <? length (c :: s'))%nat with true
        by (symmetry; apply Nat.ltb_lt; rewrite length_skipn; simpl; lia).
      rewrite IH by (rewrite length_skipn; simpl in *; lia).
      rewrite (drop_ordinals_skip (digit_run U (c :: s')) s'). reflexivity.
    + rewrite IH by (simpl in Hlen; lia). reflexivity.
Qed.

Lemma sub_ordinal (s : str) :
  Re.sub U false ORDINAL_RE [] s = drop_ordinals U 0 s.
Proof. unfold Re.sub. now apply sub_ordinal_from. Qed.

(** *** Whitespace *)

Lemma match_spaces (prev : option char) (s : str) :
  match_here U false SPACES_RE prev s
  = if (1 <=? run (is_space U) s)%nat
    then Some (last_of_run (is_space U) prev s, skipn (run (is_space U) s) s)
    else None.
Proof.
  unfold match_here, SPACES_RE. cbn [rmatch].
  match goal with
  | |- plus_loop _ ?k ?n ?p ?t = ?rhs =>
      change (plus_loop (class_body (is_space U)) k n p t = rhs)
  end.
  rewrite plus_loop_class by lia.
  apply (class_plus_total (is_space U) (fun p r => (p, r))).
Qed.

Lemma collapse_in_run (s : str) :
  collapse_spaces U true s
  = collapse_spaces U false (skipn (run (is_space U) s) s).
Proof.
  induction s as [|c s' IH]; [reflexivity|].
  cbn [collapse_spaces run]. destruct (is_space U c) eqn:Hc.
  - cbn [skipn]. exact IH.
  - cbn [skipn collapse_spaces]. now rewrite Hc.
Qed.

Lemma sub_spaces_from (n : nat) :
  forall (prev : option char) (s : str),
    (length s <= n)%nat ->
    sub_from U false n SPACES_RE [32%N] prev s = collapse_spaces U false s.
Proof.
  induction n as [|n IH]; intros prev s Hlen.
  - destruct s; [reflexivity | simpl in Hlen; lia].
  - destruct s as [|c s']; [reflexivity|].
    cbn [sub_from]. rewrite match_spaces. cbn [run collapse_spaces].
    destruct (is_space U c) eqn:Hc.
    + cbn [Nat.leb skipn].
      replace (length (skipn (run (is_space U) s') s') <? length (c :: s'))%nat
        with true
        by (symmetry; apply Nat.ltb_lt; rewrite length_skipn; simpl; lia).
      rewrite IH by (rewrite length_skipn; simpl in *; lia).
      rewrite collapse_in_run. reflexivity.
    + cbn [Nat.leb]. rewrite IH by (simpl in Hlen; lia). reflexivity.
Qed.

Lemma sub_spaces (s : str) :
  Re.sub U false SPACES_RE (u " ") s = collapse_spaces U false s.
Proof. rewrite space_literal. unfold Re.sub. now apply sub_spaces_from. Qed.

(** The three substitutions of [_normalize_title] do what the
    specification says. *)
Lemma normalize_title_refines (title : str) :
  _normalize_title U title = normalize_spec U title.
Proof.
  unfold _normalize_title, normalize_spec.
  now rewrite sub_year, sub_ordinal, sub_spaces.
Qed.
End Normalisation.

Import stdpp.base stdpp.gmap.

Section Repeated.
Variable U : unicode_db.

Lemma count_titles_snoc (ns : list RawNotice) (n : RawNotice) :
  count_titles U (ns ++ [n])
  = <[ title_key U n :=
         (default 0%nat (count_titles U ns !! title_key U n) + 1)%nat ]>
      (count_titles U ns).
Proof. unfold count_titles. now rewrite fold_left_app. Qed.

Lemma group_size_snoc (k : rkey) (ns : list RawNotice) (n : RawNotice) :
  group_size U k (ns ++ [n])
  = (group_size U k ns + (if decide (title_key U n = k) then 1 else 0))%nat.
Proof.
  unfold group_size. rewrite List.filter_app, length_app. cbn [List.filter].
  destruct (decide (title_key U n = k)) as [E|N].
  - rewrite bool_decide_eq_true_2 by exact E. reflexivity.
  - rewrite bool_decide_eq_false_2 by exact N. reflexivity.
Qed.

(** The dictionary [counts] binds exactly the keys of the batch, each to
    the size of its group. *)
Lemma count_titles_lookup (k : rkey) (ns : list RawNotice) :
  count_titles U ns !! k
  = if decide (group_size U k ns = 0%nat) then None
    else Some (group_size U k ns).
Proof.
  induction ns as [|n ns IH] using rev_ind; [reflexivity|].
  rewrite count_titles_snoc, group_size_snoc.
  destruct (decide (title_key U n = k)) as [E|N].
  - subst k. rewrite lookup_insert_eq, IH.
    destruct (decide (group_size U (title_key U n) ns = 0%nat)) as [Z|NZ].
    + rewrite Z. reflexivity.
    + cbn [default].
      destruct (decide ((group_size U (title_key U n) ns + 1)%nat = 0%nat));
        [lia | reflexivity].
  - rewrite lookup_insert_ne by exact N. rewrite IH, Nat.add_0_r. reflexivity.
Qed.

Lemma find_repeated_iff (k : rkey) (ns : list RawNotice) :
  k ∈ _find_repeated_titles U ns <-> (2 <= group_size U k ns)%nat.
Proof.
  unfold _find_repeated_titles.
  rewrite elem_of_dom. unfold is_Some.
  split.
  - intros [c Hc]. apply map_lookup_filter_Some in Hc as [Hc Hge].
    rewrite count_titles_lookup in Hc. cbn in Hge.
    destruct (decide (group_size U k ns = 0%nat)); [discriminate|].
    injection Hc as <-. exact Hge.
  - intros Hge. exists (group_size U k ns).
    apply map_lookup_filter_Some. split; [|exact Hge].
    rewrite count_titles_lookup.
    destruct (decide (group_size U k ns = 0%nat)); [lia | reflexivity].
Qed.
End Repeated.

(** C8. Under a Unicode database where the markers "차" and "회" are not
    digits, [_normalize_title] removes every "20" followed by two digits,
    then every digit run followed by one of the markers, replaces each run
    of whitespace by one space, strips and lower-cases; and the key
    (agency name, normalised title) of a notice is among the repeated keys
    of a batch exactly when two or more notices of the batch have it. *)
Theorem recurrence_detector_spec (U : unicode_db)
    (cha_not_digit : is_digit U 52264%N = false)
    (hoe_not_digit : is_digit U 54924%N = false) :
  (forall title : str, _normalize_title U title = normalize_spec U title)
  /\ (forall (notices : list RawNotice) (n : RawNotice),
        (Notice.agency_name n, _normalize_title U (Notice.notice_title n))
          ∈ _find_repeated_titles U notices
        <-> (2 <= group_size U
                    (Notice.agency_name n,
                     _normalize_title U (Notice.notice_title n))
                    notices)%nat).
Proof.
  split.
  - intros title. now apply normalize_title_refines.
  - intros notices n. apply find_repeated_iff.
Qed.

Lemma recurrence_detector_spec_witness :
  (forall title : str,
      _normalize_title Classifier.basic_unicode title
      = normalize_spec Classifier.basic_unicode title)
  /\ (forall (notices : list RawNotice) (n : RawNotice),
        (Notice.agency_name n,
         _normalize_title Classifier.basic_unicode (Notice.notice_title n))
          ∈ _find_repeated_titles Classifier.basic_unicode notices
        <-> (2 <= group_size Classifier.basic_unicode
                    (Notice.agency_name n,
                     _normalize_title Classifier.basic_unicode
                                      (Notice.notice_title n))
                    notices)%nat).
Proof.
  apply (recurrence_detector_spec Classifier.basic_unicode); reflexivity.
Defined.

Example normalize_example :
  _normalize_title Classifier.basic_unicode
    (u "2024 Year  12차 ABC 3회  x20255 ") = u "year abc x5".
Proof. vm_compute. reflexivity. Qed.

End RecurrenceFacts.

(** ** Rounding and clamping *)

Module NumFacts.
Import Num.
Local Open Scope Q_scope.

Lemma round_cases (x : Q) :
  (x - inject_Z (Qfloor x) < 1 # 2 /\ round_half_even x = Qfloor x)
  \/ (1 # 2 < x - inject_Z (Qfloor x) /\ round_half_even x = (Qfloor x + 1)%Z)
  \/ (x - inject_Z (Qfloor x) == 1 # 2
      /\ round_half_even x
         = if Z.even (Qfloor x) then Qfloor x else (Qfloor x + 1)%Z).
Proof.
  unfold round_half_even.
  destruct (Qcompare_spec (x - inject_Z (Qfloor x)) (1 # 2)) as [E|L|G].
  - right. right. split; [exact E | reflexivity].
  - left. split; [exact L | reflexivity].
  - right. left. split; [exact G | reflexivity].
Qed.

Lemma floor_bounds (x : Q) :
  inject_Z (Qfloor x) <= x /\ x < inject_Z (Qfloor x) + 1.
Proof.
  split; [apply Qfloor_le|].
  pose proof (Qlt_floor x) as H. rewrite inject_Z_plus in H. exact H.
Qed.

(** The rounded value is within one half of the argument. *)
Lemma round_near (x : Q) :
  inject_Z (round_half_even x) - (1 # 2) <= x
  /\ x <= inject_Z (round_half_even x) + (1 # 2).
Proof.
  destruct (floor_bounds x) as [Hlo Hhi].
  destruct (round_cases x) as [[H ->] | [[H ->] | [H ->]]].
  - lra.
  - rewrite inject_Z_plus. change (inject_Z 1) with 1. lra.
  - destruct (Z.even (Qfloor x)).
    + lra.
    + rewrite inject_Z_plus. change (inject_Z 1) with 1. lra.
Qed.

Lemma round_comp (x y : Q) : x == y -> round_half_even x = round_half_even y.
Proof.
  intros E. unfold round_half_even.
  rewrite (Qfloor_comp x y E).
  assert (Hc : Qcompare (x - inject_Z (Qfloor y)) (1 # 2)
               = Qcompare (y - inject_Z (Qfloor y)) (1 # 2)).
  { apply Qcompare_comp; [|reflexivity]. now rewrite E. }
  now rewrite Hc.
Qed.

Lemma round_Z (z : Z) : round_half_even (inject_Z z) = z.
Proof.
  destruct (round_cases (inject_Z z)) as [[H E] | [[H E] | [H E]]];
    rewrite Qfloor_Z in *.
  - exact E.
  - lra.
  - lra.
Qed.

Lemma round_mono (x y : Q) :
  x <= y -> (round_half_even x <= round_half_even y)%Z.
Proof.
  intros Hxy.
  pose proof (Qfloor_resp_le x y Hxy) as Hf.
  destruct (Z.eq_dec (Qfloor x) (Qfloor y)) as [E|N].
  - destruct (round_cases x) as [[Hx ->] | [[Hx ->] | [Hx ->]]];
      destruct (round_cases y) as [[Hy ->] | [[Hy ->] | [Hy ->]]];
      rewrite ?E in *; try lia; try lra;
      destruct (Z.even (Qfloor y)); lia.
  - assert (Hx : (round_half_even x <= Qfloor x + 1)%Z).
    { destruct (round_cases x) as [[_ ->] | [[_ ->] | [_ ->]]]; try lia.
      destruct (Z.even (Qfloor x)); lia. }
    assert (Hy : (Qfloor y <= round_half_even y)%Z).
    { destruct (round_cases y) as [[_ ->] | [[_ ->] | [_ ->]]]; try lia.
      destruct (Z.even (Qfloor y)); lia. }
    lia.
Qed.

(** [max(0.0, min(100.0, x))] by cases. *)
Lemma clamp_cases (x : Q) :
  (x < 0 /\ py_max 0.0 (py_min 100.0 x) = 0.0)
  \/ (100 < x /\ py_max 0.0 (py_min 100.0 x) = 100.0)
  \/ (0 <= x /\ x <= 100 /\ py_max 0.0 (py_min 100.0 x) == x).
Proof.
  unfold py_max, py_min.
  destruct (Qle_bool 100.0 x) eqn:H100.
  - apply Qle_bool_iff in H100.
    destruct (Qle_bool 100.0 0.0) eqn:Hk; [discriminate Hk|].
    destruct (Qlt_le_dec 100 x) as [L|G].
    + right. left. split; [exact L | reflexivity].
    + right. right. split; [lra|]. split; [exact G|]. lra.
  - assert (Hlt : x < 100).
    { destruct (Qlt_le_dec x 100) as [L|G]; [exact L|].
      assert (Ht : Qle_bool 100.0 x = true) by (apply Qle_bool_iff; lra).
      congruence. }
    destruct (Qle_bool x 0.0) eqn:H0.
    + apply Qle_bool_iff in H0.
      destruct (Qlt_le_dec x 0) as [L|G].
      * left. split; [exact L | reflexivity].
      * right. right. split; [exact G|]. split; lra.
    + right. right.
      assert (0 < x).
      { destruct (Qlt_le_dec 0 x) as [L|G]; [exact L|].
        assert (Ht : Qle_bool x 0.0 = true) by (apply Qle_bool_iff; lra).
        congruence. }
      split; [lra|]. split; [lra | reflexivity].
Qed.

(** Inside the open interval the clamp answers its very argument. *)
Lemma clamp_id (x : Q) :
  0 < x -> x < 100 -> py_max 0.0 (py_min 100.0 x) = x.
Proof.
  intros H0 H100. unfold py_max, py_min.
  destruct (Qle_bool 100.0 x) eqn:Ha.
  { apply Qle_bool_iff in Ha. lra. }
  destruct (Qle_bool x 0.0) eqn:Hb.
  { apply Qle_bool_iff in Hb. lra. }
  reflexivity.
Qed.

(** Clamping before rounding is clamping after rounding. *)
Lemma round_clamp (x : Q) :
  round_half_even (py_max 0.0 (py_min 100.0 x))
  = clampZ 0 100 (round_half_even x).
Proof.
  unfold clampZ.
  destruct (clamp_cases x) as [[H ->] | [[H ->] | [H0 [H100 E]]]].
  - assert (Hr : (round_half_even x <= 0)%Z).
    { rewrite <- (round_Z 0). apply round_mono. change (inject_Z 0) with 0. lra. }
    rewrite (round_comp (x:=0.0) (y:=inject_Z 0)) by reflexivity.
    rewrite round_Z. lia.
  - assert (Hr : (100 <= round_half_even x)%Z).
    { rewrite <- (round_Z 100). apply round_mono.
      change (inject_Z 100) with 100. lra. }
    rewrite (round_comp (x:=100.0) (y:=inject_Z 100)) by reflexivity.
    rewrite round_Z. lia.
  - rewrite (round_comp E).
    assert (Hlo : (0 <= round_half_even x)%Z).
    { rewrite <- (round_Z 0) at 1. apply round_mono.
      change (inject_Z 0) with 0. lra. }
    assert (Hhi : (round_half_even x <= 100)%Z).
    { rewrite <- (round_Z 100). apply round_mono.
      change (inject_Z 100) with 100. lra. }
    lia.
Qed.

Lemma clampZ_range (x : Z) : (0 <= clampZ 0 100 x <= 100)%Z.
Proof. unfold clampZ. lia. Qed.

End NumFacts.

(** ** The urgency scorer *)

Module ScorerFacts.
Import Num NumFacts Datetime Scorer.
Local Open Scope Q_scope.

(** The hyperbolic decay [1/(1 + n/7)] of the deadline component. *)
Lemma decay_denominator (n : Z) :
  (0 <= n)%Z -> 1 <= 1.0 + inject_Z n / 7.0.
Proof.
  intros Hn. rewrite Zle_Qle in Hn. change (inject_Z 0) with 0 in Hn.
  unfold Qdiv. change (/ 7.0) with (10 # 70). lra.
Qed.

Lemma decay_bounds (n : Z) :
  (0 <= n)%Z ->
  0 < 1.0 / (1.0 + inject_Z n / 7.0) /\ 1.0 / (1.0 + inject_Z n / 7.0) <= 1.
Proof.
  intros Hn. pose proof (decay_denominator Hn) as Ht.
  split.
  - apply Qlt_shift_div_l; lra.
  - apply Qle_shift_div_r; lra.
Qed.

Lemma decay_antitone (n m : Z) :
  (0 <= n <= m)%Z ->
  1.0 / (1.0 + inject_Z m / 7.0) <= 1.0 / (1.0 + inject_Z n / 7.0).
Proof.
  intros [Hn Hnm].
  assert (Hm : (0 <= m)%Z) by lia.
  pose proof (decay_denominator Hn) as Htn.
  pose proof (decay_denominator Hm) as Htm.
  assert (Hle : 1.0 + inject_Z n / 7.0 <= 1.0 + inject_Z m / 7.0).
  { rewrite Zle_Qle in Hnm. unfold Qdiv. change (/ 7.0) with (10 # 70). lra. }
  set (tn := 1.0 + inject_Z n / 7.0) in *.
  set (tm := 1.0 + inject_Z m / 7.0) in *.
  apply Qle_shift_div_r; [lra|].
  assert (Hu : 0 < 1.0 / tn) by (apply Qlt_shift_div_l; lra).
  assert (Hone : 1.0 / tn * tn == 1.0).
  { unfold Qdiv. field. lra. }
  assert (Hmul : 0 <= 1.0 / tn * (tm - tn)).
  { apply Qmult_le_0_compat; lra. }
  lra.
Qed.

(** The weighted sums of two notices, one with the repeat flag and one
    without, when the components of the first are at least those of the
    second, up to one half for the budget. *)
Lemma gap_arith (D1 D2 B1 B2 : Q) :
  D2 <= D1 -> B2 - (1 # 2) <= B1 ->
  100.0 * (0.35 * D2 + 0.25 * B2 + 0.15 * 0.6 + 0.15 * 0.0 + 0.10 * 0.8)
  + (5 # 2)
  <= 100.0 * (0.35 * D1 + 0.25 * B1 + 0.15 * 0.6 + 0.15 * 1.0 + 0.10 * 0.8).
Proof. intros HD HB. lra. Qed.

Lemma repeat_score_true : repeat_score true = 1.0.
Proof. reflexivity. Qed.

Lemma repeat_score_false : repeat_score false = 0.0.
Proof. reflexivity. Qed.

Section WithLog.
Variable log10 : Q -> Q.

Lemma raw_score_eq (now : datetime) (d : option datetime) (b : option Q)
    (r : bool) (agency_weight fit_weight : Q) :
  raw_score log10 now d b r agency_weight fit_weight
  = 100.0 * (0.35 * deadline_score now d + 0.25 * budget_score log10 b
             + 0.15 * agency_weight + 0.15 * repeat_score r
             + 0.10 * fit_weight).
Proof. reflexivity. Qed.

Lemma deadline_score_bounds (now : datetime) (d : option datetime) :
  0 < deadline_score now d /\ deadline_score now d <= 1.
Proof.
  destruct d as [d|]; cbn [deadline_score].
  - apply decay_bounds. lia.
  - lra.
Qed.

Lemma budget_score_le_1 (b : option Q) : budget_score log10 b <= 1.
Proof.
  unfold budget_score. destruct b as [b|]; [|lra].
  destruct (truthy b && Qlt_bool 0 b); [|lra].
  unfold py_min. destruct (Qle_bool 1.0 (log10 (b + 1.0) / 9.0)) eqn:E; [lra|].
  destruct (Qlt_le_dec (log10 (b + 1.0) / 9.0) 1) as [L|G]; [lra|].
  assert (Ht : Qle_bool 1.0 (log10 (b + 1.0) / 9.0) = true)
    by (apply Qle_bool_iff; lra).
  congruence.
Qed.

Lemma positive_budget (b : Q) :
  truthy b && Qlt_bool 0 b = true <-> 0 < b.
Proof.
  unfold truthy, Qlt_bool. split.
  - intros H. apply andb_prop in H as [_ H]. apply negb_true_iff in H.
    destruct (Qlt_le_dec 0 b) as [L|G]; [exact L|].
    assert (Ht : Qle_bool b 0 = true) by (apply Qle_bool_iff; lra).
    congruence.
  - intros H. apply andb_true_intro. split; apply negb_true_iff.
    + destruct (Qeq_bool b 0) eqn:E; [|reflexivity].
      apply Qeq_bool_eq in E. lra.
    + destruct (Qle_bool b 0) eqn:E; [|reflexivity].
      apply Qle_bool_iff in E. lra.
Qed.

Lemma positive_budget_false (b : Q) :
  truthy b && Qlt_bool 0 b = false <-> b <= 0.
Proof.
  split.
  - intros H. destruct (Qlt_le_dec 0 b) as [L|G]; [|exact G].
    apply positive_budget in L. congruence.
  - intros H. destruct (truthy b && Qlt_bool 0 b) eqn:E; [|reflexivity].
    apply positive_budget in E. lra.
Qed.

Lemma py_min_1_spec (x : Q) :
  (1 <= x /\ py_min 1.0 x == 1) \/ (x < 1 /\ py_min 1.0 x == x).
Proof.
  unfold py_min. destruct (Qle_bool 1.0 x) eqn:E.
  - apply Qle_bool_iff in E. left. split; lra.
  - right. split; [|reflexivity].
    destruct (Qlt_le_dec x 1) as [L|G]; [exact L|].
    assert (Ht : Qle_bool 1.0 x = true) by (apply Qle_bool_iff; lra).
    congruence.
Qed.

(** *** The code against the formula of the specification *)

Lemma deadline_score_spec (now : datetime) (d : option datetime) :
  deadline_score now d == D_spec now d.
Proof.
  destruct d as [d|]; cbn [deadline_score D_spec]; [|reflexivity].
  rewrite (Z.max_comm 0).
  assert (E1 : 1.0 == 1) by reflexivity.
  assert (E7 : 7.0 == 7) by reflexivity.
  rewrite E1, E7. reflexivity.
Qed.

Lemma budget_score_spec (b : option Q) :
  budget_score log10 b == B_spec log10 b.
Proof.
  destruct b as [b|]; cbn [budget_score B_spec]; [|reflexivity].
  destruct (truthy b && Qlt_bool 0 b) eqn:E.
  - apply positive_budget in E as Hpos.
    apply andb_prop in E as [_ E]. rewrite E.
    unfold py_min.
    assert (E1 : 1.0 == 1) by reflexivity.
    assert (E9 : log10 (b + 1.0) / 9.0 == log10 (b + 1.0) / 9).
    { assert (E9' : 9.0 == 9) by reflexivity. now rewrite E9'. }
    rewrite (Qleb_comp _ _ E1 _ _ E9).
    destruct (Qle_bool 1 (log10 (b + 1.0) / 9)); assumption.
  - apply positive_budget_false in E.
    replace (Qlt_bool 0 b) with false; [reflexivity|].
    symmetry. unfold Qlt_bool. apply negb_false_iff, Qle_bool_iff. exact E.
Qed.

Lemma raw_score_spec (now : datetime) (d : option datetime) (b : option Q)
    (r : bool) :
  raw_score log10 now d b r 0.6 0.8
  == 100 * ((35 # 100) * D_spec now d + (25 # 100) * B_spec log10 b
            + (15 # 100) * (6 # 10) + (15 # 100) * R_spec r
            + (10 # 100) * (8 # 10)).
Proof.
  unfold raw_score.
  rewrite deadline_score_spec, budget_score_spec.
  destruct r; cbn [repeat_score R_spec]; lra.
Qed.

(** *** Bounds with the default weights *)

Hypothesis log10_nonneg : forall x : Q, 1 <= x -> 0 <= log10 x.

Lemma budget_score_nonneg (b : option Q) : 0 <= budget_score log10 b.
Proof.
  unfold budget_score. destruct b as [b|]; [|lra].
  destruct (truthy b && Qlt_bool 0 b) eqn:E; [|lra].
  apply positive_budget in E.
  assert (HL : 0 <= log10 (b + 1.0) / 9.0).
  { assert (H : 0 <= log10 (b + 1.0)) by (apply log10_nonneg; lra).
    unfold Qdiv. change (/ 9.0) with (10 # 90). lra. }
  destruct (py_min_1_spec (log10 (b + 1.0) / 9.0)) as [[_ ->] | [_ ->]]; lra.
Qed.

Lemma raw_score_default_bounds (now : datetime) (d : option datetime)
    (b : option Q) (r : bool) :
  17 < raw_score log10 now d b r 0.6 0.8
  /\ raw_score log10 now d b r 0.6 0.8 <= 92.
Proof.
  unfold raw_score.
  destruct (deadline_score_bounds now d) as [Hd0 Hd1].
  pose proof (budget_score_nonneg b) as Hb0.
  pose proof (budget_score_le_1 b) as Hb1.
  destruct r; cbn [repeat_score]; lra.
Qed.

Lemma default_score_unclamped (now : datetime) (d : option datetime)
    (b : option Q) (r : bool) :
  urgency_score_default log10 now d b r
  = round_half_even (raw_score log10 now d b r 0.6 0.8).
Proof.
  unfold urgency_score_default, urgency_score.
  destruct (raw_score_default_bounds now d b r) as [Hlo Hhi].
  rewrite clamp_id by lra. reflexivity.
Qed.

(** *** Comparing two notices *)

Hypothesis log10_mono : forall x y : Q, x <= y -> log10 x <= log10 y.

Lemma budget_score_gap (b1 b2 : Q) :
  b2 < b1 ->
  budget_score log10 (Some b2) - (1 # 2) <= budget_score log10 (Some b1).
Proof.
  intros Hlt.
  pose proof (budget_score_nonneg (Some b1)) as H1.
  cbn [budget_score] in *.
  destruct (truthy b2 && Qlt_bool 0 b2) eqn:E2; [|lra].
  apply positive_budget in E2.
  assert (E1 : truthy b1 && Qlt_bool 0 b1 = true)
    by (apply positive_budget; lra).
  rewrite E1.
  assert (HL : log10 (b2 + 1.0) / 9.0 <= log10 (b1 + 1.0) / 9.0).
  { assert (H : log10 (b2 + 1.0) <= log10 (b1 + 1.0))
      by (apply log10_mono; lra).
    unfold Qdiv. change (/ 9.0) with (10 # 90). lra. }
  destruct (py_min_1_spec (log10 (b1 + 1.0) / 9.0)) as [[? ->] | [? ->]];
    destruct (py_min_1_spec (log10 (b2 + 1.0) / 9.0)) as [[? ->] | [? ->]];
    lra.
Qed.

Lemma deadline_score_order (now d1 d2 : datetime) :
  (d1 < d2)%Z ->
  deadline_score now (Some d2) <= deadline_score now (Some d1).
Proof.
  intros Hlt. cbn [deadline_score]. apply decay_antitone.
  split; [lia|].
  apply Z.max_le_compat_r. unfold days_between.
  apply Z.div_le_mono; [reflexivity | lia].
Qed.

Unset Implicit Arguments.

Lemma raw_score_gap (now d1 d2 : datetime) (b1 b2 : Q) :
  (d1 < d2)%Z -> b2 < b1 ->
  raw_score log10 now (Some d2) (Some b2) false 0.6 0.8 + (5 # 2)
  <= raw_score log10 now (Some d1) (Some b1) true 0.6 0.8.
Proof.
  intros Hd Hb. rewrite !raw_score_eq, repeat_score_true, repeat_score_false.
  apply gap_arith.
  - exact (deadline_score_order now Hd).
  - exact (budget_score_gap Hb).
Qed.

Set Implicit Arguments.
End WithLog.

(** In exact arithmetic the scorer with the default weights is the formula
    of the specification, rounded and clamped. *)
Lemma urgency_score_formula (log10 : Q -> Q) (now : datetime)
    (deadline : option datetime) (budget : option Q) (repeat : bool) :
  urgency_score_default log10 now deadline budget repeat
  = urgency_spec log10 now deadline budget repeat.
Proof.
  unfold urgency_score_default, urgency_score, urgency_spec.
  rewrite round_clamp. f_equal.
  apply round_comp, raw_score_spec.
Qed.

(** C10. With the default weights and a logarithm that is not negative from
    1 on, the score lies between 17 and 92, the clamp to [0, 100] answers
    the weighted sum unchanged, and the score is never 100. *)
Theorem default_score_range (log10 : Q -> Q)
    (log10_nonneg : forall x : Q, 1 <= x -> 0 <= log10 x)
    (now : datetime) (deadline : option datetime) (budget : option Q)
    (repeat : bool) :
  (17 <= urgency_score_default log10 now deadline budget repeat <= 92)%Z
  /\ py_max 0.0 (py_min 100.0
                   (raw_score log10 now deadline budget repeat 0.6 0.8))
     = raw_score log10 now deadline budget repeat 0.6 0.8
  /\ urgency_score_default log10 now deadline budget repeat <> 100%Z.
Proof.
  destruct (raw_score_default_bounds log10 log10_nonneg now deadline budget
              repeat) as [Hlo Hhi].
  assert (Hrange :
    (17 <= urgency_score_default log10 now deadline budget repeat <= 92)%Z).
  { rewrite default_score_unclamped by exact log10_nonneg.
    split.
    - rewrite <- (round_Z 17) at 1. apply round_mono.
      change (inject_Z 17) with 17. lra.
    - rewrite <- (round_Z 92). apply round_mono.
      change (inject_Z 92) with 92. lra. }
  split; [exact Hrange|]. split; [|lia].
  apply clamp_id; lra.
Qed.

(** C4. The score lies in [0, 100] for all inputs and weights; and with the
    default weights, a monotone logarithm that is not negative from 1 on,
    and the same reading of the clock, a notice with a strictly nearer
    deadline, a strictly larger budget and the repeat flag scores strictly
    higher than a notice with the farther deadline, the smaller budget and
    no repeat flag. *)
Theorem urgency_score_order (log10 : Q -> Q)
    (log10_nonneg : forall x : Q, 1 <= x -> 0 <= log10 x)
    (log10_mono : forall x y : Q, x <= y -> log10 x <= log10 y) :
  (forall (now : datetime) (deadline : option datetime) (budget : option Q)
          (repeat : bool) (agency_weight fit_weight : Q),
      (0 <= urgency_score log10 now deadline budget repeat
                          agency_weight fit_weight <= 100)%Z)
  /\ (forall (now near far : datetime) (large small : Q),
        (near < far)%Z -> small < large ->
        (urgency_score_default log10 now (Some far) (Some small) false
         < urgency_score_default log10 now (Some near) (Some large) true)%Z).
Proof.
  split.
  - intros. unfold urgency_score. rewrite round_clamp. apply clampZ_range.
  - intros now near far large small Hd Hb.
    rewrite !default_score_unclamped by exact log10_nonneg.
    pose proof (raw_score_gap log10 log10_nonneg log10_mono now near far large
                  small Hd Hb) as Hgap.
    destruct (round_near (raw_score log10 now (Some far) (Some small) false
                                    0.6 0.8)) as [Hf _].
    destruct (round_near (raw_score log10 now (Some near) (Some large) true
                                    0.6 0.8)) as [_ Hn].
    rewrite Zlt_Qlt. lra.
Qed.

(** The coarse logarithm of the examples meets the two assumptions. *)
Lemma log10_floor_nonneg (x : Q) : 1 <= x -> 0 <= log10_floor x.
Proof.
  intros _. unfold log10_floor.
  change 0 with (inject_Z 0). rewrite <- Zle_Qle.
  apply Z.div_pos; [|lia].
  pose proof (Z.log2_nonneg (Qfloor x)). lia.
Qed.

Lemma log10_floor_mono (x y : Q) : x <= y -> log10_floor x <= log10_floor y.
Proof.
  intros H. unfold log10_floor. rewrite <- Zle_Qle.
  apply Z.div_le_mono; [lia|].
  apply Z.mul_le_mono_nonneg_r; [lia|].
  apply Z.log2_le_mono. now apply Qfloor_resp_le.
Qed.

Lemma default_score_range_witness :
  (17 <= urgency_score_default log10_floor 0%Z (Some (30 * US_PER_DAY)%Z)
           (Some 1000000%Q) false <= 92)%Z
  /\ py_max 0.0 (py_min 100.0
                   (raw_score log10_floor 0%Z (Some (30 * US_PER_DAY)%Z)
                              (Some 1000000%Q) false 0.6 0.8))
     = raw_score log10_floor 0%Z (Some (30 * US_PER_DAY)%Z) (Some 1000000%Q)
                 false 0.6 0.8
  /\ urgency_score_default log10_floor 0%Z (Some (30 * US_PER_DAY)%Z)
       (Some 1000000%Q) false <> 100%Z.
Proof.
  apply (default_score_range log10_floor log10_floor_nonneg).
Defined.

Lemma urgency_score_order_witness :
  (forall (now : datetime) (deadline : option datetime) (budget : option Q)
          (repeat : bool) (agency_weight fit_weight : Q),
      (0 <= urgency_score log10_floor now deadline budget repeat
                          agency_weight fit_weight <= 100)%Z)
  /\ (forall (now near far : datetime) (large small : Q),
        (near < far)%Z -> small < large ->
        (urgency_score_default log10_floor now (Some far) (Some small) false
         < urgency_score_default log10_floor now (Some near) (Some large)
             true)%Z).
Proof.
  apply (urgency_score_order log10_floor log10_floor_nonneg log10_floor_mono).
Defined.

(** The comparison of the test suite: one day and 500,000,000 with the
    repeat flag against thirty days and 1,000,000 without. *)
Example test_score_range :
  urgency_score_default log10_floor 0%Z (Some US_PER_DAY) (Some 500000000%Q) true
  = 85%Z
  /\ urgency_score_default log10_floor 0%Z (Some (30 * US_PER_DAY)%Z)
       (Some 1000000%Q) false = 38%Z.
Proof. vm_compute. split; reflexivity. Qed.

Example score_without_deadline_and_budget :
  urgency_score_default log10_floor 0%Z None None false = 47%Z.
Proof. vm_compute. reflexivity. Qed.

End ScorerFacts.

(** ** The urgency scorer in binary64 *)

Module Float64Facts.
Import Num NumFacts Datetime Float64.

Lemma digits2_pos_spec (p : positive) :
  (2 ^ (Z.pos (SpecFloat.digits2_pos p) - 1) <= Z.pos p
   < 2 ^ Z.pos (SpecFloat.digits2_pos p))%Z.
Proof.
  induction p as [p IH | p IH |]; cbn [SpecFloat.digits2_pos].
  - rewrite Pos2Z.inj_succ.
    replace (Z.succ (Z.pos (SpecFloat.digits2_pos p)) - 1)%Z
      with (Z.succ (Z.pos (SpecFloat.digits2_pos p) - 1)) by lia.
    rewrite !Z.pow_succ_r by lia. lia.
  - rewrite Pos2Z.inj_succ.
    replace (Z.succ (Z.pos (SpecFloat.digits2_pos p)) - 1)%Z
      with (Z.succ (Z.pos (SpecFloat.digits2_pos p) - 1)) by lia.
    rewrite !Z.pow_succ_r by lia. lia.
  - cbn. lia.
Qed.

(** The mantissa and the exponent of a finite float. *)
Lemma finite_bounds (x : float) (s : bool) (m : positive) (e : Z) :
  Prim2SF x = S754_finite s m e ->
  (Z.pos m < 2 ^ 53 /\ -1074 <= e <= 971
   /\ (-1074 < e -> 2 ^ 52 <= Z.pos m))%Z.
Proof.
  intros E. pose proof (FloatAxioms.Prim2SF_valid x) as V.
  rewrite E in V. cbn [SpecFloat.valid_binary] in V.
  unfold SpecFloat.bounded, SpecFloat.canonical_mantissa, SpecFloat.fexp,
    SpecFloat.emin, prec, emax in V.
  apply andb_prop in V as [C B].
  apply Z.eqb_eq in C. apply Z.leb_le in B.
  pose proof (digits2_pos_spec m) as [Hlo Hhi].
  assert (Hd : (Z.pos (SpecFloat.digits2_pos m) <= 53)%Z) by lia.
  split.
  - apply Z.lt_le_trans with (1 := Hhi).
    apply Z.pow_le_mono_r; lia.
  - split; [lia|]. intros He.
    assert (Z.pos (SpecFloat.digits2_pos m) = 53%Z) as Ed by lia.
    rewrite Ed in Hlo. exact Hlo.
Qed.

Lemma F2Q_sign (s : bool) (m : positive) (e : Z) :
  (0 < F2Q s m e)%Q <-> s = false.
Proof.
  unfold F2Q. destruct s, e as [|k|k]; unfold Qlt, inject_Z;
    cbn [Qnum Qden]; split; intros H; try reflexivity; try discriminate;
    try lia.
Qed.

Lemma SF_100 : Prim2SF 100 = S754_finite false 7036874417766400 (-46).
Proof. reflexivity. Qed.

Lemma SF_0 : Prim2SF 0 = S754_zero false.
Proof. reflexivity. Qed.

(** A finite float is below 100.0 when the number it stands for is. *)
Lemma ltb_100 (x : float) (s : bool) (m : positive) (e : Z) :
  Prim2SF x = S754_finite s m e ->
  (x <? 100)%float = true <-> (F2Q s m e < 100)%Q.
Proof.
  intros E. destruct (finite_bounds _ E) as (Hm & He & Hn).
  rewrite FloatAxioms.ltb_spec, E, SF_100.
  unfold SFltb, SFcompare.
  destruct s.
  - split; [intros _ | reflexivity].
    assert (H : ~ (0 < F2Q true m e)%Q)
      by (rewrite F2Q_sign; discriminate).
    apply Qnot_lt_le in H. apply Qle_lt_trans with (1 := H). reflexivity.
  - destruct (Z.compare_spec e (-46)) as [Ee | Ee | Ee].
    + subst e. rewrite Pos.compare_cont_spec. cbn [Pos.switch_Eq].
      rewrite Pos2Z.inj_compare.
      unfold F2Q, Qlt. cbn [Qnum Qden].
      change (Z.pos (2 ^ 46)) with 70368744177664%Z.
      destruct (Z.compare_spec (Z.pos m) (Z.pos 7036874417766400))
        as [Em | Em | Em].
      * split; [discriminate|]. intros H. lia.
      * split; [intros _ | reflexivity]. lia.
      * split; [discriminate|]. intros H. lia.
    + split; [intros _ | reflexivity].
      destruct e as [|k|k]; try lia.
      unfold F2Q, Qlt. cbn [Qnum Qden]. rewrite Pos2Z.inj_pow.
      assert (2 ^ 47 <= 2 ^ Z.pos k)%Z by (apply Z.pow_le_mono_r; lia).
      lia.
    + split; [discriminate|]. intros H. exfalso.
      specialize (Hn ltac:(lia)).
      destruct e as [|k|k].
      * unfold F2Q, Qlt in H. cbn [Qnum Qden inject_Z] in H. lia.
      * unfold F2Q, Qlt in H. cbn [Qnum Qden inject_Z] in H.
        pose proof (Z.pow_pos_nonneg 2 (Z.pos k) ltac:(lia) ltac:(lia)).
        nia.
      * unfold F2Q, Qlt in H. cbn [Qnum Qden] in H.
        rewrite Pos2Z.inj_pow in H.
        assert (2 ^ Z.pos k <= 2 ^ 45)%Z by (apply Z.pow_le_mono_r; lia).
        lia.
Qed.

(** A finite float is above 0.0 when it is positive. *)
Lemma ltb_0 (x : float) (s : bool) (m : positive) (e : Z) :
  Prim2SF x = S754_finite s m e -> (0 <? x)%float = negb s.
Proof.
  intros E. rewrite FloatAxioms.ltb_spec, E, SF_0.
  destruct s; reflexivity.
Qed.

(** A float above zero is true. *)
Lemma positive_truthy (b : float) :
  truthy64 b && (0 <? b)%float = (0 <? b)%float.
Proof.
  unfold truthy64. rewrite FloatAxioms.ltb_spec, FloatAxioms.eqb_spec, SF_0.
  destruct (Prim2SF b) as [s | s | | s m e]; try destruct s; reflexivity.
Qed.

Lemma round_100 : round64 100 = Some 100%Z.
Proof. vm_compute. reflexivity. Qed.

Lemma round_0 : round64 0 = Some 0%Z.
Proof. vm_compute. reflexivity. Qed.

(** The clamp and the rounding of [urgency_score], on any float. *)
Lemma round_clamp64 (x : float) :
  round64 (max64 0 (min64 100 x))
  = Some match exact x with
         | Some q => clampZ 0 100 (round_half_even q)
         | None => if (x <? 0)%float then 0%Z else 100%Z
         end.
Proof.
  unfold max64, min64, exact.
  destruct (Prim2SF x) as [s | s | | s m e] eqn:E.
  - (* a zero *)
    assert (H1 : (x <? 100)%float = true)
      by (rewrite FloatAxioms.ltb_spec, E, SF_100; reflexivity).
    assert (H0 : (0 <? x)%float = false)
      by (rewrite FloatAxioms.ltb_spec, E, SF_0; reflexivity).
    rewrite H1, H0. exact round_0.
  - (* an infinity *)
    assert (H1 : (x <? 100)%float = s)
      by (rewrite FloatAxioms.ltb_spec, E, SF_100; destruct s; reflexivity).
    assert (H0 : (x <? 0)%float = s)
      by (rewrite FloatAxioms.ltb_spec, E, SF_0; destruct s; reflexivity).
    rewrite H1, H0. destruct s.
    + assert (H : (0 <? x)%float = false)
        by (rewrite FloatAxioms.ltb_spec, E, SF_0; reflexivity).
      rewrite H. exact round_0.
    + change (0 <? 100)%float with true. cbv iota. exact round_100.
  - (* NaN *)
    assert (H1 : (x <? 100)%float = false)
      by (rewrite FloatAxioms.ltb_spec, E; reflexivity).
    assert (H0 : (x <? 0)%float = false)
      by (rewrite FloatAxioms.ltb_spec, E; reflexivity).
    rewrite H1, H0. change (0 <? 100)%float with true. cbv iota.
    exact round_100.
  - (* a finite float *)
    pose proof (ltb_100 _ E) as H100. pose proof (ltb_0 _ E) as H0.
    pose proof (F2Q_sign s m e) as Hs.
    destruct (x <? 100)%float eqn:L.
    + pose proof (proj1 H100 eq_refl) as Hlt.
      rewrite H0. destruct s; cbn [negb].
      * rewrite round_0. f_equal.
        assert (Hq : (F2Q true m e <= 0)%Q).
        { apply Qnot_lt_le. rewrite Hs. discriminate. }
        pose proof (round_mono Hq) as Hr.
        change 0%Q with (inject_Z 0) in Hr. rewrite round_Z in Hr.
        unfold clampZ. lia.
      * unfold round64, exact. rewrite E. f_equal.
        assert (Hq : (0 < F2Q false m e)%Q) by now apply Hs.
        pose proof (@round_mono 0 (F2Q false m e) ltac:(lra)) as Hr0.
        pose proof (@round_mono (F2Q false m e) 100 ltac:(lra)) as Hr1.
        change 0%Q with (inject_Z 0) in Hr0. rewrite round_Z in Hr0.
        change 100%Q with (inject_Z 100) in Hr1. rewrite round_Z in Hr1.
        unfold clampZ. lia.
    + change (0 <? 100)%float with true. cbv iota. rewrite round_100.
      f_equal.
      assert (Hq : (100 <= F2Q s m e)%Q).
      { apply Qnot_lt_le. intros H. apply H100 in H. discriminate H. }
      pose proof (round_mono Hq) as Hr.
      change 100%Q with (inject_Z 100) in Hr. rewrite round_Z in Hr.
      unfold clampZ. lia.
Qed.

End Float64Facts.

Module Scorer64Facts.
Import Num NumFacts Datetime Float64 Float64Facts Scorer64.
Local Set Warnings "-inexact-float".

Lemma raw_score_spec64 (log10 : float -> float) (now : datetime)
    (deadline : option datetime) (budget : option float) (repeat : bool) :
  raw_score log10 now deadline budget repeat 0.6 0.8
  = S_spec log10 now deadline budget repeat.
Proof.
  unfold raw_score, S_spec. f_equal. f_equal. f_equal. f_equal. f_equal.
  - f_equal. destruct deadline as [d|]; [|reflexivity].
    cbn [deadline_score D_spec]. now rewrite Z.max_comm.
  - f_equal. destruct budget as [b|]; [|reflexivity].
    cbn [budget_score B_spec]. now rewrite positive_truthy.
Qed.

Lemma days_ahead (now : datetime) (k : Z) :
  days_between (now + k * US_PER_DAY)%Z now = k.
Proof.
  unfold days_between.
  replace (now + k * US_PER_DAY - now)%Z with (k * US_PER_DAY)%Z by lia.
  apply Z.div_mul. discriminate.
Qed.

(** C1, amended. With the default weights, [urgency_score] never raises
    and is the formula of the specification evaluated in binary64: the
    weighted sum of the deadline component D (0.5 without a deadline, else
    1/(1 + days_left/7) with days_left the whole days from now to the
    deadline, at least 0), the budget component B (min(1, log10(budget +
    1)/9) for a budget that is present and strictly positive, else 0.5),
    the constant terms 0.15 * 0.6 and 0.10 * 0.8, and the repeat component
    R, times 100, every operation rounded to binary64 and the sum taken
    from left to right; the number that this float stands for is rounded
    to the nearest integer, halves to the even one, and clamped to
    [0, 100]; a sum that is no number gives 0 for minus infinity and 100
    otherwise. *)
Theorem urgency_score_binary64 (log10 : float -> float) (now : datetime)
    (deadline : option datetime) (budget : option float) (repeat : bool) :
  urgency_score log10 now deadline budget repeat 0.6 0.8
  = Some (urgency_spec log10 now deadline budget repeat).
Proof.
  unfold urgency_score, urgency_spec.
  rewrite raw_score_spec64. apply round_clamp64.
Qed.

(** The claim as first stated, with the formula in exact arithmetic, fails
    where the exact sum is a half. At 2024-01-30T09:30, for a deadline 28
    days ahead, no budget and no repeat, the exact sum is 36.5, which
    rounds to 36, and the program answers 37, its binary64 sum lying above
    36.5. No other rule for the halves saves the claim: for a deadline at
    this instant the exact sum is 64.5 and the program answers 64. Without
    a budget the logarithm plays no part. *)
Lemma urgency_score_off_exact_formula :
  urgency_score (fun x => x) 63842207400000000%Z
                (Some (63842207400000000 + 28 * US_PER_DAY)%Z) None false
                0.6 0.8 = Some 37%Z
  /\ Scorer.urgency_spec Scorer.log10_floor 63842207400000000%Z
                         (Some (63842207400000000 + 28 * US_PER_DAY)%Z)
                         None false = 36%Z
  /\ (Scorer.raw_score Scorer.log10_floor 63842207400000000%Z
                       (Some (63842207400000000 + 28 * US_PER_DAY)%Z)
                       None false 0.6 0.8 == 36.5)%Q
  /\ urgency_score (fun x => x) 63842207400000000%Z
                   (Some 63842207400000000%Z) None false 0.6 0.8 = Some 64%Z
  /\ (Scorer.raw_score Scorer.log10_floor 63842207400000000%Z
                       (Some 63842207400000000%Z) None false 0.6 0.8
       == 64.5)%Q.
Proof. vm_compute. repeat split; reflexivity. Qed.

(** The scorer on the inputs of the test suite that need no logarithm. *)
Example scores_without_budget (log10 : float -> float) (now : datetime) :
  urgency_score log10 now None None false 0.6 0.8 = Some 47%Z
  /\ urgency_score log10 now None None true 0.6 0.8 = Some 62%Z
  /\ urgency_score log10 now (Some (now + 7 * US_PER_DAY)%Z) None true
                   0.6 0.8 = Some 62%Z
  /\ urgency_score log10 now (Some (now + 238 * US_PER_DAY)%Z) None false
                   0.6 0.8 = Some 31%Z.
Proof.
  unfold urgency_score, raw_score.
  cbn [deadline_score budget_score repeat_score].
  rewrite !days_ahead.
  repeat split; vm_compute; reflexivity.
Qed.

End Scorer64Facts.

(** ** The retrying fetcher *)

Module FetcherFacts.
Import Fetcher.
Local Open Scope Z_scope.

Lemma attempt_numbers : py_range 1 (MAX_RETRIES + 1) = [1; 2; 3; 4].
Proof. reflexivity. Qed.

Section Request.
Variables J E : Type.
Variable urlopen : nat -> response J E.

Lemma attempts_parsed (attempt : Z) (rest : list Z)
    (last_error : option (exn E)) (slept : list Z) (sent : nat)
    (payload : J) :
  urlopen sent = Parsed E payload ->
  attempts urlopen (attempt :: rest) last_error slept sent
  = {| result := Return E payload; sleeps := slept; calls := S sent |}.
Proof. intros H. cbn [attempts]. now rewrite H. Qed.

Lemma attempts_auth (attempt : Z) (rest : list Z)
    (last_error : option (exn E)) (slept : list Z) (sent : nat) (code : Z) :
  urlopen sent = HTTPError J E code ->
  code = 401 \/ code = 403 ->
  attempts urlopen (attempt :: rest) last_error slept sent
  = {| result := RaiseAuth J E code; sleeps := slept; calls := S sent |}.
Proof.
  intros H Hcode. cbn [attempts]. rewrite H.
  destruct Hcode as [-> | ->]; reflexivity.
Qed.

Lemma attempts_other_status (attempt : Z) (rest : list Z)
    (last_error : option (exn E)) (slept : list Z) (sent : nat) (code : Z) :
  urlopen sent = HTTPError J E code ->
  code <> 401 -> code <> 403 -> code <> 429 -> code < 500 ->
  attempts urlopen (attempt :: rest) last_error slept sent
  = {| result := Reraise J E code; sleeps := slept; calls := S sent |}.
Proof.
  intros H H1 H3 H9 H5. cbn [attempts]. rewrite H.
  apply Z.eqb_neq in H1, H3, H9. apply Z.leb_gt in H5.
  now rewrite H1, H3, H9, H5.
Qed.

Lemma attempts_retry (attempt : Z) (rest : list Z)
    (last_error : option (exn E)) (slept : list Z) (sent : nat) :
  retryable (urlopen sent) ->
  attempts urlopen (attempt :: rest) last_error slept sent
  = if attempt =? MAX_RETRIES
    then {| result := RaiseFailed J (exn_of (urlopen sent));
            sleeps := slept; calls := S sent |}
    else attempts urlopen rest (exn_of (urlopen sent))
                  (slept ++ [Z.min (2 ^ attempt) 8]) (S sent).
Proof.
  intros H. cbn [attempts].
  destruct (urlopen sent) as [payload | code | e]; cbn [retryable exn_of] in *.
  - contradiction.
  - assert (Hauth : (code =? 401) || (code =? 403) = false).
    { apply orb_false_iff. split; apply Z.eqb_neq; lia. }
    assert (Hretry : (code =? 429) || (500 <=? code) = true).
    { apply orb_true_iff. destruct H as [-> | H]; [now left|].
      right. now apply Z.leb_le. }
    now rewrite Hauth, Hretry.
  - reflexivity.
Qed.

(** The state of the loop after [k] attempts that all ask for a retry,
    for [k] below [MAX_RETRIES]. *)
Lemma after_retries (k : nat) :
  (k < 4)%nat ->
  (forall i : nat, (i < k)%nat -> retryable (urlopen i)) ->
  request_json urlopen
  = attempts urlopen (skipn k [1; 2; 3; 4])
             (match k with O => None | S i => exn_of (urlopen i) end)
             (backoff k) k.
Proof.
  intros Hk Hretry. unfold request_json. rewrite attempt_numbers.
  destruct k as [|[|[|[|k]]]]; try lia; cbn [skipn].
  - reflexivity.
  - rewrite attempts_retry by (apply Hretry; lia). reflexivity.
  - rewrite !attempts_retry by (apply Hretry; lia). reflexivity.
  - rewrite !attempts_retry by (apply Hretry; lia). reflexivity.
Qed.

Lemma skipn_attempts (k : nat) :
  (k < 4)%nat ->
  skipn k [1; 2; 3; 4] = Z.of_nat (S k) :: skipn (S k) [1; 2; 3; 4].
Proof. intros Hk. destruct k as [|[|[|[|k]]]]; try lia; reflexivity. Qed.
End Request.

(** C9. [request_json]: after any number of attempts that met a retryable
    failure (status 429, a status from 500 on, or an exception other than
    [HTTPError]), a parsed response is returned at once and a status 401 or
    403 raises the authorization error at once, with no further request;
    the delays slept so far are min(2^attempt, 8) for the attempts made,
    numbered from 1; and when all of the [MAX_RETRIES] = 4 attempts meet a
    retryable failure, the delays are 2, 4, 8 and the error raised carries
    the failure of the last attempt. *)
Theorem request_json_spec (J E : Type) (urlopen : nat -> response J E) :
  (forall (k : nat) (payload : J),
      (k < 4)%nat ->
      (forall i : nat, (i < k)%nat -> retryable (urlopen i)) ->
      urlopen k = Parsed E payload ->
      request_json urlopen
      = {| result := Return E payload; sleeps := backoff k; calls := S k |})
  /\ (forall (k : nat) (code : Z),
        (k < 4)%nat ->
        (forall i : nat, (i < k)%nat -> retryable (urlopen i)) ->
        urlopen k = HTTPError J E code ->
        code = 401 \/ code = 403 ->
        request_json urlopen
        = {| result := RaiseAuth J E code; sleeps := backoff k; calls := S k |})
  /\ ((forall i : nat, (i < 4)%nat -> retryable (urlopen i)) ->
      request_json urlopen
      = {| result := RaiseFailed J (exn_of (urlopen 3%nat));
           sleeps := [2; 4; 8]; calls := 4 |})
  /\ (forall k : nat,
        (k < 4)%nat ->
        backoff k = firstn k [2; 4; 8]
        /\ backoff k = map (fun attempt => Z.min (2 ^ attempt) 8)
                           (py_range 1 (Z.of_nat k + 1))).
Proof.
  split; [|split; [|split]].
  - intros k payload Hk Hretry Hok.
    rewrite (after_retries urlopen Hk Hretry), skipn_attempts by exact Hk.
    now apply attempts_parsed.
  - intros k code Hk Hretry Hstatus Hcode.
    rewrite (after_retries urlopen Hk Hretry), skipn_attempts by exact Hk.
    now apply attempts_auth.
  - intros Hretry.
    rewrite (@after_retries J E urlopen 3%nat) by (try lia; intros; apply Hretry; lia).
    cbn [skipn]. rewrite attempts_retry by (apply Hretry; lia).
    reflexivity.
  - intros k Hk. destruct k as [|[|[|[|k]]]]; try lia; split; reflexivity.
Qed.

(** X11. A status outside the authorization, rate-limit and server classes
    (not 401, 403 or 429, and below 500) that is met after [k < 4]
    retryable failures is raised again at once: [k + 1] calls, the [k]
    sleeps of the back-off so far, and no further attempt. *)
Lemma request_json_other_status (J E : Type) (urlopen : nat -> response J E)
    (k : nat) (code : Z) :
  (k < 4)%nat ->
  (forall i : nat, (i < k)%nat -> retryable (urlopen i)) ->
  urlopen k = HTTPError J E code ->
  code <> 401 -> code <> 403 -> code <> 429 -> code < 500 ->
  request_json urlopen
  = {| result := Reraise J E code; sleeps := backoff k; calls := S k |}.
Proof.
  intros Hk Hretry Hstatus H1 H3 H9 H5.
  rewrite (after_retries urlopen Hk Hretry), skipn_attempts by exact Hk.
  now apply attempts_other_status.
Qed.

(** Two server errors, then a document. *)
Example two_failures_then_success :
  request_json (fun n => match n with
                         | 0%nat => HTTPError nat unit 503
                         | 1%nat => Failure nat tt
                         | _ => Parsed unit 7%nat
                         end)
  = {| result := Return unit 7%nat; sleeps := [2; 4]; calls := 3 |}.
Proof. reflexivity. Qed.

End FetcherFacts.

(** ** The calendar *)

Module DatetimeFacts.
Import Datetime.
Local Open Scope Z_scope.

Lemma month_day_checked :
  forallb (fun i => month_day_ok false (Z.of_nat i)) (seq 0 365)
  && forallb (fun i => month_day_ok true (Z.of_nat i)) (seq 0 366) = true.
Proof. vm_compute. reflexivity. Qed.

Lemma month_day_spec (leap : bool) (n : Z) :
  0 <= n < 365 + leap_day leap ->
  month_day_ok leap n = true.
Proof.
  intros Hn.
  pose proof month_day_checked as H. apply andb_prop in H as [Hf Ht].
  rewrite forallb_forall in Hf, Ht.
  rewrite <- (Z2Nat.id n) by lia.
  destruct leap; cbn [leap_day] in Hn.
  - apply Ht. apply in_seq. lia.
  - apply Hf. apply in_seq. lia.
Qed.

Lemma days_in_month_leap (y m : Z) :
  _days_in_month y m
  = _DAYS_IN_MONTH m + (if (m =? 2) && _is_leap y then 1 else 0).
Proof.
  unfold _days_in_month.
  destruct (m =? 2) eqn:E; cbn [andb]; [|lia].
  apply Z.eqb_eq in E. subst m. destruct (_is_leap y); reflexivity.
Qed.

(** The year found by [_ord2ymd]. *)
Lemma days_before_year_split (n400 n100 n4 n1 : Z) :
  0 <= n100 <= 3 -> 0 <= n4 <= 24 -> 0 <= n1 <= 3 ->
  _days_before_year (n400 * 400 + 1 + n100 * 100 + n4 * 4 + n1)
  = n400 * _DI400Y + n100 * _DI100Y + n4 * _DI4Y + n1 * 365.
Proof.
  intros H100 H4 H1. unfold _days_before_year, _DI400Y, _DI100Y, _DI4Y.
  Z.div_mod_to_equations. lia.
Qed.

Lemma is_leap_split (n400 n100 n4 n1 : Z) :
  0 <= n100 <= 3 -> 0 <= n4 <= 24 -> 0 <= n1 <= 3 ->
  _is_leap (n400 * 400 + 1 + n100 * 100 + n4 * 4 + n1)
  = (n1 =? 3) && (negb (n4 =? 24) || (n100 =? 3)).
Proof.
  intros H100 H4 H1. unfold _is_leap.
  destruct (n1 =? 3) eqn:E1; destruct (n4 =? 24) eqn:E4;
    destruct (n100 =? 3) eqn:E100; cbn [andb orb negb];
    rewrite ?Z.eqb_eq, ?Z.eqb_neq in *;
    repeat match goal with
           | |- context [?a mod ?b =? 0] =>
               let E := fresh "E" in
               destruct (a mod b =? 0) eqn:E;
               rewrite ?Z.eqb_eq, ?Z.eqb_neq in E
           end; cbn [andb orb negb]; try reflexivity; exfalso;
    Z.div_mod_to_equations; lia.
Qed.

Lemma is_leap_split_true (n400 n100 n4 : Z) :
  0 <= n100 <= 3 -> 0 <= n4 <= 24 -> n4 <> 24 \/ n100 = 3 ->
  _is_leap (n400 * 400 + 1 + n100 * 100 + n4 * 4 + 3) = true.
Proof.
  intros H100 H4 H. rewrite is_leap_split by lia.
  cbn [Z.eqb Pos.eqb andb].
  destruct H as [H | ->].
  - apply Z.eqb_neq in H. now rewrite H.
  - apply orb_true_r.
Qed.

(** [_ord2ymd] answers a date of the calendar that [_ymd2ord] maps back to
    the ordinal. *)
Lemma ord2ymd_spec (n : Z) :
  1 <= n <= _MAXORDINAL ->
  let '(y, m, d) := _ord2ymd n in
  MINYEAR <= y <= MAXYEAR /\ 1 <= m <= 12 /\ 1 <= d <= _days_in_month y m
  /\ _ymd2ord y m d = n.
Proof.
  intros Hn. unfold _ord2ymd, _MAXORDINAL, MINYEAR, MAXYEAR in *.
  set (n0 := n - 1).
  pose proof (Z.div_mod n0 _DI400Y ltac:(discriminate)) as E400.
  pose proof (Z.mod_pos_bound n0 _DI400Y ltac:(reflexivity)) as B400.
  set (n400 := n0 / _DI400Y) in *. set (r400 := n0 mod _DI400Y) in *.
  pose proof (Z.div_mod r400 _DI100Y ltac:(discriminate)) as E100.
  pose proof (Z.mod_pos_bound r400 _DI100Y ltac:(reflexivity)) as B100.
  set (n100 := r400 / _DI100Y) in *. set (r100 := r400 mod _DI100Y) in *.
  pose proof (Z.div_mod r100 _DI4Y ltac:(discriminate)) as E4.
  pose proof (Z.mod_pos_bound r100 _DI4Y ltac:(reflexivity)) as B4.
  set (n4 := r100 / _DI4Y) in *. set (r4 := r100 mod _DI4Y) in *.
  pose proof (Z.div_mod r4 365 ltac:(discriminate)) as E1.
  pose proof (Z.mod_pos_bound r4 365 ltac:(reflexivity)) as B1.
  set (n1 := r4 / 365) in *. set (r1 := r4 mod 365) in *.
  unfold _DI400Y, _DI100Y, _DI4Y in *.
  assert (Hn0 : 0 <= n0 <= 3652058) by (unfold n0; lia).
  assert (H400 : 0 <= n400 <= 24) by lia.
  assert (H100 : 0 <= n100 <= 4) by lia.
  assert (H4 : 0 <= n4 <= 24) by lia.
  assert (H1 : 0 <= n1 <= 4) by lia.
  destruct ((n1 =? 4) || (n100 =? 4)) eqn:Hlast.
  - (* the last day of a leap year *)
    assert (Hy : exists n100' n4',
               0 <= n100' <= 3 /\ 0 <= n4' <= 24 /\ (n4' <> 24 \/ n100' = 3)
               /\ n400 * 400 + 1 + n100 * 100 + n4 * 4 + n1 - 1
                  = n400 * 400 + 1 + n100' * 100 + n4' * 4 + 3
               /\ n0 = n400 * 146097 + n100' * 36524 + n4' * 1461 + 3 * 365 + 365).
    { apply orb_prop in Hlast as [Hc | Hc]; apply Z.eqb_eq in Hc.
      - destruct (Z.eq_dec n100 4) as [Hc4 | Hc4].
        + exists 3, 24. lia.
        + exists n100, n4. lia.
      - exists 3, 24. lia. }
    destruct Hy as (n100' & n4' & Hb100 & Hb4 & Hleap & -> & En0).
    pose proof (is_leap_split_true n400 Hb100 Hb4 Hleap) as Hl.
    pose proof (days_before_year_split n400 Hb100 Hb4 (n1:=3) ltac:(lia)) as Hd.
    unfold _ymd2ord, _days_before_month, _days_in_month.
    rewrite Hl, Hd. cbn [_DAYS_BEFORE_MONTH _DAYS_IN_MONTH Z.ltb Z.eqb
                         Z.compare Pos.compare Pos.compare_cont Pos.eqb andb].
    unfold _DI400Y, _DI100Y, _DI4Y. unfold n0 in En0. lia.
  - apply orb_false_iff in Hlast as [Hc1 Hc100].
    apply Z.eqb_neq in Hc1, Hc100.
    assert (Hb100 : 0 <= n100 <= 3) by lia.
    assert (Hb1 : 0 <= n1 <= 3) by lia.
    rewrite <- (is_leap_split n400 Hb100 H4 Hb1).
    set (year := n400 * 400 + 1 + n100 * 100 + n4 * 4 + n1).
    pose proof (days_before_year_split n400 Hb100 H4 Hb1) as Hd.
    fold year in Hd. unfold _DI400Y, _DI100Y, _DI4Y in Hd.
    pose proof (month_day_spec (_is_leap year) (n:=r1)) as Hmd.
    unfold month_day_ok in Hmd.
    destruct (_month_day (_is_leap year) r1) as [m d].
    assert (Hr1 : 0 <= r1 < 365 + leap_day (_is_leap year))
      by (unfold leap_day; destruct (_is_leap year); lia).
    specialize (Hmd Hr1).
    repeat (apply andb_prop in Hmd as [Hmd ?]).
    rewrite ?Z.leb_le, ?Z.eqb_eq in *.
    unfold _ymd2ord, _days_before_month. rewrite days_in_month_leap.
    unfold year in *. unfold n0 in *. lia.
Qed.

Lemma days_before_next_year (y : Z) :
  _days_before_year (y + 1)
  = _days_before_year y + 365 + leap_day (_is_leap y).
Proof.
  unfold _days_before_year, _is_leap, leap_day.
  replace (y + 1 - 1) with y by lia.
  destruct (y mod 4 =? 0) eqn:E4; destruct (y mod 100 =? 0) eqn:E100;
    destruct (y mod 400 =? 0) eqn:E400; cbn [andb orb negb];
    rewrite ?Z.eqb_eq, ?Z.eqb_neq in *;
    Z.div_mod_to_equations; lia.
Qed.

Lemma days_in_month_bounds (y m : Z) :
  1 <= m <= 12 -> 28 <= _days_in_month y m <= 31.
Proof.
  intros Hm. unfold _days_in_month.
  assert (Hc : m = 1 \/ m = 2 \/ m = 3 \/ m = 4 \/ m = 5 \/ m = 6 \/ m = 7
               \/ m = 8 \/ m = 9 \/ m = 10 \/ m = 11 \/ m = 12) by lia.
  destruct Hc as [-> | [-> | [-> | [-> | [-> | [-> | [-> | [-> | [-> | [-> |
                 [-> | ->]]]]]]]]]]];
    destruct (_is_leap y); cbn; lia.
Qed.

(** The first day of the next month comes right after the last day of the
    month, also from December to January. *)
Lemma next_month_ord (y m : Z) :
  1 <= m <= 12 ->
  (if m =? 12 then _ymd2ord (y + 1) 1 1 else _ymd2ord y (m + 1) 1)
  = _ymd2ord y m 1 + _days_in_month y m.
Proof.
  intros Hm. unfold _ymd2ord, _days_before_month, _days_in_month.
  assert (Hc : m = 1 \/ m = 2 \/ m = 3 \/ m = 4 \/ m = 5 \/ m = 6 \/ m = 7
               \/ m = 8 \/ m = 9 \/ m = 10 \/ m = 11 \/ m = 12) by lia.
  destruct Hc as [-> | [-> | [-> | [-> | [-> | [-> | [-> | [-> | [-> | [-> |
                 [-> | ->]]]]]]]]]]];
    repeat match goal with
           | |- context [Zpos ?a + 1] =>
               let v := eval vm_compute in (Zpos a + 1) in
               change (Zpos a + 1) with v
           end;
    try (destruct (_is_leap y); cbn; lia).
  change (12 =? 12) with true. cbv iota.
  rewrite days_before_next_year.
  destruct (_is_leap y), (_is_leap (y + 1)); cbn; lia.
Qed.

Lemma ymd2ord_first_bounds (y m : Z) :
  MINYEAR <= y <= MAXYEAR -> 1 <= m <= 12 ->
  1 <= _ymd2ord y m 1 <= 3652029.
Proof.
  unfold MINYEAR, MAXYEAR. intros Hy Hm.
  unfold _ymd2ord, _days_before_month, _days_before_year.
  assert (Hc : m = 1 \/ m = 2 \/ m = 3 \/ m = 4 \/ m = 5 \/ m = 6 \/ m = 7
               \/ m = 8 \/ m = 9 \/ m = 10 \/ m = 11 \/ m = 12) by lia.
  destruct (Z.eq_dec y 9999) as [-> | Hne].
  - destruct Hc as [-> | [-> | [-> | [-> | [-> | [-> | [-> | [-> | [-> | [-> |
                   [-> | ->]]]]]]]]]]]; split; apply Z.leb_le; reflexivity.
  - destruct Hc as [-> | [-> | [-> | [-> | [-> | [-> | [-> | [-> | [-> | [-> |
                   [-> | ->]]]]]]]]]]];
      destruct (_is_leap y); cbn [_DAYS_BEFORE_MONTH Z.ltb Z.compare
                                  Pos.compare Pos.compare_cont andb];
      Z.div_mod_to_equations; lia.
Qed.

Lemma last_month_ord : _ymd2ord MAXYEAR 12 1 = 3652029.
Proof. vm_compute. reflexivity. Qed.

Lemma next_month_bound (y m : Z) :
  MINYEAR <= y <= MAXYEAR -> 1 <= m <= 12 ->
  ~ (y = MAXYEAR /\ m = 12) ->
  _ymd2ord y m 1 + _days_in_month y m <= 3652029.
Proof.
  intros Hy Hm Hlast. rewrite <- (@next_month_ord y m Hm).
  unfold MINYEAR, MAXYEAR in *.
  destruct (m =? 12) eqn:E.
  - apply Z.eqb_eq in E.
    apply (@ymd2ord_first_bounds (y + 1) 1); unfold MINYEAR, MAXYEAR; lia.
  - apply Z.eqb_neq in E.
    apply (@ymd2ord_first_bounds y (m + 1)); unfold MINYEAR, MAXYEAR; lia.
Qed.

End DatetimeFacts.

(** ** The window planner *)

Module WindowsFacts.
Import Datetime DatetimeFacts Windows.
Local Open Scope Z_scope.

Lemma representable_iff (t : Z) :
  representable t = true <-> 0 <= t < END_OF_TIME.
Proof.
  unfold representable. rewrite andb_true_iff, Z.leb_le, Z.ltb_lt. tauto.
Qed.

Lemma END_OF_TIME_eq : END_OF_TIME = 3652059 * 86400000000.
Proof. vm_compute. reflexivity. Qed.

Lemma LAST_MONTH_START_eq : LAST_MONTH_START = 3652028 * 86400000000.
Proof. vm_compute. reflexivity. Qed.

(** Every instant lies in the calendar month that [year] and [month] name,
    and the month after that starts a whole number of days later. *)
Lemma instant_in_month (t : datetime) :
  representable t = true ->
  MINYEAR <= year t <= MAXYEAR /\ 1 <= month t <= 12
  /\ month_start (year t) (month t) <= t < next_month_start t
  /\ next_month_start t
     = month_start (year t) (month t)
       + _days_in_month (year t) (month t) * US_PER_DAY.
Proof.
  intros Hr. apply representable_iff in Hr. rewrite END_OF_TIME_eq in Hr.
  assert (Hq : 0 <= t / US_PER_DAY < 3652059).
  { unfold US_PER_DAY. Z.div_mod_to_equations. lia. }
  pose proof (@ord2ymd_spec (toordinal t)) as H.
  unfold year, month, next_month_start, month_start, year, month.
  destruct (_ord2ymd (toordinal t)) as [[y m] d]. cbn [fst snd].
  destruct H as (Hy & Hm & Hd & Ho);
    [unfold toordinal, _MAXORDINAL; lia|].
  pose proof (next_month_ord y Hm) as Hn.
  assert (H1 : _ymd2ord y m 1 = _ymd2ord y m d - d + 1)
    by (unfold _ymd2ord; lia).
  assert (Hnext :
    (if m =? 12 then (_ymd2ord (y + 1) 1 1 - 1) * US_PER_DAY
     else (_ymd2ord y (m + 1) 1 - 1) * US_PER_DAY)
    = (_ymd2ord y m 1 - 1) * US_PER_DAY + _days_in_month y m * US_PER_DAY).
  { destruct (m =? 12); rewrite Hn; ring. }
  rewrite Hnext. unfold toordinal in Ho.
  split; [exact Hy|]. split; [exact Hm|]. split; [|reflexivity].
  rewrite H1, Ho. unfold US_PER_DAY in *.
  Z.div_mod_to_equations. lia.
Qed.

Lemma month_start_eq (y m : Z) :
  month_start y m = (_ymd2ord y m 1 - 1) * US_PER_DAY.
Proof. reflexivity. Qed.

Lemma mode_daily : str_eqb (u "daily") (u "monthly") = false.
Proof. vm_compute. reflexivity. Qed.

Lemma mode_monthly : str_eqb (u "monthly") (u "monthly") = true.
Proof. vm_compute. reflexivity. Qed.

(** The arithmetic of a step to the start of the next month: [o] is the
    ordinal of the first day of the month of the cursor and [dim] the
    number of its days. *)
Lemma month_step_arith (o dim cursor end_ : Z) :
  0 <= cursor < 3652059 * 86400000000 ->
  cursor <= end_ -> end_ < 3652028 * 86400000000 ->
  28 <= dim <= 31 -> 1 <= o -> o + dim <= 3652029 ->
  (o - 1) * US_PER_DAY <= cursor < (o - 1) * US_PER_DAY + dim * US_PER_DAY ->
  cursor < (o - 1) * US_PER_DAY + dim * US_PER_DAY
  /\ 0 <= (o - 1) * US_PER_DAY + dim * US_PER_DAY < 3652059 * 86400000000
  /\ 0 <= (o - 1) * US_PER_DAY + dim * US_PER_DAY - US_PER_MINUTE
       < 3652059 * 86400000000
  /\ ((o - 1) * US_PER_DAY + dim * US_PER_DAY) mod US_PER_DAY = 0
  /\ (cursor mod US_PER_DAY = 0 ->
      cursor + US_PER_DAY <= (o - 1) * US_PER_DAY + dim * US_PER_DAY).
Proof.
  intros Hc Hle Hm Hdim Ho Hbelow Hin.
  split; [lia|].
  split; [unfold US_PER_DAY; lia|].
  split; [unfold US_PER_DAY, US_PER_MINUTE; lia|].
  split.
  - rewrite <- Z.mul_add_distr_r. apply Z.mod_mul. unfold US_PER_DAY. lia.
  - intros Ha. unfold US_PER_DAY in *. Z.div_mod_to_equations. lia.
Qed.

Section Planner.
Variable mode : str.
Variable end_ : datetime.
Hypothesis end_representable : representable end_ = true.
Hypothesis range : in_range mode end_.

(** What one step of the cursor does. *)
Lemma advance_spec (cursor : datetime) :
  representable cursor = true -> cursor <= end_ ->
  cursor < advance mode cursor
  /\ representable (advance mode cursor) = true
  /\ representable (advance mode cursor - US_PER_MINUTE) = true
  /\ (str_eqb mode (u "monthly") = true ->
      advance mode cursor mod US_PER_DAY = 0)
  /\ (str_eqb mode (u "monthly") && negb (cursor mod US_PER_DAY =? 0) = false ->
      cursor + US_PER_DAY <= advance mode cursor).
Proof.
  intros Hc Hle.
  pose proof (proj1 (representable_iff _) Hc) as Hc'.
  pose proof (proj1 (representable_iff _) end_representable) as He'.
  rewrite END_OF_TIME_eq in Hc', He'.
  unfold advance.
  destruct range as [[Hmode Hd] | [Hmode Hm]]; rewrite Hmode.
  - rewrite mode_daily. apply representable_iff in Hd.
    rewrite END_OF_TIME_eq in Hd.
    split; [unfold US_PER_DAY; lia|].
    split; [apply representable_iff; rewrite END_OF_TIME_eq;
            unfold US_PER_DAY in *; lia|].
    split; [apply representable_iff; rewrite END_OF_TIME_eq;
            unfold US_PER_DAY, US_PER_MINUTE in *; lia|].
    split; [discriminate|].
    intros _. lia.
  - rewrite mode_monthly. rewrite LAST_MONTH_START_eq in Hm.
    destruct (@instant_in_month cursor Hc) as (Hy & Hmo & [Hlo Hhi] & Hnext).
    pose proof (@days_in_month_bounds (year cursor) (month cursor) Hmo) as Hdim.
    pose proof (@ymd2ord_first_bounds (year cursor) (month cursor) Hy Hmo) as Hord.
    assert (Hnot : ~ (year cursor = MAXYEAR /\ month cursor = 12)).
    { (* the month of the cursor is not the last one *)
      intros [Ey Em]. rewrite Ey, Em in Hlo.
      fold LAST_MONTH_START in Hlo. rewrite LAST_MONTH_START_eq in Hlo.
      lia. }
    pose proof (@next_month_bound (year cursor) (month cursor) Hy Hmo Hnot)
      as Hbelow.
    rewrite Hnext in Hhi. rewrite Hnext. clear Hnext.
    rewrite month_start_eq in *.
    destruct (@month_step_arith
                (_ymd2ord (year cursor) (month cursor) 1)
                (_days_in_month (year cursor) (month cursor))
                cursor end_ Hc' Hle Hm Hdim (proj1 Hord) Hbelow
                (conj Hlo Hhi)) as (H1 & H2 & H3 & H4 & H5).
    split; [exact H1|].
    split; [apply representable_iff; rewrite END_OF_TIME_eq; exact H2|].
    split; [apply representable_iff; rewrite END_OF_TIME_eq; exact H3|].
    split; [intros _; exact H4|].
    cbn [andb]. intros Ha. apply negb_false_iff, Z.eqb_eq in Ha.
    exact (H5 Ha).
Qed.

(** One turn of the loop. *)
Lemma iter_step (fuel : nat) (cursor : datetime) :
  representable cursor = true -> cursor <= end_ ->
  iter_windows_from (S fuel) cursor end_ mode
  = let (ws, st) := iter_windows_from fuel (advance mode cursor) end_ mode in
    ((cursor, Z.min end_ (advance mode cursor - US_PER_MINUTE)) :: ws, st).
Proof.
  intros Hc Hle.
  destruct (@advance_spec cursor Hc Hle) as (_ & Hr & Hrm & _).
  cbn [iter_windows_from].
  apply Z.leb_le in Hle as Hb. rewrite Hb.
  pose proof (proj1 (representable_iff _) Hc) as Hc'.
  unfold advance in *.
  destruct (str_eqb mode (u "monthly")) eqn:Hmode.
  - destruct (@instant_in_month cursor Hc) as (Hy & Hmo & [Hlo Hhi] & Hnext).
    assert (Hmk :
      (if month cursor =? 12 then mk_date (year cursor + 1) 1 1
       else mk_date (year cursor) (month cursor + 1) 1)
      = Some (next_month_start cursor)).
    { unfold next_month_start, mk_date, month_start.
      destruct range as [[-> _] | [_ Hm]]; [now rewrite mode_daily in Hmode|].
      rewrite LAST_MONTH_START_eq in Hm.
      destruct (month cursor =? 12) eqn:E12.
      - apply Z.eqb_eq in E12.
        assert (Hyear : year cursor <> MAXYEAR).
        { intros E. rewrite E, E12 in Hlo.
          fold LAST_MONTH_START in Hlo. rewrite LAST_MONTH_START_eq in Hlo.
          lia. }
        unfold MINYEAR, MAXYEAR in *.
        replace ((1 <=? year cursor + 1) && (year cursor + 1 <=? 9999))
          with true by (symmetry; apply andb_true_iff;
                        rewrite !Z.leb_le; lia).
        reflexivity.
      - apply Z.eqb_neq in E12.
        pose proof (@days_in_month_bounds (year cursor)
                      (month cursor + 1) ltac:(lia)) as Hdim.
        unfold MINYEAR, MAXYEAR in *.
        replace ((1 <=? year cursor) && (year cursor <=? 9999)
                 && (1 <=? month cursor + 1) && (month cursor + 1 <=? 12)
                 && (1 <=? 1)
                 && (1 <=? _days_in_month (year cursor) (month cursor + 1)))
          with true
          by (symmetry; rewrite !andb_true_iff, !Z.leb_le; lia).
        reflexivity. }
    rewrite Hmk. unfold add_us. rewrite Z.add_opp_r, Hrm. reflexivity.
  - unfold add_us. rewrite Hr. rewrite Z.add_opp_r, Hrm. reflexivity.
Qed.

(** With enough fuel the loop ends by its condition, and it has yielded
    the planned windows. *)
Lemma iter_from_planned (fuel : nat) :
  forall cursor : datetime,
    representable cursor = true ->
    fuel_needed mode cursor end_ <= Z.of_nat fuel ->
    exists ws : list window,
      iter_windows_from fuel cursor end_ mode = (ws, Exhausted)
      /\ planned mode end_ cursor ws
      /\ Forall (fun w => representable (fst w) = true) ws.
Proof.
  induction fuel as [|fuel IH]; intros cursor Hc Hfuel.
  - exfalso. unfold fuel_needed in Hfuel.
    destruct (cursor <=? end_) eqn:Hle; [|simpl in Hfuel; lia].
    apply Z.leb_le in Hle.
    assert (0 <= (end_ - cursor) / US_PER_DAY)
      by (apply Z.div_pos; [lia | reflexivity]).
    destruct (str_eqb mode (u "monthly") && negb (cursor mod US_PER_DAY =? 0));
      simpl in Hfuel; lia.
  - destruct (Z_le_gt_dec cursor end_) as [Hle | Hgt].
    + destruct (@advance_spec cursor Hc Hle) as (Hlt & Hr & _ & Hal & Hday).
      assert (Hfuel' : fuel_needed mode (advance mode cursor) end_
                       <= Z.of_nat fuel).
      { unfold fuel_needed in *.
        apply Z.leb_le in Hle as Hb. rewrite Hb in Hfuel.
        assert (H0 : 0 <= (end_ - cursor) / US_PER_DAY)
          by (apply Z.div_pos; [lia | reflexivity]).
        destruct (advance mode cursor <=? end_) eqn:Hb'.
        - apply Z.leb_le in Hb'.
          assert (Hslack :
            str_eqb mode (u "monthly")
            && negb (advance mode cursor mod US_PER_DAY =? 0) = false).
          { destruct (str_eqb mode (u "monthly")) eqn:Hmode; [|reflexivity].
            rewrite (Hal eq_refl). reflexivity. }
          rewrite Hslack.
          destruct (str_eqb mode (u "monthly")
                    && negb (cursor mod US_PER_DAY =? 0)) eqn:Hs.
          + assert ((end_ - advance mode cursor) / US_PER_DAY
                    <= (end_ - cursor) / US_PER_DAY)
              by (apply Z.div_le_mono; [reflexivity | lia]).
            lia.
          + specialize (Hday eq_refl).
            assert ((end_ - advance mode cursor) / US_PER_DAY
                    <= (end_ - cursor - US_PER_DAY) / US_PER_DAY)
              by (apply Z.div_le_mono; [reflexivity | lia]).
            assert ((end_ - cursor - US_PER_DAY) / US_PER_DAY
                    = (end_ - cursor) / US_PER_DAY - 1).
            { replace (end_ - cursor - US_PER_DAY)
                with (end_ - cursor + (-1) * US_PER_DAY) by ring.
              rewrite Z.div_add by discriminate. ring. }
            lia.
        - destruct (str_eqb mode (u "monthly")
                    && negb (cursor mod US_PER_DAY =? 0)); lia. }
      destruct (IH (advance mode cursor) Hr Hfuel') as (ws & Hrun & Hpl & Hall).
      exists ((cursor, Z.min end_ (advance mode cursor - US_PER_MINUTE)) :: ws).
      rewrite (@iter_step fuel cursor Hc Hle), Hrun.
      split; [reflexivity|].
      split; [now apply planned_step|].
      constructor; [exact Hc | exact Hall].
    + exists []. cbn [iter_windows_from].
      replace (cursor <=? end_) with false
        by (symmetry; apply Z.leb_gt; lia).
      split; [reflexivity|].
      split; [apply planned_done; lia | constructor].
Qed.

(** *** What the planned windows look like *)

Lemma planned_head (cursor : datetime) (ws : list window) :
  planned mode end_ cursor ws ->
  (cursor <= end_ ->
   exists rest, ws = (cursor, Z.min end_ (advance mode cursor - US_PER_MINUTE))
                       :: rest)
  /\ (end_ < cursor -> ws = []).
Proof.
  intros H. destruct H as [c Hgt | c ws' Hle Hrest].
  - split; [lia | reflexivity].
  - split; [intros _; now exists ws' | lia].
Qed.

Lemma planned_chained (cursor : datetime) (ws : list window) :
  planned mode end_ cursor ws -> chained ws.
Proof.
  induction 1 as [c Hgt | c ws' Hle Hrest IH]; [exact I|].
  destruct ws' as [|w2 rest]; [exact I|].
  split; [|exact IH].
  destruct (Z_le_gt_dec (advance mode c) end_) as [Hn | Hn].
  - destruct (proj1 (planned_head Hrest) Hn) as [rest' E].
    injection E as -> _. cbn [fst snd]. unfold US_PER_MINUTE. lia.
  - pose proof (proj2 (planned_head Hrest) ltac:(lia)) as E. discriminate E.
Qed.

Lemma planned_windows (cursor : datetime) (ws : list window) :
  planned mode end_ cursor ws -> Forall (window_ok mode end_) ws.
Proof.
  induction 1 as [c Hgt | c ws' Hle Hrest IH]; constructor; [|exact IH].
  split; [exact Hle | reflexivity].
Qed.

Lemma planned_last (cursor : datetime) (ws : list window) (d : window) :
  planned mode end_ cursor ws -> ws <> [] ->
  end_ - US_PER_MINUTE < snd (last ws d) <= end_.
Proof.
  induction 1 as [c Hgt | c ws' Hle Hrest IH]; intros Hne; [congruence|].
  destruct ws' as [|w2 rest].
  - cbn [last snd].
    inversion Hrest as [c' Hgt E1 E2 | ]; subst.
    unfold US_PER_MINUTE. lia.
  - change (last (_ :: w2 :: rest) d) with (last (w2 :: rest) d).
    apply IH. discriminate.
Qed.

Lemma window_span (w : window) :
  representable (fst w) = true -> window_ok mode end_ w -> span_ok mode w.
Proof.
  intros Hr [Hle Hend]. unfold span_ok.
  destruct (@advance_spec (fst w) Hr Hle) as (Hlt & _ & _ & _ & _).
  unfold advance in *.
  destruct (str_eqb mode (u "monthly")) eqn:Hmode.
  - destruct (@instant_in_month (fst w) Hr) as (Hy & Hmo & [Hlo Hhi] & Hnext).
    pose proof (@days_in_month_bounds (year (fst w)) (month (fst w)) Hmo)
      as Hdim.
    split; [split; assumption|].
    rewrite Hend. rewrite Hnext in *.
    unfold US_PER_DAY, US_PER_MINUTE in *. lia.
  - rewrite Hend. unfold US_PER_DAY, US_PER_MINUTE. lia.
Qed.
End Planner.

(** The windows of the two modes on examples. *)
Example daily_windows :
  iter_windows 63842207400000000 63842461200000000 (u "daily")
  = ([ (63842207400000000, 63842293740000000);
       (63842293800000000, 63842380140000000);
       (63842380200000000, 63842461200000000) ], Exhausted).
Proof. vm_compute. reflexivity. Qed.

(** 2023-11-15T10:30 to 2024-02-02T09:00, month by month, across the
    turn of the year. *)
Example monthly_windows :
  iter_windows 63835641000000000 63842461200000000 (u "monthly")
  = ([ (63835641000000000, 63836985540000000);
       (63836985600000000, 63839663940000000);
       (63839664000000000, 63842342340000000);
       (63842342400000000, 63842461200000000) ], Exhausted).
Proof. vm_compute. reflexivity. Qed.

End WindowsFacts.

(** ** The stable sort *)

Module SortFacts.
Import Leads.

Lemma insert_desc_perm (x : LeadRecord) (l : list LeadRecord) :
  Permutation (insert_desc x l) (x :: l).
Proof.
  induction l as [|y l IH]; cbn [insert_desc]; [reflexivity|].
  destruct (urgency_score y <=? urgency_score x)%Z; [reflexivity|].
  rewrite IH. apply perm_swap.
Qed.

Lemma sort_desc_perm (l : list LeadRecord) : Permutation (sort_desc l) l.
Proof.
  induction l as [|x l IH]; cbn [sort_desc]; [reflexivity|].
  rewrite insert_desc_perm. now constructor.
Qed.

Lemma insert_desc_sorted (x : LeadRecord) (l : list LeadRecord) :
  StronglySorted desc l -> StronglySorted desc (insert_desc x l).
Proof.
  induction 1 as [|y l Hs IH Hall]; cbn [insert_desc].
  - constructor; constructor.
  - destruct (urgency_score y <=? urgency_score x)%Z eqn:E.
    + apply Z.leb_le in E. constructor.
      * now constructor.
      * constructor; [exact E|].
        rewrite Forall_forall in *. intros z Hz. unfold desc in *.
        specialize (Hall z Hz). lia.
    + apply Z.leb_gt in E. constructor; [exact IH|].
      rewrite Forall_forall in *. intros z Hz.
      apply (Permutation_in _ (insert_desc_perm x l)) in Hz.
      destruct Hz as [<- | Hz]; [unfold desc; lia | now apply Hall].
Qed.

Lemma sort_desc_sorted (l : list LeadRecord) : StronglySorted desc (sort_desc l).
Proof.
  induction l as [|x l IH]; cbn [sort_desc]; [constructor|].
  now apply insert_desc_sorted.
Qed.

(** An insertion puts the new lead in front of the leads of its score. *)
Lemma with_score_insert (s : Z) (x : LeadRecord) (l : list LeadRecord) :
  with_score s (insert_desc x l) = with_score s (x :: l).
Proof.
  unfold with_score.
  induction l as [|y l IH]; cbn [insert_desc]; [reflexivity|].
  destruct (urgency_score y <=? urgency_score x)%Z eqn:E; [reflexivity|].
  apply Z.leb_gt in E.
  cbn [filter] in *. rewrite IH.
  destruct (urgency_score x =? s)%Z eqn:Ex; [|reflexivity].
  apply Z.eqb_eq in Ex.
  replace (urgency_score y =? s)%Z with false; [reflexivity|].
  symmetry. apply Z.eqb_neq. lia.
Qed.

(** The sort is stable: the leads of one score keep their order. *)
Lemma sort_desc_stable (s : Z) (l : list LeadRecord) :
  with_score s (sort_desc l) = with_score s l.
Proof.
  induction l as [|x l IH]; cbn [sort_desc]; [reflexivity|].
  rewrite with_score_insert. unfold with_score in *. cbn [filter].
  now rewrite IH.
Qed.

Lemma slice_to_nonneg (A : Type) (n : Z) (l : list A) :
  (0 <= n)%Z -> slice_to n l = firstn (Z.to_nat n) l.
Proof.
  intros Hn. unfold slice_to.
  now replace (0 <=? n)%Z with true by (symmetry; now apply Z.leb_le).
Qed.

Lemma firstn_sorted (n : nat) (l : list LeadRecord) :
  StronglySorted desc l -> StronglySorted desc (firstn n l).
Proof.
  intros Hs. revert n.
  induction Hs as [|x l Hs IH Hall]; intros [|n]; cbn [firstn];
    try constructor.
  - apply IH.
  - rewrite Forall_forall in *. intros z Hz. apply Hall.
    rewrite <- (firstn_skipn n l). apply in_or_app. now left.
Qed.

End SortFacts.

(** ** The lead ranker *)

Module LeadsFacts.
Import Num Datetime Leads SortFacts.
Import stdpp.base stdpp.gmap.

Lemma tally_snoc (ks : list str) (k : str) :
  tally (ks ++ [k]) = bump k (tally ks).
Proof. unfold tally. now rewrite fold_left_app. Qed.

Lemma counted_snoc (k x : str) (ks : list str) :
  counted k (ks ++ [x])
  = if decide (x = k)
    then Some (S (default 0%nat (counted k ks)))
    else counted k ks.
Proof.
  unfold counted. rewrite List.filter_app, length_app. cbn [List.filter].
  destruct (decide (x = k)) as [E|N].
  - rewrite bool_decide_eq_true_2 by exact E. cbn [length].
    rewrite Nat.add_1_r.
    destruct (length (List.filter (fun y => bool_decide (y = k)) ks));
      reflexivity.
  - rewrite bool_decide_eq_false_2 by exact N. cbn [length].
    now rewrite Nat.add_0_r.
Qed.

Lemma tally_lookup (k : str) (ks : list str) :
  tally ks !! k = counted k ks.
Proof.
  induction ks as [|x ks IH] using rev_ind; [reflexivity|].
  rewrite tally_snoc, counted_snoc. unfold bump.
  destruct (decide (x = k)) as [E|N].
  - subst x. rewrite lookup_insert_eq, IH. f_equal. lia.
  - rewrite lookup_insert_ne by exact N. exact IH.
Qed.

Section WithEnvironment.
Variable U : unicode_db.
Variable log10 : Q -> Q.
Variable strptime : str -> str -> option datetime.
Variable strftime : datetime -> str -> str.
Variable format_commas : Z -> str.
Variable clock : nat -> datetime.

Local Abbreviation step := (step U log10 strptime strftime format_commas clock).
Local Abbreviation run_loop :=
  (run_loop U log10 strptime strftime format_commas clock).
Local Abbreviation build_leads :=
  (build_leads U log10 strptime strftime format_commas clock).
Local Abbreviation constructed :=
  (constructed U log10 strptime strftime format_commas clock).

(** The loop over a list of notices, from any state. *)
Lemma loop_counters (keys : gset Recurrence.rkey) (as_of : datetime)
    (ns : list RawNotice) :
  forall a : acc,
    let a' := fold_left (step keys as_of) ns a in
    acc_by_work_type a'
    = fold_left (fun d k => bump k d) (map Notice.work_type ns)
                (acc_by_work_type a)
    /\ acc_by_category a'
       = fold_left (fun d k => bump k d)
                   (map (category_of U) (List.filter (matched U) ns))
                   (acc_by_category a)
    /\ length (leads a')
       = (length (leads a) + length (List.filter (matched U) ns))%nat.
Proof.
  induction ns as [|n ns IH]; intros a; cbn [fold_left map List.filter].
  - repeat split. cbn [length]. lia.
  - destruct (IH (step keys as_of a n)) as (Hw & Hc & Hl).
    cbn zeta in *. rewrite Hw, Hc, Hl. clear Hw Hc Hl IH.
    unfold step, matched, category_of.
    destruct (rejected _); cbn [negb acc_by_work_type acc_by_category leads
                                map fold_left length].
    + repeat split.
    + repeat split. rewrite length_app. cbn [length]. lia.
Qed.

Lemma run_loop_counters (ns : list RawNotice) (as_of : datetime) :
  acc_by_work_type (run_loop ns as_of) = tally (map Notice.work_type ns)
  /\ acc_by_category (run_loop ns as_of)
     = tally (map (category_of U) (List.filter (matched U) ns))
  /\ length (leads (run_loop ns as_of))
     = length (List.filter (matched U) ns).
Proof.
  unfold run_loop, Leads.run_loop.
  destruct (loop_counters (Recurrence._find_repeated_titles U ns) as_of ns
              {| leads := []; acc_by_category := ∅; acc_by_work_type := ∅;
                 position := 0 |}) as (Hw & Hc & Hl).
  cbn zeta in *. cbn [acc_by_work_type acc_by_category leads length] in *.
  rewrite Hw, Hc, Hl. repeat split.
Qed.

(** The identity of a lead, and of the notice it was built from. *)
Lemma make_lead_identity (keys : gset Recurrence.rkey) (as_of : datetime)
    (i : nat) (n : RawNotice) :
  let l := make_lead U log10 strptime strftime format_commas clock
                     keys as_of i n in
  (bid_ntce_no l, bid_ntce_ord l, notice_title l)
  = (Notice.bid_ntce_no n, Notice.bid_ntce_ord n, Notice.notice_title n).
Proof.
  unfold make_lead.
  destruct (Classifier.match_category U (Notice.notice_title n)) as [[c s] h].
  reflexivity.
Qed.

Lemma loop_order (keys : gset Recurrence.rkey) (as_of : datetime)
    (ns : list RawNotice) :
  forall a : acc,
    map (fun l => (bid_ntce_no l, bid_ntce_ord l, notice_title l))
        (leads (fold_left (step keys as_of) ns a))
    = map (fun l => (bid_ntce_no l, bid_ntce_ord l, notice_title l)) (leads a)
      ++ map (fun n => (Notice.bid_ntce_no n, Notice.bid_ntce_ord n,
                        Notice.notice_title n))
             (List.filter (matched U) ns).
Proof.
  induction ns as [|n ns IH]; intros a; cbn [fold_left map List.filter].
  - now rewrite app_nil_r.
  - rewrite IH. unfold Leads.step, matched. cbn [List.filter].
    destruct (rejected _); cbn [negb leads map].
    + reflexivity.
    + rewrite map_app. cbn [map]. rewrite <- app_assoc. cbn [app].
      do 2 f_equal. apply make_lead_identity.
Qed.
End WithEnvironment.

(** C5. The statistics of [build_leads] do not depend on [top_n]: the
    total is the number of notices; the matched count is the number of
    notices whose category is a positive match; the counter by work type
    counts every notice under its work type, and the counter by category
    counts every matched notice under its category; and with [top_n = 0]
    the list of leads is empty. *)
Theorem build_leads_stats (U : unicode_db) (log10 : Q -> Q)
    (strptime : str -> str -> option datetime)
    (strftime : datetime -> str -> str) (format_commas : Z -> str)
    (clock : nat -> datetime)
    (notices : list RawNotice) (as_of_date : datetime) (top_n : Z) :
  let stats :=
    snd (build_leads U log10 strptime strftime format_commas clock
                     notices as_of_date top_n) in
  total_notices stats = length notices
  /\ matched_notices stats = length (List.filter (matched U) notices)
  /\ (forall w : str,
        by_work_type stats !! w = counted w (map Notice.work_type notices))
  /\ (forall c : str,
        by_category stats !! c
        = counted c (map (category_of U) (List.filter (matched U) notices)))
  /\ (forall n : Z,
        snd (build_leads U log10 strptime strftime format_commas clock
                         notices as_of_date n) = stats)
  /\ fst (build_leads U log10 strptime strftime format_commas clock
                      notices as_of_date 0) = [].
Proof.
  cbn zeta. unfold build_leads. cbn [fst snd total_notices matched_notices
                                     by_work_type by_category].
  destruct (run_loop_counters U log10 strptime strftime format_commas clock
              notices as_of_date) as (Hw & Hc & Hl).
  split; [reflexivity|].
  split.
  { rewrite (Permutation_length (sort_desc_perm _)). exact Hl. }
  split; [intros w; rewrite Hw; apply tally_lookup|].
  split; [intros c; rewrite Hc; apply tally_lookup|].
  split; reflexivity.
Qed.

(** C6. For [top_n >= 0] the leads returned by [build_leads] are the first
    [top_n] of the constructed leads sorted by score: at most [top_n] of
    them, in descending order of the score; the sorted list is a
    permutation of the constructed leads in which the leads of one score
    keep the order of construction, which is the order of the matched
    notices in the input; and of every score the returned list holds the
    leads that were constructed first. *)
Theorem build_leads_ranking (U : unicode_db) (log10 : Q -> Q)
    (strptime : str -> str -> option datetime)
    (strftime : datetime -> str -> str) (format_commas : Z -> str)
    (clock : nat -> datetime)
    (notices : list RawNotice) (as_of_date : datetime) (top_n : Z) :
  (0 <= top_n)%Z ->
  let selected :=
    fst (build_leads U log10 strptime strftime format_commas clock
                     notices as_of_date top_n) in
  let made :=
    constructed U log10 strptime strftime format_commas clock
                notices as_of_date in
  selected = firstn (Z.to_nat top_n) (sort_desc made)
  /\ (Z.of_nat (length selected) <= top_n)%Z
  /\ StronglySorted desc selected
  /\ StronglySorted desc (sort_desc made)
  /\ Permutation (sort_desc made) made
  /\ (forall s : Z, with_score s (sort_desc made) = with_score s made)
  /\ (forall s : Z, exists rest : list LeadRecord,
        with_score s made = with_score s selected ++ rest)
  /\ map (fun l => (bid_ntce_no l, bid_ntce_ord l, notice_title l)) made
     = map (fun n => (Notice.bid_ntce_no n, Notice.bid_ntce_ord n,
                      Notice.notice_title n))
           (List.filter (matched U) notices).
Proof.
  intros Hn. cbn zeta. unfold build_leads, constructed. cbn [fst].
  rewrite slice_to_nonneg by exact Hn.
  set (made := leads (run_loop U log10 strptime strftime format_commas clock
                               notices as_of_date)).
  split; [reflexivity|].
  split.
  { pose proof (firstn_le_length (Z.to_nat top_n) (sort_desc made)). lia. }
  split; [apply firstn_sorted, sort_desc_sorted|].
  split; [apply sort_desc_sorted|].
  split; [apply sort_desc_perm|].
  split; [intros s; apply sort_desc_stable|].
  split.
  - intros s. exists (with_score s (skipn (Z.to_nat top_n) (sort_desc made))).
    rewrite <- (sort_desc_stable s made).
    rewrite <- (firstn_skipn (Z.to_nat top_n) (sort_desc made)) at 1.
    unfold with_score. apply List.filter_app.
  - unfold made, run_loop. rewrite loop_order. reflexivity.
Qed.

(** A batch of four: the leads are made with the scores 47, 57 and 47, the
    sort puts the second notice first and keeps the first before the
    fourth, and the first two are returned. *)
Lemma build_leads_ranking_witness :
  let selected :=
    fst (build_leads Classifier.basic_unicode Scorer.log10_floor
           (fun _ _ => None) (fun _ _ => []) (fun _ => []) (fun _ => 0%Z)
           ranking_batch 0%Z 2%Z) in
  let made :=
    constructed Classifier.basic_unicode Scorer.log10_floor
           (fun _ _ => None) (fun _ _ => []) (fun _ => []) (fun _ => 0%Z)
           ranking_batch 0%Z in
  (selected = firstn (Z.to_nat 2) (sort_desc made)
   /\ (Z.of_nat (length selected) <= 2)%Z
   /\ StronglySorted desc selected
   /\ StronglySorted desc (sort_desc made)
   /\ Permutation (sort_desc made) made
   /\ (forall s : Z, with_score s (sort_desc made) = with_score s made)
   /\ (forall s : Z, exists rest : list LeadRecord,
         with_score s made = with_score s selected ++ rest)
   /\ map (fun l => (bid_ntce_no l, bid_ntce_ord l, notice_title l)) made
      = map (fun n => (Notice.bid_ntce_no n, Notice.bid_ntce_ord n,
                       Notice.notice_title n))
            (List.filter (matched Classifier.basic_unicode) ranking_batch))
  /\ map (fun l => (bid_ntce_no l, urgency_score l)) made
     = [(u "1", 47%Z); (u "2", 57%Z); (u "4", 47%Z)]
  /\ map (fun l => (bid_ntce_no l, urgency_score l)) (sort_desc made)
     = [(u "2", 57%Z); (u "1", 47%Z); (u "4", 47%Z)]
  /\ map (fun l => (bid_ntce_no l, urgency_score l)) selected
     = [(u "2", 57%Z); (u "1", 47%Z)].
Proof.
  split.
  - apply (@build_leads_ranking Classifier.basic_unicode Scorer.log10_floor
             (fun _ _ => None) (fun _ _ => []) (fun _ => []) (fun _ => 0%Z)
             ranking_batch 0%Z 2%Z).
    lia.
  - vm_compute. repeat split; reflexivity.
Defined.

(** Scenario D of the specification, with a [strptime] that parses
    nothing: one lead is returned, three notices are counted, two of them
    matched. *)
Example scenario_D :
  let r := build_leads Classifier.basic_unicode Scorer.log10_floor
             (fun _ _ => None) (fun _ _ => []) (fun _ => []) (fun _ => 0%Z)
             example_batch 0%Z 1%Z in
  length (fst r) = 1%nat
  /\ total_notices (snd r) = 3%nat
  /\ matched_notices (snd r) = 2%nat
  /\ map urgency_score (fst r) = [57%Z].
Proof. vm_compute. repeat split; reflexivity. Qed.

End LeadsFacts.

(** ** More on the scorer: edges and monotonicity *)

Module ScorerLaws.
Import Num NumFacts Datetime Scorer ScorerFacts Log10.
Local Open Scope Q_scope.

Lemma clampZ_mono (x y : Z) :
  (x <= y)%Z -> (clampZ 0 100 x <= clampZ 0 100 y)%Z.
Proof. unfold clampZ. lia. Qed.

(** The score is monotone in the weighted sum. *)
Lemma score_mono (x y : Q) :
  x <= y ->
  (round_half_even (py_max 0.0 (py_min 100.0 x))
   <= round_half_even (py_max 0.0 (py_min 100.0 y)))%Z.
Proof.
  intros H. rewrite !round_clamp. now apply clampZ_mono, round_mono.
Qed.

Lemma score_comp (x y : Q) :
  x == y ->
  round_half_even (py_max 0.0 (py_min 100.0 x))
  = round_half_even (py_max 0.0 (py_min 100.0 y)).
Proof.
  intros H. rewrite !round_clamp. f_equal. now apply round_comp.
Qed.

Lemma days_left_within_a_day (now d : datetime) :
  (d - now < US_PER_DAY)%Z -> Z.max (days_between d now) 0 = 0%Z.
Proof.
  intros H. unfold days_between.
  assert ((d - now) / US_PER_DAY < 1)%Z
    by (apply Z.div_lt_upper_bound; [reflexivity | lia]).
  lia.
Qed.

Lemma days_left_in_a_week (now d : datetime) :
  (7 * US_PER_DAY <= d - now < 8 * US_PER_DAY)%Z ->
  Z.max (days_between d now) 0 = 7%Z.
Proof.
  intros H. unfold days_between, US_PER_DAY in *.
  assert ((d - now) / 86400000000 = 7)%Z
    by (Z.div_mod_to_equations; lia).
  lia.
Qed.

(** X1. A deadline that is less than one day ahead of now, or that has
    passed, scores as a deadline at this very instant: the whole days left
    are floored, and a negative count is raised to zero. *)
Theorem overdue_deadline_scores_as_today (log10 : Q -> Q)
    (now d : datetime) (b : option Q) (r : bool)
    (agency_weight fit_weight : Q) :
  (d - now < US_PER_DAY)%Z ->
  urgency_score log10 now (Some d) b r agency_weight fit_weight
  = urgency_score log10 now (Some now) b r agency_weight fit_weight.
Proof.
  intros H. unfold urgency_score, raw_score. cbn [deadline_score].
  rewrite (@days_left_within_a_day now d H).
  rewrite (@days_left_within_a_day now now) by (unfold US_PER_DAY; lia).
  reflexivity.
Qed.

Lemma overdue_deadline_scores_as_today_witness :
  urgency_score log10_floor 1000%Z (Some 0%Z) (Some 5000000%Q) true
                0.6 0.8
  = urgency_score log10_floor 1000%Z (Some 1000%Z) (Some 5000000%Q) true
                  0.6 0.8.
Proof.
  apply (@overdue_deadline_scores_as_today log10_floor 1000%Z 0%Z).
  reflexivity.
Defined.

(** X2. A notice without a deadline scores as one whose deadline is seven
    days ahead: for every deadline at least 7 and less than 8 days after
    now the two scores are equal, whatever the other arguments. *)
Theorem missing_deadline_scores_as_a_week (log10 : Q -> Q)
    (now d : datetime) (b : option Q) (r : bool)
    (agency_weight fit_weight : Q) :
  (7 * US_PER_DAY <= d - now < 8 * US_PER_DAY)%Z ->
  urgency_score log10 now None b r agency_weight fit_weight
  = urgency_score log10 now (Some d) b r agency_weight fit_weight.
Proof.
  intros H. unfold urgency_score. apply score_comp.
  unfold raw_score. cbn [deadline_score].
  rewrite (@days_left_in_a_week now d H).
  assert (E : 1.0 / (1.0 + inject_Z 7 / 7.0) == 0.5) by reflexivity.
  rewrite E. reflexivity.
Qed.

Lemma missing_deadline_scores_as_a_week_witness :
  urgency_score log10_floor 0%Z None None false 0.6 0.8
  = urgency_score log10_floor 0%Z (Some (7 * US_PER_DAY)%Z) None false 0.6 0.8.
Proof.
  apply (@missing_deadline_scores_as_a_week log10_floor 0%Z (7 * US_PER_DAY)%Z).
  split; [apply Z.leb_le | apply Z.ltb_lt]; reflexivity.
Defined.

Section Monotone.
Variable log10 : Q -> Q.
Hypothesis log10_mono : forall x y : Q, x <= y -> log10 x <= log10 y.

Lemma deadline_score_antitone (now d1 d2 : datetime) :
  (d1 <= d2)%Z ->
  deadline_score now (Some d2) <= deadline_score now (Some d1).
Proof.
  intros Hle. cbn [deadline_score]. apply decay_antitone.
  split; [lia|].
  apply Z.max_le_compat_r. unfold days_between.
  apply Z.div_le_mono; [reflexivity | lia].
Qed.

Lemma budget_score_mono (b1 b2 : Q) :
  0 < b1 -> b1 <= b2 ->
  budget_score log10 (Some b1) <= budget_score log10 (Some b2).
Proof.
  intros H1 Hle. cbn [budget_score].
  replace (truthy b1 && Qlt_bool 0 b1) with true
    by (symmetry; apply positive_budget; lra).
  replace (truthy b2 && Qlt_bool 0 b2) with true
    by (symmetry; apply positive_budget; lra).
  assert (HL : log10 (b1 + 1.0) / 9.0 <= log10 (b2 + 1.0) / 9.0).
  { assert (H : log10 (b1 + 1.0) <= log10 (b2 + 1.0))
      by (apply log10_mono; lra).
    unfold Qdiv. change (/ 9.0) with (10 # 90). lra. }
  destruct (py_min_1_spec (log10 (b1 + 1.0) / 9.0)) as [[? ->] | [? ->]];
    destruct (py_min_1_spec (log10 (b2 + 1.0) / 9.0)) as [[? ->] | [? ->]];
    lra.
Qed.
End Monotone.

(** X3. With a monotone logarithm, [urgency_score] is monotone in each
    argument on its own: it does not rise when the deadline moves away, and
    it does not fall when a positive budget grows, when the repeat flag is
    set, or when the agency and fit weights grow. *)
Theorem urgency_score_monotone (log10 : Q -> Q)
    (log10_mono : forall x y : Q, x <= y -> log10 x <= log10 y)
    (now : datetime) (d : option datetime) (b : option Q) (r : bool)
    (aw fw : Q) :
  (forall d1 d2 : datetime,
      (d1 <= d2)%Z ->
      (urgency_score log10 now (Some d2) b r aw fw
       <= urgency_score log10 now (Some d1) b r aw fw)%Z)
  /\ (forall b1 b2 : Q,
        0 < b1 -> b1 <= b2 ->
        (urgency_score log10 now d (Some b1) r aw fw
         <= urgency_score log10 now d (Some b2) r aw fw)%Z)
  /\ (urgency_score log10 now d b false aw fw
      <= urgency_score log10 now d b true aw fw)%Z
  /\ (forall aw' fw' : Q,
        aw <= aw' -> fw <= fw' ->
        (urgency_score log10 now d b r aw fw
         <= urgency_score log10 now d b r aw' fw')%Z).
Proof.
  split; [|split; [|split]].
  - intros d1 d2 Hle. unfold urgency_score. apply score_mono.
    pose proof (@deadline_score_antitone now d1 d2 Hle) as H.
    rewrite !raw_score_eq. lra.
  - intros b1 b2 H1 Hle. unfold urgency_score. apply score_mono.
    pose proof (@budget_score_mono log10 log10_mono b1 b2 H1 Hle) as H.
    rewrite !raw_score_eq. lra.
  - unfold urgency_score. apply score_mono.
    rewrite !raw_score_eq, repeat_score_true, repeat_score_false. lra.
  - intros aw' fw' Ha Hf. unfold urgency_score. apply score_mono.
    rewrite !raw_score_eq. lra.
Qed.

Lemma urgency_score_monotone_witness :
  (forall d1 d2 : datetime,
      (d1 <= d2)%Z ->
      (urgency_score log10_floor 0%Z (Some d2) None false 0.6 0.8
       <= urgency_score log10_floor 0%Z (Some d1) None false 0.6 0.8)%Z)
  /\ (forall b1 b2 : Q,
        0 < b1 -> b1 <= b2 ->
        (urgency_score log10_floor 0%Z None (Some b1) false 0.6 0.8
         <= urgency_score log10_floor 0%Z None (Some b2) false 0.6 0.8)%Z)
  /\ (urgency_score log10_floor 0%Z None None false 0.6 0.8
      <= urgency_score log10_floor 0%Z None None true 0.6 0.8)%Z
  /\ (forall aw' fw' : Q,
        0.6 <= aw' -> 0.8 <= fw' ->
        (urgency_score log10_floor 0%Z None None false 0.6 0.8
         <= urgency_score log10_floor 0%Z None None false aw' fw')%Z).
Proof.
  apply (@urgency_score_monotone log10_floor log10_floor_mono 0%Z None None
           false 0.6 0.8).
Defined.

(** X4. With the default weights and a logarithm that is monotone, not
    negative from 1 on and at most 4 at 10000: a budget that is zero or
    negative scores as no budget at all, and a positive budget of at most
    9999 scores strictly below both. *)
Theorem small_budget_scores_below_none (log10 : Q -> Q)
    (log10_nonneg : forall x : Q, 1 <= x -> 0 <= log10 x)
    (log10_mono : forall x y : Q, x <= y -> log10 x <= log10 y)
    (log10_10000 : log10 10000 <= 4)
    (now : datetime) (d : option datetime) (b z : Q) (r : bool) :
  0 < b -> b <= 9999 -> z <= 0 ->
  urgency_score_default log10 now d (Some z) r
  = urgency_score_default log10 now d None r
  /\ (urgency_score_default log10 now d (Some b) r
      < urgency_score_default log10 now d (Some z) r)%Z.
Proof.
  intros H0 H1 Hz.
  assert (Ez : urgency_score_default log10 now d (Some z) r
               = urgency_score_default log10 now d None r).
  { unfold urgency_score_default, urgency_score, raw_score.
    cbn [budget_score].
    apply positive_budget_false in Hz. rewrite Hz. reflexivity. }
  split; [exact Ez|]. rewrite Ez.
  rewrite !default_score_unclamped by exact log10_nonneg.
  assert (Hb : budget_score log10 (Some b) <= 4 # 9).
  { cbn [budget_score].
    replace (truthy b && Qlt_bool 0 b) with true
      by (symmetry; apply positive_budget; lra).
    assert (HL : log10 (b + 1.0) <= 4).
    { apply Qle_trans with (log10 10000); [|exact log10_10000].
      apply log10_mono. lra. }
    assert (HL9 : log10 (b + 1.0) / 9.0 <= 4 # 9).
    { unfold Qdiv. change (/ 9.0) with (10 # 90). lra. }
    set (x := log10 (b + 1.0) / 9.0) in *.
    destruct (py_min_1_spec x) as [[? ->] | [? ->]]; lra. }
  assert (Hgap : raw_score log10 now d (Some b) r 0.6 0.8 + (5 # 4)
                 <= raw_score log10 now d None r 0.6 0.8).
  { rewrite !raw_score_eq.
    change (budget_score log10 None) with 0.5. lra. }
  destruct (round_near (raw_score log10 now d (Some b) r 0.6 0.8)) as [Hf _].
  destruct (round_near (raw_score log10 now d None r 0.6 0.8)) as [_ Hn].
  rewrite Zlt_Qlt. lra.
Qed.

(** A budget of 5000 against a budget of 0. *)
Lemma small_budget_scores_below_none_witness :
  urgency_score_default log10_floor 0%Z None (Some 0%Q) false
  = urgency_score_default log10_floor 0%Z None None false
  /\ (urgency_score_default log10_floor 0%Z None (Some 5000%Q) false
      < urgency_score_default log10_floor 0%Z None (Some 0%Q) false)%Z.
Proof.
  apply (@small_budget_scores_below_none log10_floor log10_floor_nonneg
           log10_floor_mono).
  - vm_compute. discriminate.
  - reflexivity.
  - vm_compute. discriminate.
  - discriminate.
Defined.

(** X5. With a monotone logarithm that is at least 9 at 1000000000, all
    budgets from 999999999 on score alike: the budget component is
    saturated. *)
Theorem large_budgets_score_alike (log10 : Q -> Q)
    (log10_mono : forall x y : Q, x <= y -> log10 x <= log10 y)
    (log10_billion : 9 <= log10 1000000000)
    (now : datetime) (d : option datetime) (b1 b2 : Q) (r : bool)
    (agency_weight fit_weight : Q) :
  999999999 <= b1 -> 999999999 <= b2 ->
  urgency_score log10 now d (Some b1) r agency_weight fit_weight
  = urgency_score log10 now d (Some b2) r agency_weight fit_weight.
Proof.
  assert (Hsat : forall b : Q, 999999999 <= b ->
                   budget_score log10 (Some b) = 1.0).
  { intros b Hb. cbn [budget_score].
    replace (truthy b && Qlt_bool 0 b) with true
      by (symmetry; apply positive_budget; lra).
    assert (HL : 9 <= log10 (b + 1.0)).
    { apply Qle_trans with (log10 1000000000); [exact log10_billion|].
      apply log10_mono. lra. }
    unfold py_min.
    replace (Qle_bool 1.0 (log10 (b + 1.0) / 9.0)) with true; [reflexivity|].
    symmetry. apply Qle_bool_iff.
    unfold Qdiv. change (/ 9.0) with (10 # 90). lra. }
  intros H1 H2. unfold urgency_score, raw_score.
  now rewrite (Hsat b1 H1), (Hsat b2 H2).
Qed.

Lemma log10_upper_mono (x y : Q) : x <= y -> log10_upper x <= log10_upper y.
Proof.
  intros H. unfold log10_upper. rewrite <- Zle_Qle.
  apply Z.div_le_mono; [lia|].
  apply Z.mul_le_mono_nonneg_r; [lia|].
  apply Z.add_le_mono_r.
  apply Z.log2_le_mono. now apply Qfloor_resp_le.
Qed.

Lemma large_budgets_score_alike_witness :
  urgency_score log10_upper 0%Z None (Some 1000000000%Q) false 0.6 0.8
  = urgency_score log10_upper 0%Z None (Some 2000000000%Q) false 0.6 0.8.
Proof.
  apply (@large_budgets_score_alike log10_upper log10_upper_mono).
  - vm_compute. discriminate.
  - vm_compute. discriminate.
  - vm_compute. discriminate.
Defined.

End ScorerLaws.

(** ** More on the classifier: whitespace and keywords *)

Module StrFacts.

Section Strip.
Variable U : unicode_db.

Lemma lstrip_spaces (ws s : str) :
  Forall (fun c => is_space U c = true) ws -> lstrip U (ws ++ s) = lstrip U s.
Proof.
  induction 1 as [|c ws Hc _ IH]; [reflexivity|].
  cbn [app lstrip]. now rewrite Hc.
Qed.

Lemma lstrip_app_spaces (s ws : str) :
  Forall (fun c => is_space U c = true) ws ->
  lstrip U (s ++ ws)
  = match lstrip U s with [] => [] | _ :: _ => lstrip U s ++ ws end.
Proof.
  intros Hws. induction s as [|c s IH]; cbn [app lstrip].
  - rewrite <- (app_nil_r ws) at 1. now rewrite lstrip_spaces.
  - destruct (is_space U c); [exact IH | reflexivity].
Qed.

Lemma Forall_rev_spaces (ws : str) :
  Forall (fun c => is_space U c = true) ws ->
  Forall (fun c => is_space U c = true) (rev ws).
Proof. intros H. apply Forall_rev. exact H. Qed.

(** Whitespace around a string does not change what [strip] answers. *)
Lemma strip_spaces (ws1 s ws2 : str) :
  Forall (fun c => is_space U c = true) ws1 ->
  Forall (fun c => is_space U c = true) ws2 ->
  strip U (ws1 ++ s ++ ws2) = strip U s.
Proof.
  intros H1 H2. unfold strip.
  rewrite (lstrip_spaces _ H1), (lstrip_app_spaces _ H2).
  destruct (lstrip U s) as [|c t] eqn:E; [reflexivity|].
  rewrite rev_app_distr.
  now rewrite (lstrip_spaces _ (Forall_rev_spaces H2)).
Qed.

Lemma lstrip_head (s : str) :
  match lstrip U s with
  | [] => True
  | c :: _ => is_space U c = false
  end.
Proof.
  induction s as [|c s IH]; cbn [lstrip]; [exact I|].
  destruct (is_space U c) eqn:E; [exact IH | exact E].
Qed.

Lemma lstrip_fixed (s : str) :
  match s with [] => True | c :: _ => is_space U c = false end ->
  lstrip U s = s.
Proof. destruct s as [|c s]; cbn [lstrip]; [reflexivity|]. now intros ->. Qed.

Lemma lstrip_idem (s : str) : lstrip U (lstrip U s) = lstrip U s.
Proof. apply lstrip_fixed, lstrip_head. Qed.

Lemma lstrip_suffix (s : str) : exists ws, s = ws ++ lstrip U s
  /\ Forall (fun c => is_space U c = true) ws.
Proof.
  induction s as [|c s (ws & E & H)]; cbn [lstrip].
  - exists []. split; [reflexivity | constructor].
  - destruct (is_space U c) eqn:Hc.
    + exists (c :: ws). split; [cbn [app]; now f_equal | now constructor].
    + exists []. split; [reflexivity | constructor].
Qed.

(** A string is its stripped part between two runs of whitespace. *)
Lemma strip_split (s : str) :
  exists ws1 ws2,
    s = ws1 ++ strip U s ++ ws2
    /\ Forall (fun c => is_space U c = true) ws1
    /\ Forall (fun c => is_space U c = true) ws2.
Proof.
  destruct (lstrip_suffix s) as (ws1 & E1 & H1).
  destruct (lstrip_suffix (rev (lstrip U s))) as (ws2 & E2 & H2).
  exists ws1, (rev ws2). unfold strip.
  split; [|split; [exact H1 | now apply Forall_rev_spaces]].
  rewrite <- rev_app_distr, <- E2, rev_involutive. exact E1.
Qed.

Lemma strip_idem (s : str) : strip U (strip U s) = strip U s.
Proof.
  destruct (strip_split s) as (ws1 & ws2 & E & H1 & H2).
  rewrite E at 2. now rewrite strip_spaces.
Qed.
End Strip.
End StrFacts.

Module SearchFacts.
Import Re Search.

Section Engine.
Variable U : unicode_db.
Variable ignorecase : bool.

Lemma search_from_hit (r : regex) (prev : option char) (s : str) :
  search_from U ignorecase r prev s
  = hit (match_here U ignorecase r prev s)
    || match s with
       | [] => false
       | c :: s' => search_from U ignorecase r (Some c) s'
       end.
Proof.
  destruct s as [|c s']; cbn [search_from];
    destruct (match_here U ignorecase r prev _); reflexivity.
Qed.

Lemma match_here_alt (a b : regex) (prev : option char) (s : str) :
  hit (match_here U ignorecase (Alt a b) prev s)
  = hit (match_here U ignorecase a prev s)
    || hit (match_here U ignorecase b prev s).
Proof.
  unfold match_here. cbn [rmatch].
  destruct (rmatch U ignorecase a prev s _); reflexivity.
Qed.

(** A search for [a|b] succeeds when a search for [a] or one for [b]
    does. *)
Lemma search_from_alt (a b : regex) (s : str) :
  forall prev : option char,
    search_from U ignorecase (Alt a b) prev s
    = search_from U ignorecase a prev s || search_from U ignorecase b prev s.
Proof.
  induction s as [|c s IH]; intros prev;
    rewrite (search_from_hit (Alt a b)), (search_from_hit a),
      (search_from_hit b), match_here_alt.
  - now rewrite !orb_false_r.
  - rewrite IH.
    destruct (hit (match_here U ignorecase a prev (c :: s)));
      destruct (hit (match_here U ignorecase b prev (c :: s)));
      destruct (search_from U ignorecase a (Some c) s);
      destruct (search_from U ignorecase b (Some c) s); reflexivity.
Qed.

Lemma search_alt (a b : regex) (s : str) :
  search U ignorecase (Alt a b) s
  = search U ignorecase a s || search U ignorecase b s.
Proof. apply search_from_alt. Qed.

(** Where a literal matches, so does each of its prefixes. *)
Lemma match_lit_prefix (A B : Type) (p q : str) :
  forall (prev : option char) (s : str)
         (k : option char -> str -> option A)
         (k' : option char -> str -> option B),
    (forall p' s', hit (k' p' s') = true) ->
    hit (rmatch U ignorecase (lit (p ++ q)) prev s k) = true ->
    hit (rmatch U ignorecase (lit p) prev s k') = true.
Proof.
  induction p as [|c p IH]; intros prev s k k' Hk' H.
  - cbn [lit rmatch]. apply Hk'.
  - cbn [app lit rmatch] in *.
    destruct s as [|x s']; [discriminate H|].
    destruct (chr_match U ignorecase x c); [|discriminate H].
    now apply (IH (Some x) s' k k').
Qed.

Lemma search_from_lit_prefix (p q : str) (s : str) :
  forall prev : option char,
    search_from U ignorecase (lit (p ++ q)) prev s = true ->
    search_from U ignorecase (lit p) prev s = true.
Proof.
  induction s as [|c s IH]; intros prev;
    rewrite (search_from_hit (lit (p ++ q))), (search_from_hit (lit p));
    intros H; apply orb_true_iff in H as [H | H]; apply orb_true_iff.
  - left. unfold match_here in *.
    eapply match_lit_prefix; [intros; reflexivity | exact H].
  - discriminate H.
  - left. unfold match_here in *.
    eapply match_lit_prefix; [intros; reflexivity | exact H].
  - right. now apply IH.
Qed.

Lemma search_lit_prefix (p q s : str) :
  search U ignorecase (lit (p ++ q)) s = true ->
  search U ignorecase (lit p) s = true.
Proof. apply search_from_lit_prefix. Qed.
End Engine.
End SearchFacts.

Module ClassifierLaws.
Import Re Classifier ClassifierFacts StrFacts Search SearchFacts.

Section WithUnicode.
Variable U : unicode_db.

Lemma in_hits (pat : regex) (txt : str) :
  In pat (include_hits U txt) -> search_i U pat txt = true.
Proof. unfold include_hits. intros H. now apply filter_In in H. Qed.

Lemma search_OD_RE (txt : str) :
  search_i U OD_RE txt
  = search_i U (lit (u "조직진단")) txt || search_i U (lit (u "조직문화")) txt
    || search_i U (Seq WordB (Seq (lit (u "OD")) WordB)) txt
    || search_i U (lit (u "변화관리")) txt.
Proof.
  unfold search_i, OD_RE. cbn [alts].
  rewrite !search_alt. now rewrite !orb_assoc.
Qed.

Lemma search_EVAL_RE (txt : str) :
  search_i U EVAL_RE txt
  = search_i U (lit (u "평가")) txt || search_i U (lit (u "성과")) txt
    || search_i U (lit (u "역량모델")) txt
    || search_i U (lit (u "직무체계")) txt
    || search_i U (lit (u "인사제도")) txt.
Proof.
  unfold search_i, EVAL_RE. cbn [alts].
  rewrite !search_alt. now rewrite !orb_assoc.
Qed.

(** The shape of an answer of [match_category]. *)
Lemma match_category_cases (title : str) :
  let txt := strip U title in
  match_category U title = (CAT_UNASSIGNED, 0.0%Q, [])
  \/ match_category U title = (CAT_NOT_APPLICABLE, 0.0%Q, [])
  \/ (match_category U title = (CAT_HOLD, 0.45%Q, include_hits U txt)
      /\ include_hits U txt <> [])
  \/ (match_category U title = (CAT_OD, 0.84%Q, include_hits U txt)
      /\ include_hits U txt <> [] /\ search_i U OD_RE txt = true)
  \/ (match_category U title = (CAT_EVAL, 0.78%Q, include_hits U txt)
      /\ include_hits U txt <> [] /\ search_i U OD_RE txt = false
      /\ search_i U EVAL_RE txt = true)
  \/ (match_category U title = (CAT_HRD, 0.72%Q, include_hits U txt)
      /\ include_hits U txt <> [] /\ search_i U OD_RE txt = false
      /\ search_i U EVAL_RE txt = false).
Proof.
  cbn zeta. unfold match_category.
  destruct (is_nil (strip U title)); [now left|].
  destruct (is_nil (include_hits U (strip U title))) eqn:Hinc;
    [right; now left|].
  assert (Hne : include_hits U (strip U title) <> []).
  { intros E. rewrite E in Hinc. discriminate Hinc. }
  destruct (negb _ && _); [right; right; left; now split|].
  destruct (search_i U OD_RE (strip U title)) eqn:Hod;
    [right; right; right; left; repeat split; assumption|].
  destruct (search_i U EVAL_RE (strip U title)) eqn:Hev.
  - right; right; right; right; left; repeat split; assumption.
  - right; right; right; right; right; repeat split; assumption.
Qed.
End WithUnicode.

(** X6. Whitespace around a title does not change its classification:
    with runs of whitespace before and after, or stripped, a title gets
    the category, the strength and the hits of the title itself. *)
Theorem match_category_ignores_outer_whitespace (U : unicode_db)
    (ws1 title ws2 : str) :
  Forall (fun c => is_space U c = true) ws1 ->
  Forall (fun c => is_space U c = true) ws2 ->
  match_category U (ws1 ++ title ++ ws2) = match_category U title
  /\ match_category U (strip U title) = match_category U title.
Proof.
  intros H1 H2. unfold match_category.
  rewrite (strip_spaces U title H1 H2), strip_idem. split; reflexivity.
Qed.

(** Two spaces before and a tab after a title of the test suite. *)
Lemma match_category_ignores_outer_whitespace_witness :
  match_category basic_unicode
    ([32%N; 32%N] ++ u "조직문화 진단 컨설팅" ++ [9%N])
  = match_category basic_unicode (u "조직문화 진단 컨설팅")
  /\ match_category basic_unicode
       (strip basic_unicode (u "조직문화 진단 컨설팅"))
     = match_category basic_unicode (u "조직문화 진단 컨설팅").
Proof.
  apply (@match_category_ignores_outer_whitespace basic_unicode).
  - repeat constructor.
  - repeat constructor.
Defined.

Lemma categories_distinct :
  NoDup [CAT_UNASSIGNED; CAT_NOT_APPLICABLE; CAT_HOLD; CAT_OD; CAT_EVAL;
         CAT_HRD].
Proof.
  repeat constructor; cbn [In]; intros H;
    repeat match goal with
           | H : _ \/ _ |- _ => destruct H as [H | H]
           | H : False |- _ => destruct H
           end; vm_compute in H; discriminate H.
Qed.

Lemma two_in_length (A : Type) (x y : A) (l : list A) :
  x <> y -> In x l -> In y l -> (2 <= length l)%nat.
Proof.
  intros Hne Hx Hy.
  destruct l as [|a [|b l]]; cbn [In length] in *; try lia; try tauto.
  destruct Hx as [<- | []], Hy as [<- | []]. congruence.
Qed.

(** X7. [match_category] answers one of six pairs of a category and a
    strength; its list of hits is empty exactly when the category is
    unassigned or not applicable; and the hits are always the include
    patterns that pass some test, in the order of the pattern list. *)
Theorem match_category_answers (U : unicode_db) (title : str) :
  In (fst (match_category U title))
     [ (CAT_UNASSIGNED, 0.0%Q); (CAT_NOT_APPLICABLE, 0.0%Q);
       (CAT_HOLD, 0.45%Q); (CAT_OD, 0.84%Q); (CAT_EVAL, 0.78%Q);
       (CAT_HRD, 0.72%Q) ]
  /\ (snd (match_category U title) = []
      <-> fst (fst (match_category U title)) = CAT_UNASSIGNED
          \/ fst (fst (match_category U title)) = CAT_NOT_APPLICABLE)
  /\ (exists keep : regex -> bool,
         snd (match_category U title) = filter keep INCLUDE_PATTERNS).
Proof.
  destruct (match_category_cases U title)
    as [E | [E | [[E Hne] | [[E [Hne _]] | [[E [Hne _]] | [E [Hne _]]]]]]];
    cbn zeta in *; rewrite E; cbn [fst snd In].
  - split; [tauto|]. split; [tauto|]. now exists (fun _ => false).
  - split; [tauto|]. split; [tauto|]. now exists (fun _ => false).
  - split; [tauto|]. split.
    + split; [contradiction|].
      intros [H | H]; vm_compute in H; discriminate H.
    + now exists (fun pat => search_i U pat (strip U title)).
  - split; [tauto|]. split.
    + split; [contradiction|].
      intros [H | H]; vm_compute in H; discriminate H.
    + now exists (fun pat => search_i U pat (strip U title)).
  - split; [tauto|]. split.
    + split; [contradiction|].
      intros [H | H]; vm_compute in H; discriminate H.
    + now exists (fun pat => search_i U pat (strip U title)).
  - split; [tauto|]. split.
    + split; [contradiction|].
      intros [H | H]; vm_compute in H; discriminate H.
    + now exists (fun pat => search_i U pat (strip U title)).
Qed.

(** X8. A title that hits one of the include patterns for organisation
    diagnosis, organisation culture or the word OD is classified as hold or
    as OD, never as evaluation or training; a title that hits the pattern
    for performance evaluation, evaluation system or personnel system is
    never classified as training. *)
Theorem keyword_decides_category (U : unicode_db) (title : str) :
  let category := fst (fst (match_category U title)) in
  let hits := snd (match_category U title) in
  (In (lit (u "조직진단")) hits \/ In (lit (u "조직문화")) hits
   \/ In (Seq WordB (Seq (lit (u "OD")) WordB)) hits ->
   category = CAT_HOLD \/ category = CAT_OD)
  /\ (In (lit (u "성과평가")) hits \/ In (lit (u "평가제도")) hits
      \/ In (lit (u "인사제도")) hits ->
      category = CAT_HOLD \/ category = CAT_OD \/ category = CAT_EVAL).
Proof.
  cbn zeta.
  destruct (match_category_cases U title)
    as [E | [E | [[E Hne] | [[E [Hne Hod]] | [[E [Hne [Hod Hev]]]
                                              | [E [Hne [Hod Hev]]]]]]]];
    cbn zeta in *; rewrite E; cbn [fst snd In]; try tauto.
  - (* evaluation: no organisation keyword among the hits *)
    split; [|tauto]. intros Hin. exfalso.
    rewrite search_OD_RE in Hod.
    repeat (apply orb_false_iff in Hod as [Hod ?]).
    destruct Hin as [Hin | [Hin | Hin]]; apply in_hits in Hin;
      congruence.
  - (* training: neither kind of keyword among the hits *)
    rewrite search_OD_RE in Hod. rewrite search_EVAL_RE in Hev.
    repeat (apply orb_false_iff in Hod as [Hod ?]).
    repeat (apply orb_false_iff in Hev as [Hev ?]).
    split; intros Hin; exfalso.
    + destruct Hin as [Hin | [Hin | Hin]]; apply in_hits in Hin;
        congruence.
    + destruct Hin as [Hin | [Hin | Hin]]; apply in_hits in Hin.
      * apply (search_lit_prefix U true (u "성과") (u "평가")) in Hin.
        unfold search_i in *. congruence.
      * apply (search_lit_prefix U true (u "평가") (u "제도")) in Hin.
        unfold search_i in *. congruence.
      * congruence.
Qed.

End ClassifierLaws.

(** ** More on the deduplicator: idempotence and batches *)

Module DedupLaws.
Import PyDict PyDictFacts Dedup DedupFacts Entries.

Section Dict.
Variables K V : Type.
Variable eq_dec : forall a b : K, {a = b} + {a <> b}.

Lemma set_new (k : K) (v : V) (d : dict K V) :
  ~ In k (keys d) -> set eq_dec k v d = d ++ [(k, v)].
Proof.
  unfold keys. induction d as [|[k' v'] d IH]; cbn [set map app In fst].
  - reflexivity.
  - intros Hnin. destruct (eq_dec k k') as [E|N].
    + exfalso. apply Hnin. left. congruence.
    + f_equal. apply IH. tauto.
Qed.
End Dict.

Lemma keys_entries (ns : list RawNotice) :
  keys (entries ns) = map notice_key ns.
Proof. unfold keys, entries. rewrite map_map. reflexivity. Qed.

Lemma values_entries (ns : list RawNotice) : values (entries ns) = ns.
Proof. unfold values, entries. rewrite map_map. apply map_id. Qed.

Lemma set_own_key (n : RawNotice) (ns : list RawNotice) :
  exists ms, set key_eq_dec (notice_key n) n (entries ns) = entries ms.
Proof.
  induction ns as [|m ns [ms IH]]; cbn [entries map set].
  - now exists [n].
  - destruct (key_eq_dec (notice_key n) (notice_key m)) as [E|N].
    + exists (n :: ns). cbn [entries map]. now rewrite E.
    + exists (m :: ms). cbn [entries map]. f_equal. exact IH.
Qed.

Lemma deduped_entries (ns : list RawNotice) :
  deduped ns = entries (dedupe_notices ns).
Proof.
  unfold dedupe_notices.
  induction ns as [|n ns IH] using rev_ind; [reflexivity|].
  rewrite deduped_snoc. rewrite IH.
  destruct (set_own_key n (values (deduped ns))) as [ms E].
  rewrite E. now rewrite values_entries.
Qed.

Lemma keys_dedupe (ns : list RawNotice) :
  map notice_key (dedupe_notices ns) = first_distinct (map notice_key ns).
Proof.
  rewrite <- keys_deduped, deduped_entries, keys_entries. reflexivity.
Qed.

Lemma deduped_distinct (ns : list RawNotice) :
  NoDup (map notice_key ns) -> deduped ns = entries ns.
Proof.
  induction ns as [|n ns IH] using rev_ind; [reflexivity|].
  intros Hnd. rewrite map_app in Hnd. cbn [map] in Hnd.
  apply NoDup_remove in Hnd as [Hnd Hnin]. rewrite app_nil_r in Hnd, Hnin.
  rewrite deduped_snoc, (IH Hnd).
  rewrite set_new by (now rewrite keys_entries).
  unfold entries. now rewrite map_app.
Qed.

(** X9. The notices that [dedupe_notices] returns have distinct keys; a
    list whose keys are distinct is returned as it is; and deduplicating
    twice is deduplicating once. *)
Theorem dedupe_notices_idempotent (notices : list RawNotice) :
  NoDup (map notice_key (dedupe_notices notices))
  /\ (NoDup (map notice_key notices) -> dedupe_notices notices = notices)
  /\ dedupe_notices (dedupe_notices notices) = dedupe_notices notices.
Proof.
  assert (Hid : forall ns, NoDup (map notice_key ns) -> dedupe_notices ns = ns).
  { intros ns Hnd. unfold dedupe_notices.
    now rewrite (deduped_distinct _ Hnd), values_entries. }
  assert (Hnd : NoDup (map notice_key (dedupe_notices notices))).
  { rewrite keys_dedupe. apply NoDup_first_distinct. }
  split; [exact Hnd|]. split; [apply Hid | now apply Hid].
Qed.

Lemma deduped_app (a b : list RawNotice) :
  deduped (a ++ b)
  = fold_left (fun d n => set key_eq_dec (notice_key n) n d) b (deduped a).
Proof. unfold deduped. now rewrite fold_left_app. Qed.

(** X10. Deduplication composes over batches: deduplicating a list is
    deduplicating its deduplicated first part followed by the rest. *)
Theorem dedupe_notices_app (first rest : list RawNotice) :
  dedupe_notices (first ++ rest)
  = dedupe_notices (dedupe_notices first ++ rest).
Proof.
  unfold dedupe_notices at 1 2. f_equal.
  rewrite !deduped_app. f_equal.
  rewrite (@deduped_distinct (dedupe_notices first)).
  - apply deduped_entries.
  - rewrite keys_dedupe. apply NoDup_first_distinct.
Qed.

End DedupLaws.

(** ** More on the fetcher: every run explained *)

Module FetcherLaws.
Import Fetcher FetcherFacts Runs.
Local Open Scope Z_scope.

Section Request.
Variables J E : Type.
Variable urlopen : nat -> response J E.

Lemma attempts_explained (k : nat) :
  (k < 4)%nat ->
  (forall i : nat, (i < k)%nat -> retryable (urlopen i)) ->
  forall last_error : option (exn E),
    explained urlopen (attempts urlopen (skipn k [1; 2; 3; 4]) last_error
                        (backoff k) k).
Proof.
  intros Hk.
  assert (Hpre : forall j, (j < 4)%nat ->
            (forall i : nat, (i < j)%nat -> retryable (urlopen i)) ->
            forall r : run J E,
              calls r = S j -> sleeps r = backoff j ->
              match result r with
              | Return _ payload => urlopen j = Parsed E payload
              | RaiseAuth _ _ code =>
                  urlopen j = HTTPError J E code /\ (code = 401 \/ code = 403)
              | Reraise _ _ code =>
                  urlopen j = HTTPError J E code
                  /\ code <> 401 /\ code <> 403 /\ code <> 429 /\ code < 500
              | RaiseFailed _ last_error =>
                  j = 3%nat /\ retryable (urlopen 3%nat)
                  /\ last_error = exn_of (urlopen 3%nat)
              end ->
              explained urlopen r).
  { intros j Hj Hretry r Hc Hs Hres. unfold explained.
    rewrite Hc. replace (S j - 1)%nat with j by lia.
    split; [lia|]. split; [exact Hs|]. split; [exact Hretry|].
    destruct (result r); try exact Hres.
    destruct Hres as (-> & H1 & H2). repeat split; assumption. }
  remember (4 - k)%nat as m eqn:Em. revert k Hk Em.
  induction m as [|m IH]; intros k Hk Em Hretry last_error; [lia|].
  rewrite skipn_attempts by exact Hk. cbn [attempts].
  destruct (urlopen k) as [payload | code | e] eqn:Hresp.
  - apply (Hpre k Hk Hretry); try reflexivity. exact Hresp.
  - destruct ((code =? 401) || (code =? 403)) eqn:Hauth.
    + apply (Hpre k Hk Hretry); try reflexivity. cbn [result].
      split; [exact Hresp|].
      apply orb_prop in Hauth as [H | H]; apply Z.eqb_eq in H; tauto.
    + apply orb_false_iff in Hauth as [H1 H3].
      apply Z.eqb_neq in H1, H3.
      destruct ((code =? 429) || (500 <=? code)) eqn:Hre.
      * assert (Hr : retryable (urlopen k)).
        { rewrite Hresp. cbn [retryable].
          apply orb_prop in Hre as [H | H];
            [apply Z.eqb_eq in H; now left | apply Z.leb_le in H; now right]. }
        destruct (Z.of_nat (S k) =? MAX_RETRIES) eqn:Hlast.
        -- apply Z.eqb_eq in Hlast. unfold MAX_RETRIES in Hlast.
           assert (k = 3%nat) by lia. subst k.
           apply (Hpre 3%nat Hk Hretry); try reflexivity. cbn [result].
           split; [reflexivity|]. split; [exact Hr|]. now rewrite Hresp.
        -- apply Z.eqb_neq in Hlast. unfold MAX_RETRIES in Hlast.
           replace (backoff k ++ [Z.min (2 ^ Z.of_nat (S k)) 8])
             with (backoff (S k)).
           ++ apply IH; try lia.
              intros i Hi. destruct (Nat.eq_dec i k) as [-> | Hne];
                [exact Hr | apply Hretry; lia].
           ++ unfold backoff. rewrite seq_S, map_app. reflexivity.
      * apply orb_false_iff in Hre as [H9 H5].
        apply Z.eqb_neq in H9. apply Z.leb_gt in H5.
        apply (Hpre k Hk Hretry); try reflexivity. cbn [result].
        repeat split; assumption.
  - assert (Hr : retryable (urlopen k)) by (rewrite Hresp; exact I).
    destruct (Z.of_nat (S k) =? MAX_RETRIES) eqn:Hlast.
    + apply Z.eqb_eq in Hlast. unfold MAX_RETRIES in Hlast.
      assert (k = 3%nat) by lia. subst k.
      apply (Hpre 3%nat Hk Hretry); try reflexivity. cbn [result].
      split; [reflexivity|]. split; [exact Hr|]. now rewrite Hresp.
    + apply Z.eqb_neq in Hlast. unfold MAX_RETRIES in Hlast.
      replace (backoff k ++ [Z.min (2 ^ Z.of_nat (S k)) 8])
        with (backoff (S k)).
      * apply IH; try lia.
        intros i Hi. destruct (Nat.eq_dec i k) as [-> | Hne];
          [exact Hr | apply Hretry; lia].
      * unfold backoff. rewrite seq_S, map_app. reflexivity.
Qed.
End Request.

(** X12. Whatever the server does, a run of [request_json] makes between
    one and four calls, sleeps 2, 4 and 8 seconds between them (14 at most
    in all), has met a retryable failure at every call but the last, and
    ends as the last response says: a document is returned, a status 401
    or 403 is the authorization error, another status below 500 that is
    not 429 is raised again, and the final failure comes only after the
    fourth call, with the error of that call. *)
Theorem request_json_explained (J E : Type) (urlopen : nat -> response J E) :
  let r := request_json urlopen in
  (1 <= calls r <= 4)%nat
  /\ sleeps r = firstn (calls r - 1) [2; 4; 8]
  /\ fold_right Z.add 0 (sleeps r) <= 14
  /\ (forall i : nat, (i < calls r - 1)%nat -> retryable (urlopen i))
  /\ match result r with
     | Return _ payload => urlopen (calls r - 1)%nat = Parsed E payload
     | RaiseAuth _ _ code =>
         urlopen (calls r - 1)%nat = HTTPError J E code
         /\ (code = 401 \/ code = 403)
     | Reraise _ _ code =>
         urlopen (calls r - 1)%nat = HTTPError J E code
         /\ code <> 401 /\ code <> 403 /\ code <> 429 /\ code < 500
     | RaiseFailed _ last_error =>
         calls r = 4%nat /\ retryable (urlopen 3%nat)
         /\ last_error = exn_of (urlopen 3%nat)
     end.
Proof.
  cbn zeta.
  pose proof (@attempts_explained J E urlopen 0%nat ltac:(lia)
                ltac:(intros i Hi; lia) None) as H.
  change (attempts urlopen (skipn 0 [1; 2; 3; 4]) None (backoff 0) 0)
    with (request_json urlopen) in H.
  destruct H as (Hc & Hs & Hr & Hres).
  split; [exact Hc|].
  assert (Hb : backoff (calls (request_json urlopen) - 1)
               = firstn (calls (request_json urlopen) - 1) [2; 4; 8]).
  { destruct (calls (request_json urlopen)) as [|[|[|[|[|n]]]]];
      try lia; reflexivity. }
  split; [now rewrite Hs|].
  split.
  { rewrite Hs, Hb.
    destruct (calls (request_json urlopen)) as [|[|[|[|[|n]]]]];
      try lia; cbn; lia. }
  split; [exact Hr | exact Hres].
Qed.

Lemma request_json_other_status_witness :
  request_json (fun _ : nat => HTTPError nat unit 404)
  = {| result := Reraise nat unit 404; sleeps := backoff 0; calls := 1 |}.
Proof.
  apply (@request_json_other_status nat unit
           (fun _ : nat => HTTPError nat unit 404) 0%nat 404).
  - lia.
  - intros i Hi. lia.
  - reflexivity.
  - discriminate.
  - discriminate.
  - discriminate.
  - reflexivity.
Defined.

End FetcherLaws.

(** ** More on the planner: closed forms and calendar months *)

Module CalendarFacts.
Import Datetime DatetimeFacts.
Local Open Scope Z_scope.

Lemma days_before_year_mono (a b : Z) :
  a <= b -> _days_before_year a <= _days_before_year b.
Proof.
  intros H. unfold _days_before_year. Z.div_mod_to_equations. lia.
Qed.

Lemma day_of_year_bounds (y m d : Z) :
  1 <= m <= 12 -> 1 <= d <= _days_in_month y m ->
  1 <= _days_before_month y m + d <= 365 + leap_day (_is_leap y).
Proof.
  intros Hm Hd. unfold _days_before_month, _days_in_month, leap_day in *.
  assert (Hc : m = 1 \/ m = 2 \/ m = 3 \/ m = 4 \/ m = 5 \/ m = 6 \/ m = 7
               \/ m = 8 \/ m = 9 \/ m = 10 \/ m = 11 \/ m = 12) by lia.
  destruct Hc as [-> | [-> | [-> | [-> | [-> | [-> | [-> | [-> | [-> | [-> |
                 [-> | ->]]]]]]]]]]];
    destruct (_is_leap y); cbn in *; lia.
Qed.

Lemma day_of_year_inj (y m d m' d' : Z) :
  1 <= m <= 12 -> 1 <= d <= _days_in_month y m ->
  1 <= m' <= 12 -> 1 <= d' <= _days_in_month y m' ->
  _days_before_month y m + d = _days_before_month y m' + d' ->
  m = m' /\ d = d'.
Proof.
  intros Hm Hd Hm' Hd' E.
  unfold _days_before_month, _days_in_month in *.
  assert (Hc : m = 1 \/ m = 2 \/ m = 3 \/ m = 4 \/ m = 5 \/ m = 6 \/ m = 7
               \/ m = 8 \/ m = 9 \/ m = 10 \/ m = 11 \/ m = 12) by lia.
  assert (Hc' : m' = 1 \/ m' = 2 \/ m' = 3 \/ m' = 4 \/ m' = 5 \/ m' = 6
                \/ m' = 7 \/ m' = 8 \/ m' = 9 \/ m' = 10 \/ m' = 11
                \/ m' = 12) by lia.
  destruct (_is_leap y);
    destruct Hc as [-> | [-> | [-> | [-> | [-> | [-> | [-> | [-> | [-> | [-> |
                   [-> | ->]]]]]]]]]]];
    destruct Hc' as [-> | [-> | [-> | [-> | [-> | [-> | [-> | [-> | [-> | [-> |
                    [-> | ->]]]]]]]]]]];
    cbn in *; lia.
Qed.

(** A date of the calendar is determined by its ordinal. *)
Lemma ymd2ord_inj (y m d y' m' d' : Z) :
  1 <= m <= 12 -> 1 <= d <= _days_in_month y m ->
  1 <= m' <= 12 -> 1 <= d' <= _days_in_month y' m' ->
  _ymd2ord y m d = _ymd2ord y' m' d' ->
  y = y' /\ m = m' /\ d = d'.
Proof.
  intros Hm Hd Hm' Hd' E. unfold _ymd2ord in E.
  pose proof (day_of_year_bounds y Hm Hd) as B.
  pose proof (day_of_year_bounds y' Hm' Hd') as B'.
  pose proof (days_before_next_year y) as N.
  pose proof (days_before_next_year y') as N'.
  assert (Hy : y = y').
  { destruct (Z.lt_trichotomy y y') as [L | [Q | G]]; [|exact Q|].
    - pose proof (@days_before_year_mono (y + 1) y' ltac:(lia)). lia.
    - pose proof (@days_before_year_mono (y' + 1) y ltac:(lia)). lia. }
  subst y'. split; [reflexivity|].
  apply (@day_of_year_inj y m d m' d'); try assumption. lia.
Qed.

Lemma ymd2ord_bounds (y m d : Z) :
  MINYEAR <= y <= MAXYEAR -> 1 <= m <= 12 -> 1 <= d <= _days_in_month y m ->
  1 <= _ymd2ord y m d <= _MAXORDINAL.
Proof.
  unfold MINYEAR, MAXYEAR. intros Hy Hm Hd. unfold _ymd2ord.
  pose proof (day_of_year_bounds y Hm Hd) as B.
  pose proof (days_before_next_year y) as N.
  pose proof (@days_before_year_mono 1 y ltac:(lia)) as L.
  pose proof (@days_before_year_mono (y + 1) 10000 ltac:(lia)) as H.
  change (_days_before_year 1) with 0 in L.
  change (_days_before_year 10000) with 3652059 in H.
  unfold _MAXORDINAL. lia.
Qed.

(** The round trip from a date to its ordinal and back. *)
Lemma ord2ymd_ymd2ord (y m d : Z) :
  MINYEAR <= y <= MAXYEAR -> 1 <= m <= 12 -> 1 <= d <= _days_in_month y m ->
  _ord2ymd (_ymd2ord y m d) = (y, m, d).
Proof.
  intros Hy Hm Hd.
  pose proof (@ord2ymd_spec (_ymd2ord y m d) (ymd2ord_bounds Hy Hm Hd)) as H.
  destruct (_ord2ymd (_ymd2ord y m d)) as [[y1 m1] d1].
  destruct H as (Hy1 & Hm1 & Hd1 & E).
  destruct (@ymd2ord_inj y1 m1 d1 y m d Hm1 Hd1 Hm Hd E) as (-> & -> & ->).
  reflexivity.
Qed.
End CalendarFacts.

Module PlansFacts.
Import Datetime DatetimeFacts Windows WindowsFacts Plans CalendarFacts.
Local Open Scope Z_scope.

Lemma toordinal_midnight (o : Z) : toordinal ((o - 1) * US_PER_DAY) = o.
Proof.
  unfold toordinal. rewrite Z.div_mul by discriminate. lia.
Qed.

(** The fields of the first instant of a month. *)
Lemma month_start_fields (y m : Z) :
  MINYEAR <= y <= MAXYEAR -> 1 <= m <= 12 ->
  year (month_start y m) = y /\ month (month_start y m) = m
  /\ day (month_start y m) = 1.
Proof.
  intros Hy Hm. unfold year, month, day, month_start.
  rewrite toordinal_midnight.
  pose proof (@days_in_month_bounds y m Hm) as Hdim.
  rewrite ord2ymd_ymd2ord by (try assumption; lia).
  repeat split.
Qed.

Lemma advance_daily (cursor : datetime) :
  advance (u "daily") cursor = cursor + US_PER_DAY.
Proof. unfold advance. now rewrite mode_daily. Qed.

Lemma advance_monthly (cursor : datetime) :
  advance (u "monthly") cursor = next_month_start cursor.
Proof. unfold advance. now rewrite mode_monthly. Qed.

Lemma daily_plan_empty (cursor end_ : datetime) :
  end_ < cursor -> daily_plan cursor end_ = [].
Proof.
  intros H. unfold daily_plan.
  assert ((end_ - cursor) / US_PER_DAY < 0)
    by (apply Z.div_lt_upper_bound; [reflexivity | lia]).
  replace (Z.to_nat ((end_ - cursor) / US_PER_DAY + 1)) with 0%nat by lia.
  reflexivity.
Qed.

Lemma daily_plan_step (cursor end_ : datetime) :
  cursor <= end_ ->
  daily_plan cursor end_
  = (cursor, Z.min end_ (cursor + US_PER_DAY - US_PER_MINUTE))
      :: daily_plan (cursor + US_PER_DAY) end_.
Proof.
  intros H. unfold daily_plan.
  assert (H0 : 0 <= (end_ - cursor) / US_PER_DAY)
    by (apply Z.div_pos; [lia | reflexivity]).
  assert (E : (end_ - (cursor + US_PER_DAY)) / US_PER_DAY
              = (end_ - cursor) / US_PER_DAY - 1).
  { replace (end_ - (cursor + US_PER_DAY))
      with (end_ - cursor + (-1) * US_PER_DAY) by ring.
    rewrite Z.div_add by discriminate. ring. }
  rewrite E.
  replace (Z.to_nat ((end_ - cursor) / US_PER_DAY + 1))
    with (S (Z.to_nat ((end_ - cursor) / US_PER_DAY - 1 + 1))) by lia.
  cbn [seq map]. f_equal.
  - unfold daily_window. apply pair_equal_spec.
    split; [lia | f_equal; lia].
  - rewrite <- seq_shift, map_map. apply map_ext. intros k.
    unfold daily_window. rewrite Nat2Z.inj_succ. apply pair_equal_spec.
    split; [lia | f_equal; lia].
Qed.

Lemma planned_daily (end_ cursor : datetime) (ws : list window) :
  planned (u "daily") end_ cursor ws -> ws = daily_plan cursor end_.
Proof.
  induction 1 as [c Hgt | c ws' Hle Hrest IH].
  - now rewrite daily_plan_empty.
  - rewrite advance_daily in *. rewrite (daily_plan_step Hle). now f_equal.
Qed.

Lemma enough_fuel (start end_ : datetime) (mode : str) :
  start <= end_ ->
  fuel_needed mode start end_ <= Z.of_nat (fuel_for start end_).
Proof.
  intros Hle. unfold fuel_needed, fuel_for.
  apply Z.leb_le in Hle as Hb. rewrite Hb.
  assert (0 <= (end_ - start) / US_PER_DAY)
    by (apply Z.div_pos; [lia | reflexivity]).
  destruct (str_eqb mode (u "monthly") && negb (start mod US_PER_DAY =? 0));
    lia.
Qed.

Lemma representable_before (t t' : Z) :
  0 <= t <= t' -> representable t' = true -> representable t = true.
Proof.
  intros H Hr. apply representable_iff in Hr. apply representable_iff. lia.
Qed.

Lemma iter_daily_plan (start end_ : datetime) :
  representable start = true -> representable (end_ + US_PER_DAY) = true ->
  start <= end_ ->
  iter_windows start end_ (u "daily") = (daily_plan start end_, Exhausted).
Proof.
  intros Hs He Hle.
  assert (Hs0 : 0 <= start) by (apply representable_iff in Hs; lia).
  assert (He' : representable end_ = true).
  { apply (@representable_before end_ (end_ + US_PER_DAY));
      [unfold US_PER_DAY; lia | exact He]. }
  assert (Hrange : in_range (u "daily") end_) by (left; now split).
  destruct (@iter_from_planned (u "daily") end_ He' Hrange
              (fuel_for start end_) start Hs (enough_fuel _ Hle))
    as (ws & Hrun & Hpl & _).
  unfold iter_windows. rewrite Hrun. f_equal. now apply planned_daily.
Qed.

(** X13. For a start not after the end, with the day after the end still
    a datetime, the daily plan has one window for each started day of the
    range: window [k] starts [k] days after the start and ends a minute
    before the next one starts, or at the end of the range. *)
Theorem daily_windows_closed_form (start end_ : datetime) :
  representable start = true -> representable (end_ + US_PER_DAY) = true ->
  start <= end_ ->
  iter_windows start end_ (u "daily") = (daily_plan start end_, Exhausted)
  /\ Z.of_nat (length (daily_plan start end_))
     = (end_ - start) / US_PER_DAY + 1.
Proof.
  intros Hs He Hle.
  split.
  - now apply iter_daily_plan.
  - unfold daily_plan. rewrite length_map, length_seq.
    assert (0 <= (end_ - start) / US_PER_DAY)
      by (apply Z.div_pos; [lia | reflexivity]).
    lia.
Qed.

Lemma daily_windows_closed_form_witness :
  iter_windows 63842207400000000 63842461200000000 (u "daily")
  = (daily_plan 63842207400000000 63842461200000000, Exhausted)
  /\ Z.of_nat (length (daily_plan 63842207400000000 63842461200000000))
     = (63842461200000000 - 63842207400000000) / US_PER_DAY + 1.
Proof.
  apply (@daily_windows_closed_form 63842207400000000 63842461200000000).
  - reflexivity.
  - reflexivity.
  - discriminate.
Defined.

Lemma iter_other_mode (fuel : nat) (end_ : datetime) (mode : str) :
  mode <> u "monthly" ->
  forall cursor : datetime,
    iter_windows_from fuel cursor end_ mode
    = iter_windows_from fuel cursor end_ (u "daily").
Proof.
  intros Hmode. apply str_eqb_neq in Hmode.
  induction fuel as [|fuel IH]; intros cursor; [reflexivity|].
  cbn [iter_windows_from]. rewrite Hmode, mode_daily.
  destruct (cursor <=? end_); [|reflexivity].
  destruct (add_us cursor US_PER_DAY) as [nxt|]; [|reflexivity].
  destruct (add_us nxt (- US_PER_MINUTE)) as [e|]; [|reflexivity].
  now rewrite IH.
Qed.

(** X14. A range whose end lies before its start has no window at all;
    and every mode other than monthly is planned as daily. *)
Theorem iter_windows_edge_inputs (start end_ : datetime) (mode : str) :
  (end_ < start -> iter_windows start end_ mode = ([], Exhausted))
  /\ (mode <> u "monthly" ->
      iter_windows start end_ mode = iter_windows start end_ (u "daily")).
Proof.
  split.
  - intros H. unfold iter_windows, fuel_for.
    rewrite Nat.add_comm. cbn [Nat.add iter_windows_from].
    now replace (start <=? end_) with false by (symmetry; apply Z.leb_gt; lia).
  - intros H. unfold iter_windows. now apply iter_other_mode.
Qed.

Section Monthly.
Variable end_ : datetime.
Hypothesis end_representable : representable end_ = true.
Hypothesis end_before_last_month : end_ < LAST_MONTH_START.

Lemma monthly_range : in_range (u "monthly") end_.
Proof. right. now split. Qed.

Lemma next_month_fields (cursor : datetime) :
  representable cursor = true -> cursor <= end_ ->
  (year (next_month_start cursor), month (next_month_start cursor))
  = next_month (year cursor, month cursor)
  /\ day (next_month_start cursor) = 1
  /\ next_month_start cursor mod US_PER_DAY = 0.
Proof.
  intros Hc Hle.
  destruct (@instant_in_month cursor Hc) as (Hy & Hmo & [Hlo Hhi] & Hnext).
  destruct (@advance_spec (u "monthly") end_ end_representable monthly_range
              cursor Hc Hle) as (_ & _ & _ & Hal & _).
  rewrite advance_monthly in Hal. specialize (Hal mode_monthly).
  split; [|split; [|exact Hal]].
  - unfold next_month_start, next_month. cbn [fst snd].
    destruct (month cursor =? 12) eqn:E12.
    + apply Z.eqb_eq in E12.
      assert (Hyear : year cursor <> MAXYEAR).
      { intros E. rewrite E, E12 in Hlo.
        fold LAST_MONTH_START in Hlo. lia. }
      destruct (@month_start_fields (year cursor + 1) 1) as (-> & -> & _);
        unfold MINYEAR, MAXYEAR in *; try lia. reflexivity.
    + apply Z.eqb_neq in E12.
      destruct (@month_start_fields (year cursor) (month cursor + 1))
        as (-> & -> & _); try lia. reflexivity.
  - unfold next_month_start.
    destruct (month cursor =? 12) eqn:E12.
    + apply Z.eqb_eq in E12.
      assert (Hyear : year cursor <> MAXYEAR).
      { intros E. rewrite E, E12 in Hlo.
        fold LAST_MONTH_START in Hlo. lia. }
      apply month_start_fields; unfold MINYEAR, MAXYEAR in *; lia.
    + apply Z.eqb_neq in E12. apply month_start_fields; lia.
Qed.

Lemma planned_month_by_month (cursor : datetime) (ws : list window) :
  representable cursor = true ->
  planned (u "monthly") end_ cursor ws -> month_by_month ws.
Proof.
  intros Hc H. revert Hc.
  induction H as [c Hgt | c ws' Hle Hrest IH]; intros Hc; [exact I|].
  destruct (@advance_spec (u "monthly") end_ end_representable monthly_range
              c Hc Hle) as (_ & Hr & _).
  specialize (IH Hr).
  destruct ws' as [|w2 rest]; [exact I|].
  assert (E : fst w2 = next_month_start c).
  { inversion Hrest; subst. cbn [fst]. apply advance_monthly. }
  change ((year (fst w2), month (fst w2)) = next_month (year c, month c)
          /\ day (fst w2) = 1 /\ fst w2 mod US_PER_DAY = 0
          /\ month_by_month (w2 :: rest)).
  rewrite E.
  destruct (@next_month_fields c Hc Hle) as (H1 & H2 & H3).
  split; [exact H1|]. split; [exact H2|]. split; [exact H3 | exact IH].
Qed.

Lemma planned_upright (cursor : datetime) (ws : list window) :
  representable cursor = true -> cursor mod US_PER_DAY = 0 ->
  planned (u "monthly") end_ cursor ws ->
  Forall (fun w => fst w <= snd w) ws.
Proof.
  intros Hc Hmid H. revert Hc Hmid.
  induction H as [c Hgt | c ws' Hle Hrest IH]; intros Hc Hmid;
    constructor.
  - destruct (@advance_spec (u "monthly") end_ end_representable monthly_range
                c Hc Hle) as (_ & _ & _ & _ & Hday).
    rewrite mode_monthly in Hday. cbn [andb] in Hday.
    rewrite Hmid in Hday. specialize (Hday eq_refl).
    cbn [fst snd]. unfold US_PER_DAY, US_PER_MINUTE in *. lia.
  - destruct (@advance_spec (u "monthly") end_ end_representable monthly_range
                c Hc Hle) as (_ & Hr & _ & Hal & _).
    apply IH; [exact Hr | exact (Hal mode_monthly)].
Qed.
End Monthly.

(** X15. A monthly plan for a start not after an end before December
    9999: the first window runs from the start to the last minute of its
    month or to the end; every later window starts at the first midnight
    of the next calendar month and does not end before it starts; the
    first window ends before it starts exactly when the start lies later
    than one minute before the next month. *)
Theorem monthly_windows_follow_calendar (start end_ : datetime) :
  representable start = true -> representable end_ = true ->
  start <= end_ -> end_ < LAST_MONTH_START ->
  exists (first : window) (rest : list window),
    iter_windows start end_ (u "monthly") = (first :: rest, Exhausted)
    /\ first = (start, Z.min end_ (next_month_start start - US_PER_MINUTE))
    /\ month_by_month (first :: rest)
    /\ Forall (fun w => fst w <= snd w) rest
    /\ (snd first < fst first
        <-> next_month_start start - US_PER_MINUTE < start).
Proof.
  intros Hs He Hle Hlast.
  destruct (@iter_from_planned (u "monthly") end_ He
              (monthly_range Hlast) (fuel_for start end_) start Hs
              (enough_fuel _ Hle)) as (ws & Hrun & Hpl & _).
  inversion Hpl as [c Hgt | c ws' Hle' Hrest]; subst; [lia|].
  rewrite advance_monthly in *.
  exists (start, Z.min end_ (next_month_start start - US_PER_MINUTE)), ws'.
  split; [exact Hrun|]. split; [reflexivity|].
  split; [exact (@planned_month_by_month end_ He Hlast start _ Hs Hpl)|].
  destruct (@advance_spec (u "monthly") end_ He (monthly_range Hlast)
              start Hs Hle) as (_ & Hr & _ & Hal & _).
  rewrite advance_monthly in Hr, Hal.
  split.
  - exact (@planned_upright end_ He Hlast _ _ Hr (Hal mode_monthly) Hrest).
  - cbn [fst snd]. lia.
Qed.

(** 2024-01-31T23:59:30 to 2024-02-02T09:00. *)
Lemma monthly_windows_follow_calendar_witness :
  exists (first : window) (rest : list window),
    iter_windows 63842342370000000 63842461200000000 (u "monthly")
    = (first :: rest, Exhausted)
    /\ first = (63842342370000000,
                Z.min 63842461200000000
                      (next_month_start 63842342370000000 - US_PER_MINUTE))
    /\ month_by_month (first :: rest)
    /\ Forall (fun w => fst w <= snd w) rest
    /\ (snd first < fst first
        <-> next_month_start 63842342370000000 - US_PER_MINUTE
            < 63842342370000000).
Proof.
  apply (@monthly_windows_follow_calendar 63842342370000000
           63842461200000000).
  - reflexivity.
  - reflexivity.
  - discriminate.
  - reflexivity.
Defined.

(** The start in the last minute of January: the first window ends before
    it starts. *)
Example inverted_first_window :
  iter_windows 63842342370000000 63842461200000000 (u "monthly")
  = ([ (63842342370000000, 63842342340000000);
       (63842342400000000, 63842461200000000) ], Exhausted).
Proof. vm_compute. reflexivity. Qed.

End PlansFacts.

(** ** The planner on every range *)

Module PlannerFacts.
Import Datetime DatetimeFacts Windows WindowsFacts Plans CalendarFacts
  PlansFacts Completion.
Local Open Scope Z_scope.

Lemma first_past_step (cursor end_ : datetime) :
  cursor + US_PER_DAY <= end_ ->
  first_past (cursor + US_PER_DAY) end_ = first_past cursor end_
  /\ (end_ - (cursor + US_PER_DAY)) / US_PER_DAY
     = (end_ - cursor) / US_PER_DAY - 1
  /\ 1 <= (end_ - cursor) / US_PER_DAY.
Proof.
  intros H. unfold first_past.
  assert (E : (end_ - (cursor + US_PER_DAY)) / US_PER_DAY
              = (end_ - cursor) / US_PER_DAY - 1).
  { replace (end_ - (cursor + US_PER_DAY))
      with (end_ - cursor + (-1) * US_PER_DAY) by ring.
    rewrite Z.div_add by discriminate. ring. }
  assert (0 <= (end_ - (cursor + US_PER_DAY)) / US_PER_DAY)
    by (apply Z.div_pos; [lia | reflexivity]).
  rewrite E. split; [ring|]. split; [reflexivity | lia].
Qed.

Lemma first_past_last (cursor end_ : datetime) :
  cursor <= end_ -> end_ < cursor + US_PER_DAY ->
  (end_ - cursor) / US_PER_DAY = 0
  /\ first_past cursor end_ = cursor + US_PER_DAY.
Proof.
  intros H1 H2. unfold first_past.
  assert (E : (end_ - cursor) / US_PER_DAY = 0)
    by (apply Z.div_small; lia).
  rewrite E. split; [reflexivity | ring].
Qed.

(** The daily plan is the plan of the specification. *)
Lemma daily_planned (end_ : datetime) (n : nat) :
  forall cursor : datetime,
    (end_ - cursor) / US_PER_DAY + 1 <= Z.of_nat n ->
    planned (u "daily") end_ cursor (daily_plan cursor end_).
Proof.
  induction n as [|n IH]; intros cursor Hn.
  - assert (Hlt : end_ < cursor).
    { destruct (Z_lt_le_dec end_ cursor) as [L | G]; [exact L|].
      assert (0 <= (end_ - cursor) / US_PER_DAY)
        by (apply Z.div_pos; [lia | reflexivity]).
      lia. }
    rewrite (daily_plan_empty Hlt). now apply planned_done.
  - destruct (Z_lt_le_dec end_ cursor) as [Hlt | Hle].
    + rewrite (daily_plan_empty Hlt). now apply planned_done.
    + rewrite (daily_plan_step Hle).
      rewrite <- (advance_daily cursor).
      apply planned_step; [exact Hle|].
      rewrite advance_daily. apply IH.
      destruct (Z_lt_le_dec end_ (cursor + US_PER_DAY)) as [L | G].
      * assert ((end_ - (cursor + US_PER_DAY)) / US_PER_DAY < 0)
          by (apply Z.div_lt_upper_bound; [reflexivity | lia]).
        lia.
      * destruct (@first_past_step cursor end_ G) as (_ & E & _). lia.
Qed.

Lemma daily_plan_upright (start end_ : datetime) :
  Forall (fun w => fst w <= snd w) (daily_plan start end_).
Proof.
  unfold daily_plan. apply Forall_forall. intros w Hin.
  apply in_map_iff in Hin as (k & <- & Hk). apply in_seq in Hk.
  unfold daily_window. cbn [fst snd].
  assert (Hk' : Z.of_nat k <= (end_ - start) / US_PER_DAY) by lia.
  assert (Z.of_nat k * US_PER_DAY <= end_ - start).
  { apply Z.le_trans with ((end_ - start) / US_PER_DAY * US_PER_DAY).
    - apply Z.mul_le_mono_nonneg_r; [discriminate | exact Hk'].
    - rewrite Z.mul_comm. apply Z.mul_div_le. reflexivity. }
  unfold US_PER_DAY, US_PER_MINUTE in *. lia.
Qed.

Section Daily.
Variable end_ : datetime.
Hypothesis end_representable : representable end_ = true.

(** The daily loop from any cursor: it runs through when the cursor that
    ends it is a datetime, and else it raises before the last window. *)
Lemma iter_daily_exact (fuel : nat) :
  forall cursor : datetime,
    representable cursor = true -> cursor <= end_ ->
    (end_ - cursor) / US_PER_DAY + 1 < Z.of_nat fuel ->
    iter_windows_from fuel cursor end_ (u "daily")
    = if representable (first_past cursor end_)
      then (daily_plan cursor end_, Exhausted)
      else (firstn (Z.to_nat ((end_ - cursor) / US_PER_DAY))
                   (daily_plan cursor end_), Raised).
Proof.
  pose proof (proj1 (representable_iff _) end_representable) as He.
  induction fuel as [|fuel IH]; intros cursor Hc Hle Hfuel.
  - assert (0 <= (end_ - cursor) / US_PER_DAY)
      by (apply Z.div_pos; [lia | reflexivity]).
    lia.
  - pose proof (proj1 (representable_iff _) Hc) as Hc'.
    cbn [iter_windows_from]. rewrite mode_daily.
    apply Z.leb_le in Hle as Hb. rewrite Hb.
    rewrite (daily_plan_step Hle).
    destruct (Z_lt_le_dec end_ (cursor + US_PER_DAY)) as [Hlast | Hmore].
    + destruct (@first_past_last cursor end_ Hle Hlast) as [E0 Ef]. rewrite E0, Ef.
      unfold add_us at 1.
      destruct (representable (cursor + US_PER_DAY)) eqn:Hr;
        [|reflexivity].
      apply representable_iff in Hr.
      assert (Hrm : representable (cursor + US_PER_DAY + - US_PER_MINUTE)
                    = true).
      { apply representable_iff. unfold US_PER_DAY, US_PER_MINUTE in *.
        lia. }
      unfold add_us. rewrite Hrm.
      rewrite (daily_plan_empty Hlast).
      destruct fuel as [|fuel]; [lia|].
      cbn [iter_windows_from].
      replace (cursor + US_PER_DAY <=? end_) with false
        by (symmetry; apply Z.leb_gt; exact Hlast).
      rewrite Z.add_opp_r. reflexivity.
    + destruct (@first_past_step cursor end_ Hmore) as (Ef & Ek & Hk).
      assert (Hr : representable (cursor + US_PER_DAY) = true).
      { apply representable_iff. unfold US_PER_DAY in *. lia. }
      assert (Hrm : representable (cursor + US_PER_DAY + - US_PER_MINUTE)
                    = true).
      { apply representable_iff. unfold US_PER_DAY, US_PER_MINUTE in *.
        lia. }
      unfold add_us. rewrite Hr, Hrm.
      rewrite (IH (cursor + US_PER_DAY) Hr Hmore ltac:(lia)).
      rewrite Ef, Ek, Z.add_opp_r.
      destruct (representable (first_past cursor end_)); [reflexivity|].
      replace (Z.to_nat ((end_ - cursor) / US_PER_DAY))
        with (S (Z.to_nat ((end_ - cursor) / US_PER_DAY - 1))) by lia.
      reflexivity.
Qed.
End Daily.

(** The daily plan of a whole range. *)
Lemma iter_windows_daily (start end_ : datetime) :
  representable start = true -> representable end_ = true ->
  start <= end_ ->
  iter_windows start end_ (u "daily")
  = if representable (first_past start end_)
    then (daily_plan start end_, Exhausted)
    else (firstn (Z.to_nat ((end_ - start) / US_PER_DAY))
                 (daily_plan start end_), Raised).
Proof.
  intros Hs He Hle. unfold iter_windows.
  apply iter_daily_exact; try assumption.
  unfold fuel_for.
  assert (0 <= (end_ - start) / US_PER_DAY)
    by (apply Z.div_pos; [lia | reflexivity]).
  lia.
Qed.

(** *** The monthly loop at the end of the calendar *)

Lemma december_9999 (t : datetime) :
  representable t = true -> LAST_MONTH_START <= t ->
  year t = MAXYEAR /\ month t = 12.
Proof.
  intros Hr Hl.
  destruct (@instant_in_month t Hr) as (Hy & Hmo & [Hlo Hhi] & Hnext).
  destruct (Z.eq_dec (year t) MAXYEAR) as [Ey | Ny];
    destruct (Z.eq_dec (month t) 12) as [Em | Nm]; try (now split);
    exfalso;
    (assert (Hnot : ~ (year t = MAXYEAR /\ month t = 12)) by tauto);
    pose proof (@next_month_bound (year t) (month t) Hy Hmo Hnot) as Hb;
    rewrite Hnext, month_start_eq in Hhi;
    rewrite LAST_MONTH_START_eq in Hl; unfold US_PER_DAY in *; nia.
Qed.

(** A step of the monthly cursor from before December 9999. *)
Lemma month_step (cursor : datetime) :
  representable cursor = true -> cursor < LAST_MONTH_START ->
  (if month cursor =? 12 then mk_date (year cursor + 1) 1 1
   else mk_date (year cursor) (month cursor + 1) 1)
  = Some (next_month_start cursor)
  /\ add_us (next_month_start cursor) (- US_PER_MINUTE)
     = Some (next_month_start cursor - US_PER_MINUTE)
  /\ cursor < next_month_start cursor <= LAST_MONTH_START
  /\ representable (next_month_start cursor) = true
  /\ next_month_start cursor mod US_PER_DAY = 0
  /\ (cursor mod US_PER_DAY = 0 ->
      cursor + US_PER_DAY <= next_month_start cursor).
Proof.
  intros Hc Hlt.
  destruct (@advance_spec (u "monthly") cursor Hc (monthly_range Hlt)
              cursor Hc (Z.le_refl _)) as (H1 & H2 & H3 & H4 & H5).
  rewrite advance_monthly in *. rewrite mode_monthly in H4, H5.
  destruct (@instant_in_month cursor Hc) as (Hy & Hmo & [Hlo Hhi] & Hnext).
  assert (Hnot : ~ (year cursor = MAXYEAR /\ month cursor = 12)).
  { intros [Ey Em]. rewrite Ey, Em in Hlo.
    fold LAST_MONTH_START in Hlo. lia. }
  pose proof (@next_month_bound (year cursor) (month cursor) Hy Hmo Hnot)
    as Hbelow.
  split.
  { unfold next_month_start, mk_date, month_start.
    destruct (month cursor =? 12) eqn:E12.
    - apply Z.eqb_eq in E12.
      assert (Hyear : year cursor <> MAXYEAR) by tauto.
      unfold MINYEAR, MAXYEAR in *.
      replace ((1 <=? year cursor + 1) && (year cursor + 1 <=? 9999))
        with true by (symmetry; apply andb_true_iff;
                      rewrite !Z.leb_le; lia).
      reflexivity.
    - apply Z.eqb_neq in E12.
      pose proof (@days_in_month_bounds (year cursor)
                    (month cursor + 1) ltac:(lia)) as Hdim.
      unfold MINYEAR, MAXYEAR in *.
      replace ((1 <=? year cursor) && (year cursor <=? 9999)
               && (1 <=? month cursor + 1) && (month cursor + 1 <=? 12)
               && (1 <=? 1)
               && (1 <=? _days_in_month (year cursor) (month cursor + 1)))
        with true
        by (symmetry; rewrite !andb_true_iff, !Z.leb_le; lia).
      reflexivity. }
  split; [unfold add_us; now rewrite Z.add_opp_r, H3|].
  split.
  { split; [exact H1|].
    rewrite Hnext, month_start_eq, LAST_MONTH_START_eq.
    unfold US_PER_DAY. nia. }
  split; [exact H2|].
  split; [exact (H4 eq_refl)|].
  intros Hmid. apply H5. cbn [andb]. rewrite Hmid. reflexivity.
Qed.

Section LastMonth.
Variable end_ : datetime.
Hypothesis end_in_last_month : LAST_MONTH_START <= end_.

(** A monthly loop whose range reaches December 9999 raises. *)
Lemma monthly_raises (fuel : nat) :
  forall cursor : datetime,
    representable cursor = true -> cursor <= end_ ->
    fuel_needed (u "monthly") cursor end_ <= Z.of_nat fuel ->
    snd (iter_windows_from fuel cursor end_ (u "monthly")) = Raised.
Proof.
  induction fuel as [|fuel IH]; intros cursor Hc Hle Hfuel.
  - exfalso. unfold fuel_needed in Hfuel.
    apply Z.leb_le in Hle as Hb. rewrite Hb in Hfuel.
    assert (0 <= (end_ - cursor) / US_PER_DAY)
      by (apply Z.div_pos; [lia | reflexivity]).
    destruct (str_eqb (u "monthly") (u "monthly")
              && negb (cursor mod US_PER_DAY =? 0)); lia.
  - cbn [iter_windows_from]. rewrite mode_monthly.
    apply Z.leb_le in Hle as Hb. rewrite Hb.
    destruct (Z_lt_le_dec cursor LAST_MONTH_START) as [Hlt | Hge].
    + destruct (month_step Hc Hlt) as (Hmk & Hadd & [H1 H2] & Hr & Hmid & Hday).
      rewrite Hmk, Hadd.
      assert (Hfuel' : fuel_needed (u "monthly") (next_month_start cursor)
                                   end_ <= Z.of_nat fuel).
      { unfold fuel_needed in *. rewrite Hb in Hfuel.
        rewrite mode_monthly in *. cbn [andb] in *.
        replace (next_month_start cursor <=? end_) with true
          by (symmetry; apply Z.leb_le; lia).
        rewrite Hmid. cbn [Z.eqb negb].
        destruct (cursor mod US_PER_DAY =? 0) eqn:Em; cbn [negb] in Hfuel.
        - apply Z.eqb_eq in Em. specialize (Hday Em).
          assert ((end_ - next_month_start cursor) / US_PER_DAY
                  <= (end_ - cursor - US_PER_DAY) / US_PER_DAY)
            by (apply Z.div_le_mono; [reflexivity | lia]).
          assert ((end_ - cursor - US_PER_DAY) / US_PER_DAY
                  = (end_ - cursor) / US_PER_DAY - 1).
          { replace (end_ - cursor - US_PER_DAY)
              with (end_ - cursor + (-1) * US_PER_DAY) by ring.
            rewrite Z.div_add by discriminate. ring. }
          lia.
        - assert ((end_ - next_month_start cursor) / US_PER_DAY
                  <= (end_ - cursor) / US_PER_DAY)
            by (apply Z.div_le_mono; [reflexivity | lia]).
          lia. }
      pose proof (IH (next_month_start cursor) Hr ltac:(lia) Hfuel') as H.
      destruct (iter_windows_from fuel (next_month_start cursor) end_
                  (u "monthly")) as [ws st].
      exact H.
    + destruct (december_9999 Hc Hge) as [Ey Em].
      rewrite Em, Ey. reflexivity.
Qed.
End LastMonth.

(** C7, amended. For [start <= end_] and a mode in {daily, monthly} the
    planner either stops by its loop condition or raises, and it stops
    exactly on the ranges that [completes] names: in a daily plan when the
    first of the instants start, start + 1 day, start + 2 days, ... that
    lies after [end_] is still a datetime, in a monthly plan when [end_]
    lies before December 9999. When it stops, the first window starts at
    [start]; each next one starts a minute after the end of the one
    before; each window ends a minute before the next cursor or at [end_],
    whichever comes first, where the next cursor is a day later (daily) or
    the first instant of the next month, January of the next year after
    December (monthly); no window ends after [end_]; a window spans less
    than a day (daily) or lies inside the calendar month of its start
    (monthly); the last window ends less than a minute before [end_]; and
    no window ends before it starts, but for the first window of a
    monthly plan, which does so exactly when [start] lies later than one
    minute before the next month. *)
Theorem iter_windows_spec (start end_ : datetime) (mode : str) :
  representable start = true -> representable end_ = true ->
  start <= end_ -> mode = u "daily" \/ mode = u "monthly" ->
  snd (iter_windows start end_ mode)
  = (if completes mode start end_ then Exhausted else Raised)
  /\ (completes mode start end_ = true ->
      exists ws : list window,
        iter_windows start end_ mode = (ws, Exhausted)
        /\ (exists rest : list window,
              ws = (start, Z.min end_ (advance mode start - US_PER_MINUTE))
                   :: rest)
        /\ chained ws
        /\ Forall (window_ok mode end_) ws
        /\ Forall (span_ok mode) ws
        /\ Forall (fun w => snd w <= end_) ws
        /\ end_ - US_PER_MINUTE < snd (last ws (start, start)) <= end_
        /\ Forall (fun w => fst w <= snd w) (tl ws)
        /\ (snd (hd (start, start) ws) < start
            <-> mode = u "monthly"
                /\ next_month_start start - US_PER_MINUTE < start)).
Proof.
  intros Hs He Hle Hmode.
  assert (Hshape : forall ws : list window,
            planned mode end_ start ws ->
            (exists rest : list window,
                ws = (start, Z.min end_ (advance mode start - US_PER_MINUTE))
                     :: rest)
            /\ chained ws
            /\ Forall (window_ok mode end_) ws
            /\ Forall (fun w => snd w <= end_) ws
            /\ end_ - US_PER_MINUTE < snd (last ws (start, start)) <= end_).
  { intros ws Hpl.
    destruct (proj1 (planned_head Hpl) Hle) as [rest E].
    pose proof (planned_windows Hpl) as Hok.
    split; [now exists rest|].
    split; [exact (planned_chained Hpl)|].
    split; [exact Hok|].
    split.
    - rewrite Forall_forall in *. intros w Hin.
      destruct (Hok w Hin) as [_ Hend].
      eapply Z.le_trans; [apply Z.eq_le_incl; exact Hend | lia].
    - apply (planned_last (start, start) Hpl). rewrite E. discriminate. }
  destruct Hmode as [-> | ->].
  - (* daily *)
    unfold completes. rewrite mode_daily.
    rewrite (iter_windows_daily Hs He Hle).
    destruct (representable (first_past start end_)) eqn:Hr.
    + split; [reflexivity|]. intros _.
      exists (daily_plan start end_). split; [reflexivity|].
      pose proof (@daily_planned end_
                    (Z.to_nat ((end_ - start) / US_PER_DAY + 1)) start) as Hpl.
      assert (0 <= (end_ - start) / US_PER_DAY)
        by (apply Z.div_pos; [lia | reflexivity]).
      specialize (Hpl ltac:(lia)).
      destruct (Hshape _ Hpl) as (Hhead & Hch & Hok & Hend & Hlast).
      split; [exact Hhead|]. split; [exact Hch|]. split; [exact Hok|].
      split.
      { rewrite Forall_forall in *. intros w Hin.
        destruct (Hok w Hin) as [_ Hw]. unfold span_ok.
        rewrite mode_daily, Hw, advance_daily.
        unfold US_PER_DAY, US_PER_MINUTE. lia. }
      split; [exact Hend|]. split; [exact Hlast|].
      pose proof (daily_plan_upright start end_) as Hup.
      destruct Hhead as [rest E]. rewrite E in *. cbn [tl hd snd].
      split; [now inversion Hup|].
      rewrite advance_daily. split.
      * unfold US_PER_DAY, US_PER_MINUTE. lia.
      * intros [Habs _]. vm_compute in Habs. discriminate Habs.
    + split; [reflexivity | discriminate].
  - (* monthly *)
    unfold completes. rewrite mode_monthly.
    destruct (end_ <? LAST_MONTH_START) eqn:Hb.
    + apply Z.ltb_lt in Hb.
      destruct (@iter_from_planned (u "monthly") end_ He (monthly_range Hb)
                  (fuel_for start end_) start Hs (enough_fuel _ Hle))
        as (ws & Hrun & Hpl & Hrep).
      unfold iter_windows at 1. rewrite Hrun.
      split; [reflexivity|]. intros _.
      exists ws. split; [exact Hrun|].
      destruct (Hshape _ Hpl) as (Hhead & Hch & Hok & Hend & Hlast).
      split; [exact Hhead|]. split; [exact Hch|]. split; [exact Hok|].
      split.
      { rewrite Forall_forall in *. intros w Hin.
        apply (@window_span (u "monthly") end_ He (monthly_range Hb) w);
          auto. }
      split; [exact Hend|]. split; [exact Hlast|].
      destruct Hhead as [rest E]. subst ws. cbn [tl hd snd].
      rewrite advance_monthly in *.
      destruct (@advance_spec (u "monthly") end_ He (monthly_range Hb)
                  start Hs Hle) as (_ & Hr & _ & Hal & _).
      rewrite advance_monthly in Hr, Hal.
      split.
      * inversion Hpl as [c Hgt | c ws' Hle' Hrest]; subst.
        rewrite advance_monthly in Hrest.
        exact (@planned_upright end_ He Hb _ _ Hr (Hal mode_monthly) Hrest).
      * split; [intros H; split; [reflexivity | lia] | intros [_ H]; lia].
    + apply Z.ltb_ge in Hb. split; [|discriminate].
      unfold iter_windows.
      exact (@monthly_raises end_ Hb (fuel_for start end_) start Hs Hle
               (enough_fuel _ Hle)).
Qed.

(** 9999-12-30T12:00 to 9999-12-31T00:00, day by day: the day after the
    end is no datetime, and the plan is one window. *)
Lemma iter_windows_spec_witness :
  snd (iter_windows 315537768000000000 315537811200000000 (u "daily"))
  = (if completes (u "daily") 315537768000000000 315537811200000000
     then Exhausted else Raised)
  /\ (completes (u "daily") 315537768000000000 315537811200000000 = true ->
      exists ws : list window,
        iter_windows 315537768000000000 315537811200000000 (u "daily")
        = (ws, Exhausted)
        /\ (exists rest : list window,
              ws = (315537768000000000,
                    Z.min 315537811200000000
                          (advance (u "daily") 315537768000000000
                           - US_PER_MINUTE))
                   :: rest)
        /\ chained ws
        /\ Forall (window_ok (u "daily") 315537811200000000) ws
        /\ Forall (span_ok (u "daily")) ws
        /\ Forall (fun w => snd w <= 315537811200000000) ws
        /\ 315537811200000000 - US_PER_MINUTE
           < snd (last ws (315537768000000000, 315537768000000000))
           <= 315537811200000000
        /\ Forall (fun w => fst w <= snd w) (tl ws)
        /\ (snd (hd (315537768000000000, 315537768000000000) ws)
            < 315537768000000000
            <-> u "daily" = u "monthly"
                /\ next_month_start 315537768000000000 - US_PER_MINUTE
                   < 315537768000000000)).
Proof.
  apply (@iter_windows_spec 315537768000000000 315537811200000000
           (u "daily")).
  - reflexivity.
  - reflexivity.
  - discriminate.
  - left. reflexivity.
Defined.

(** The claim as first stated fails in two ways. At the end of the
    calendar the planner raises before it yields a window: the window of
    9999-12-31 needs the first instant of the year 10000, and the window of
    December 9999 needs January 10000. And a monthly plan that starts in
    the last minute of a month (here 2024-01-31T23:59:30) begins with a
    window that ends before it starts, so that the windows do not cover
    the range from its start. *)
Lemma iter_windows_breaks_claim :
  representable (3652058 * US_PER_DAY) = true
  /\ iter_windows (3652058 * US_PER_DAY) (3652058 * US_PER_DAY) (u "daily")
     = ([], Raised)
  /\ iter_windows LAST_MONTH_START LAST_MONTH_START (u "monthly")
     = ([], Raised)
  /\ ~ (exists ws : list window,
          iter_windows (3652058 * US_PER_DAY) (3652058 * US_PER_DAY)
                       (u "daily") = (ws, Exhausted))
  /\ iter_windows 63842342370000000 63842461200000000 (u "monthly")
     = ([ (63842342370000000, 63842342340000000);
          (63842342400000000, 63842461200000000) ], Exhausted)
  /\ 63842342340000000 < 63842342370000000 <= 63842461200000000.
Proof.
  assert (E : iter_windows (3652058 * US_PER_DAY) (3652058 * US_PER_DAY)
                (u "daily") = ([], Raised)) by (vm_compute; reflexivity).
  split; [vm_compute; reflexivity|].
  split; [exact E|].
  split; [vm_compute; reflexivity|].
  split; [intros [ws H]; rewrite E in H; discriminate H|].
  split; [vm_compute; reflexivity | lia].
Qed.

End PlannerFacts.

(** ** More on the ranker: regions, counters and records *)

Module LeadsLaws.
Import Num NumFacts Datetime Leads SortFacts LeadsFacts Counters.
Import stdpp.base stdpp.gmap.

(** *** The region of an agency *)

Lemma find_first (A : Type) (f : A -> bool) (l : list A) (x : A) :
  find f l = Some x ->
  exists pre post : list A,
    l = pre ++ x :: post /\ f x = true
    /\ List.Forall (fun y => f y = false) pre.
Proof.
  induction l as [|y l IH]; cbn [find]; [discriminate|].
  destruct (f y) eqn:E.
  - intros [= ->]. exists [], l. repeat split; [exact E | constructor].
  - intros H. destruct (IH H) as (pre & post & -> & Hx & Hpre).
    exists (y :: pre), post. repeat split; [exact Hx | now constructor].
Qed.

Lemma find_nothing (A : Type) (f : A -> bool) (l : list A) :
  find f l = None -> List.Forall (fun y => f y = false) l.
Proof.
  intros H. apply List.Forall_forall. intros y Hy.
  exact (find_none f l H y Hy).
Qed.

Lemma regions_fixed :
  forallb (fun r => str_eqb (detect_region r) r) (REGIONS ++ [u "미지정"])
  = true.
Proof. vm_compute. reflexivity. Qed.

(** X16. [detect_region] answers the first region of its table, in the
    order of the table, whose name occurs in the agency name, and the
    unassigned mark when none occurs; an answer of [detect_region] is
    mapped to itself. *)
Theorem detect_region_first_match (agency_name : str) :
  ((detect_region agency_name = u "미지정"
    /\ List.Forall (fun r => contains r agency_name = false) REGIONS)
   \/ (exists before after : list str,
          REGIONS = before ++ detect_region agency_name :: after
          /\ contains (detect_region agency_name) agency_name = true
          /\ List.Forall (fun r => contains r agency_name = false) before))
  /\ detect_region (detect_region agency_name) = detect_region agency_name.
Proof.
  assert (Hcases :
    (detect_region agency_name = u "미지정"
     /\ List.Forall (fun r => contains r agency_name = false) REGIONS)
    \/ (exists before after : list str,
           REGIONS = before ++ detect_region agency_name :: after
           /\ contains (detect_region agency_name) agency_name = true
           /\ List.Forall (fun r => contains r agency_name = false) before)).
  { unfold detect_region.
    destruct (find (fun needle => contains needle agency_name) REGIONS)
      as [region|] eqn:E.
    - right. destruct (find_first _ _ E) as (pre & post & H1 & H2 & H3).
      now exists pre, post.
    - left. split; [reflexivity | now apply find_nothing]. }
  split; [exact Hcases|].
  assert (Hin : List.In (detect_region agency_name) (REGIONS ++ [u "미지정"])).
  { apply List.in_or_app.
    destruct Hcases as [[-> _] | (pre & post & E & _)].
    - right. now left.
    - left. rewrite E. apply List.in_or_app. right. now left. }
  pose proof regions_fixed as H. rewrite forallb_forall in H.
  specialize (H _ Hin). now apply str_eqb_eq in H.
Qed.

(** *** The counters *)

Lemma sum_values_insert (k : str) (v : nat) (d : gmap str nat) :
  d !! k = None -> sum_values (<[ k := v ]> d) = (v + sum_values d)%nat.
Proof.
  intros H. unfold sum_values.
  apply (map_fold_insert_L (fun _ v s => (v + s)%nat)); [|exact H].
  intros. lia.
Qed.

Lemma sum_values_lookup (k : str) (v : nat) (d : gmap str nat) :
  d !! k = Some v -> sum_values d = (v + sum_values (delete k d))%nat.
Proof.
  intros H. rewrite <- (insert_delete_id d k v H) at 1.
  apply sum_values_insert, lookup_delete_eq.
Qed.

Lemma sum_values_bump (k : str) (d : gmap str nat) :
  sum_values (bump k d) = S (sum_values d).
Proof.
  unfold bump. destruct (d !! k) as [v|] eqn:E; cbn [default].
  - rewrite <- insert_delete_eq, sum_values_insert by apply lookup_delete_eq.
    rewrite (@sum_values_lookup k v d E). unfold id. lia.
  - rewrite sum_values_insert by exact E. lia.
Qed.

Lemma sum_values_tally (ks : list str) : sum_values (tally ks) = length ks.
Proof.
  induction ks as [|k ks IH] using rev_ind; [reflexivity|].
  rewrite tally_snoc, sum_values_bump, IH, length_app. cbn [length]. lia.
Qed.

Lemma counted_In (k : str) (ks : list str) (n : nat) :
  counted k ks = Some n -> List.In k ks /\ (1 <= n)%nat.
Proof.
  unfold counted.
  destruct (List.filter (fun x => bool_decide (x = k)) ks) as [|x l] eqn:E;
    cbn [length]; [discriminate|].
  intros [= <-]. split; [|lia].
  assert (Hx : List.In x (List.filter (fun x => bool_decide (x = k)) ks))
    by (rewrite E; now left).
  apply List.filter_In in Hx as [Hin Hk].
  apply bool_decide_eq_true in Hk. now subst x.
Qed.

Section WithEnvironment.
Variable U : unicode_db.
Variable log10 : Q -> Q.
Variable strptime : str -> str -> option datetime.
Variable strftime : datetime -> str -> str.
Variable format_commas : Z -> str.
Variable clock : nat -> datetime.

Local Abbreviation step := (step U log10 strptime strftime format_commas clock).
Local Abbreviation run_loop :=
  (run_loop U log10 strptime strftime format_commas clock).
Local Abbreviation build_leads :=
  (build_leads U log10 strptime strftime format_commas clock).
Local Abbreviation constructed :=
  (constructed U log10 strptime strftime format_commas clock).
Local Abbreviation make_lead :=
  (make_lead U log10 strptime strftime format_commas clock).

Lemma matched_category (n : RawNotice) :
  matched U n = true ->
  List.In (Classifier.match_category U (Notice.notice_title n)).1
    [ (Classifier.CAT_OD, 0.84%Q); (Classifier.CAT_EVAL, 0.78%Q);
      (Classifier.CAT_HRD, 0.72%Q) ].
Proof.
  unfold matched, Classifier.match_category.
  repeat match goal with
         | |- context [if ?b then _ else _] => destruct b
         end; cbn [fst snd]; intros H;
    try (vm_compute in H; discriminate H); cbn [List.In]; tauto.
Qed.

(** Every lead of the loop was made from a matched notice of the list. *)
Lemma loop_leads (keys : gset Recurrence.rkey) (as_of : datetime)
    (P : LeadRecord -> Prop) (ns : list RawNotice) :
  (forall (i : nat) (n : RawNotice),
      List.In n ns -> matched U n = true -> P (make_lead keys as_of i n)) ->
  forall a : acc,
    List.Forall P (leads a) ->
    List.Forall P (leads (fold_left (step keys as_of) ns a)).
Proof.
  induction ns as [|n ns IH]; intros Hmade a Ha; cbn [fold_left]; [exact Ha|].
  apply IH.
  - intros i m Hin. apply Hmade. now right.
  - unfold Leads.step.
    destruct (rejected _) eqn:E; cbn [leads]; [exact Ha|].
    apply List.Forall_app. split; [exact Ha|].
    constructor; [|constructor].
    apply Hmade; [now left|]. unfold matched. now rewrite E.
Qed.

Lemma In_slice_to (A : Type) (n : Z) (l : list A) (x : A) :
  List.In x (slice_to n l) -> List.In x l.
Proof.
  unfold slice_to. destruct (0 <=? n)%Z; intros H.
  - rewrite <- (firstn_skipn (Z.to_nat n) l).
    apply List.in_or_app. left. exact H.
  - rewrite <- (firstn_skipn (length l - Z.to_nat (- n)) l).
    apply List.in_or_app. left. exact H.
Qed.

Lemma selected_leads (P : LeadRecord -> Prop) (ns : list RawNotice)
    (as_of : datetime) (top_n : Z) :
  (forall (i : nat) (n : RawNotice),
      List.In n ns -> matched U n = true ->
      P (make_lead (Recurrence._find_repeated_titles U ns) as_of i n)) ->
  List.Forall P (build_leads ns as_of top_n).1.
Proof.
  intros Hmade. unfold build_leads, Leads.build_leads. cbn [fst].
  assert (Hall : List.Forall P (leads (run_loop ns as_of))).
  { unfold run_loop, Leads.run_loop. apply loop_leads; [exact Hmade|].
    constructor. }
  rewrite List.Forall_forall in *. intros l Hl.
  apply In_slice_to in Hl.
  apply (Permutation_in _ (sort_desc_perm _)) in Hl. now apply Hall.
Qed.
End WithEnvironment.

(** X17. The statistics of [build_leads] add up: the counts by work type
    sum to the total, the counts by category sum to the matched notices,
    no more notices are matched than given, and a category that is
    counted is OD, evaluation or training and has a count of at least
    one. *)
Theorem build_leads_totals (U : unicode_db) (log10 : Q -> Q)
    (strptime : str -> str -> option datetime)
    (strftime : datetime -> str -> str) (format_commas : Z -> str)
    (clock : nat -> datetime)
    (notices : list RawNotice) (as_of_date : datetime) (top_n : Z) :
  let stats :=
    (build_leads U log10 strptime strftime format_commas clock
                 notices as_of_date top_n).2 in
  sum_values (by_work_type stats) = total_notices stats
  /\ sum_values (by_category stats) = matched_notices stats
  /\ (matched_notices stats <= total_notices stats)%nat
  /\ (forall (c : str) (n : nat),
        by_category stats !! c = Some n ->
        (1 <= n)%nat
        /\ List.In c [Classifier.CAT_OD; Classifier.CAT_EVAL;
                      Classifier.CAT_HRD]).
Proof.
  cbn zeta. unfold build_leads. cbn [fst snd total_notices matched_notices
                                     by_work_type by_category].
  destruct (run_loop_counters U log10 strptime strftime format_commas clock
              notices as_of_date) as (Hw & Hc & Hl).
  rewrite Hw, Hc, (Permutation_length (sort_desc_perm _)), Hl.
  rewrite !sum_values_tally, !length_map.
  split; [reflexivity|]. split; [reflexivity|].
  split; [apply List.filter_length_le|].
  intros c n H. rewrite tally_lookup in H.
  apply counted_In in H as [Hin Hn]. split; [exact Hn|].
  apply List.in_map_iff in Hin as (m & <- & Hm).
  apply List.filter_In in Hm as [_ Hm].
  pose proof (matched_category U m Hm) as Hcat. unfold category_of.
  destruct (Classifier.match_category U (Notice.notice_title m)) as [[c s] h].
  cbn [fst snd List.In] in *.
  destruct Hcat as [[= -> _] | [[= -> _] | [[= -> _] | []]]]; tauto.
Qed.

(** X18. The number of leads that [build_leads] returns: the smaller of
    [top_n] and the number of matched notices when [top_n] is not
    negative, all sorted leads when [top_n] is at least that number, and,
    for a negative [top_n], all but the last [-top_n] of the sorted
    leads. *)
Theorem build_leads_selection_size (U : unicode_db) (log10 : Q -> Q)
    (strptime : str -> str -> option datetime)
    (strftime : datetime -> str -> str) (format_commas : Z -> str)
    (clock : nat -> datetime)
    (notices : list RawNotice) (as_of_date : datetime) (top_n : Z) :
  let r := build_leads U log10 strptime strftime format_commas clock
                       notices as_of_date top_n in
  let made := constructed U log10 strptime strftime format_commas clock
                          notices as_of_date in
  Z.of_nat (length r.1)
  = (if (0 <=? top_n)%Z then Z.min top_n (Z.of_nat (matched_notices r.2))
     else Z.max 0 (Z.of_nat (matched_notices r.2) + top_n))%Z
  /\ ((Z.of_nat (matched_notices r.2) <= top_n)%Z -> r.1 = sort_desc made)
  /\ ((top_n < 0)%Z ->
      r.1 = firstn (matched_notices r.2 - Z.to_nat (- top_n))
                   (sort_desc made)).
Proof.
  cbn zeta. unfold build_leads, constructed.
  cbn [fst snd matched_notices].
  set (sorted := sort_desc (leads _)). unfold slice_to.
  destruct (0 <=? top_n)%Z eqn:E.
  - apply Z.leb_le in E. split; [|split].
    + rewrite length_firstn. lia.
    + intros H. apply firstn_all2. lia.
    + lia.
  - apply Z.leb_gt in E. split; [|split].
    + rewrite length_firstn. lia.
    + lia.
    + reflexivity.
Qed.

(** X19. Every lead that [build_leads] returns is made from a notice of
    the input, whose identifiers, title, work type, agency and address it
    copies; its category is that of the title and is OD, evaluation or
    training with the strength of that category; its score lies in
    [0, 100]; its region is that of its agency; its deadline is never
    empty; its date is that of the run. *)
Theorem build_leads_records (U : unicode_db) (log10 : Q -> Q)
    (strptime : str -> str -> option datetime)
    (strftime : datetime -> str -> str) (format_commas : Z -> str)
    (clock : nat -> datetime)
    (notices : list RawNotice) (as_of : datetime) (top_n : Z) :
  List.Forall
    (fun l : LeadRecord =>
       (exists n : RawNotice,
           List.In n notices
           /\ (bid_ntce_no l, bid_ntce_ord l, notice_title l, work_type l,
               agency_name l, source_url l)
              = (Notice.bid_ntce_no n, Notice.bid_ntce_ord n,
                 Notice.notice_title n, Notice.work_type n,
                 Notice.agency_name n, Notice.source_url n)
           /\ category l = category_of U n
           /\ deadline_dt l
              = (if is_nil (Notice.deadline_dt n) then u "미지정"
                 else Notice.deadline_dt n))
       /\ List.In (category l, match_strength l)
            [ (Classifier.CAT_OD, 0.84%Q); (Classifier.CAT_EVAL, 0.78%Q);
              (Classifier.CAT_HRD, 0.72%Q) ]
       /\ (0 <= urgency_score l <= 100)%Z
       /\ region_guess l = detect_region (agency_name l)
       /\ deadline_dt l <> []
       /\ as_of_date l = strftime as_of (u "%Y-%m-%d"))
    (build_leads U log10 strptime strftime format_commas clock
                 notices as_of top_n).1.
Proof.
  apply selected_leads. intros i n Hin Hm.
  pose proof (matched_category U n Hm) as Hcat.
  unfold make_lead, category_of.
  destruct (Classifier.match_category U (Notice.notice_title n))
    as [[c s] h] eqn:Emc.
  cbn [fst snd category match_strength urgency_score region_guess
       deadline_dt as_of_date bid_ntce_no bid_ntce_ord notice_title
       work_type agency_name source_url budget_amt] in *.
  split; [|split; [|split; [|split; [|split]]]].
  - exists n. split; [exact Hin|]. split; [reflexivity|].
    split; [now rewrite Emc | reflexivity].
  - cbn [List.In] in *.
    destruct Hcat as [E | [E | [E | []]]]; injection E as <- <-;
      [left | right; left | right; right; left]; reflexivity.
  - unfold Scorer.urgency_score_default, Scorer.urgency_score.
    rewrite round_clamp. apply clampZ_range.
  - reflexivity.
  - destruct (Notice.deadline_dt n) as [|c0 d0]; cbn [is_nil]; discriminate.
  - reflexivity.
Qed.

End LeadsLaws.

Module CountersFacts.
Import Num NumFacts Datetime Leads SortFacts LeadsFacts Counters LeadsLaws.
Import stdpp.base stdpp.gmap.

Lemma filter_perm (A : Type) (f : A -> bool) (l l' : list A) :
  Permutation l l' -> Permutation (List.filter f l) (List.filter f l').
Proof.
  induction 1 as [|x l l' _ IH|x y l|l l' l'' _ IH1 _ IH2];
    cbn [List.filter].
  - constructor.
  - destruct (f x); [now constructor | exact IH].
  - destruct (f x), (f y); try reflexivity. apply perm_swap.
  - now transitivity (List.filter f l').
Qed.

Lemma counted_perm (k : str) (ks ks' : list str) :
  Permutation ks ks' -> counted k ks = counted k ks'.
Proof.
  intros H. unfold counted.
  now rewrite (Permutation_length (filter_perm _ H)).
Qed.

Lemma tally_perm (ks ks' : list str) :
  Permutation ks ks' -> tally ks = tally ks'.
Proof.
  intros H. apply map_eq. intros k. rewrite !tally_lookup.
  now apply counted_perm.
Qed.

(** X20. The statistics of [build_leads] depend on the notices as a
    multiset only: a reordered batch gives the same statistics, whatever
    the clock, the date of the run and [top_n]. *)
Theorem build_leads_stats_order (U : unicode_db) (log10 log10' : Q -> Q)
    (strptime strptime' : str -> str -> option datetime)
    (strftime strftime' : datetime -> str -> str)
    (format_commas format_commas' : Z -> str)
    (clock clock' : nat -> datetime)
    (notices notices' : list RawNotice) (as_of as_of' : datetime)
    (top_n top_n' : Z) :
  Permutation notices notices' ->
  (build_leads U log10 strptime strftime format_commas clock
               notices as_of top_n).2
  = (build_leads U log10' strptime' strftime' format_commas' clock'
                 notices' as_of' top_n').2.
Proof.
  intros H. unfold build_leads. cbn [snd].
  destruct (run_loop_counters U log10 strptime strftime format_commas clock
              notices as_of) as (Hw & Hc & Hl).
  destruct (run_loop_counters U log10' strptime' strftime' format_commas'
              clock' notices' as_of') as (Hw' & Hc' & Hl').
  rewrite Hw, Hc, Hw', Hc'.
  rewrite !(Permutation_length (sort_desc_perm _)), Hl, Hl'.
  f_equal.
  - now apply Permutation_length.
  - now apply Permutation_length, filter_perm.
  - apply tally_perm. now apply Permutation_map, filter_perm.
  - apply tally_perm. now apply Permutation_map.
Qed.

Lemma build_leads_stats_order_witness :
  (build_leads Classifier.basic_unicode Scorer.log10_floor
     (fun _ _ => None) (fun _ _ => []) (fun _ => []) (fun _ => 0%Z)
     example_batch 0%Z 1%Z).2
  = (build_leads Classifier.basic_unicode Scorer.log10_floor
       (fun _ _ => None) (fun _ _ => []) (fun _ => []) (fun _ => 0%Z)
       (rev example_batch) 0%Z 50%Z).2.
Proof.
  apply (@build_leads_stats_order Classifier.basic_unicode).
  apply Permutation_rev.
Defined.
End CountersFacts.

(** ** More on the recurrence detector: years and batches *)

Module YearsFacts.
Import Re ReFacts Recurrence RecurrenceFacts Years.

Section Dropping.
Variable U : unicode_db.

Lemma closes_years_tail (c : char) (a : str) :
  closes_years (c :: a) -> closes_years a.
Proof.
  intros H i Hi. apply (H (S i)). cbn [length]. lia.
Qed.

Lemma closes_years_skipn (k : nat) (a : str) :
  closes_years a -> closes_years (skipn k a).
Proof.
  revert a. induction k as [|k IH]; intros a H; [exact H|].
  destruct a as [|c a]; [exact H|].
  cbn [skipn]. apply IH. now apply closes_years_tail with c.
Qed.

Lemma year_here_app (c : char) (a s : str) :
  closes_years (c :: a) ->
  year_here U ((c :: a) ++ s) = year_here U (c :: a).
Proof.
  intros H.
  destruct a as [|c2 [|c3 [|c4 a]]]; cbn [app]; [| | |reflexivity];
    (assert (Hc : c <> 50%N) by (apply (H 0%nat); cbn [length]; lia));
    apply N.eqb_neq in Hc; unfold year_here;
    repeat match goal with
           | |- context [match ?l with [] => _ | _ :: _ => _ end] =>
               destruct l
           end; try reflexivity; now rewrite Hc.
Qed.

Lemma year_here_long (a : str) :
  year_here U a = true -> (4 <= length a)%nat.
Proof.
  destruct a as [|c1 [|c2 [|c3 [|c4 a]]]]; try discriminate.
  intros _. cbn [length]. lia.
Qed.

(** The years of a string that closes its years are dropped without a
    look at what follows. *)
Lemma drop_years_app (n : nat) (s : str) :
  forall a : str,
    (length a <= n)%nat -> closes_years a ->
    drop_years U 0 (a ++ s) = drop_years U 0 a ++ drop_years U 0 s.
Proof.
  induction n as [|n IH]; intros a Hlen Hc.
  - destruct a; [reflexivity | cbn [length] in Hlen; lia].
  - destruct a as [|c a]; [reflexivity|].
    change ((c :: a) ++ s) with (c :: (a ++ s)).
    rewrite !drop_years_step.
    change (c :: (a ++ s)) with ((c :: a) ++ s).
    rewrite (year_here_app s Hc).
    destruct (year_here U (c :: a)) eqn:Hy.
    + pose proof (year_here_long _ Hy) as H4.
      rewrite skipn_app.
      replace (4 - length (c :: a))%nat with 0%nat by lia.
      change (skipn 0 s) with s.
      apply IH.
      * rewrite length_skipn. cbn [length] in *. lia.
      * now apply closes_years_skipn.
    + cbn [app]. f_equal. apply IH.
      * cbn [length] in Hlen. lia.
      * now apply closes_years_tail with c.
Qed.

Lemma drop_year_front (y b : str) :
  is_year U y -> drop_years U 0 (y ++ b) = drop_years U 0 b.
Proof.
  intros (d1 & d2 & -> & H1 & H2).
  cbn [app]. rewrite drop_years_step.
  unfold year_here. rewrite H1, H2. reflexivity.
Qed.

Lemma normalize_years_alike (a y1 y2 b : str) :
  closes_years a -> is_year U y1 -> is_year U y2 ->
  _normalize_title U (a ++ y1 ++ b) = _normalize_title U (a ++ y2 ++ b).
Proof.
  intros Ha H1 H2. unfold _normalize_title. rewrite !sub_year.
  rewrite !(@drop_years_app (length a) _ a (le_n _) Ha).
  now rewrite (drop_year_front b H1), (drop_year_front b H2).
Qed.
End Dropping.

Import stdpp.base stdpp.gmap.

Section Repeated.
Variable U : unicode_db.

Lemma group_size_app (k : rkey) (ns ms : list RawNotice) :
  group_size U k (ns ++ ms) = (group_size U k ns + group_size U k ms)%nat.
Proof. unfold group_size. now rewrite List.filter_app, length_app. Qed.

Lemma group_size_cons (k : rkey) (n : RawNotice) (ns : list RawNotice) :
  group_size U k (n :: ns)
  = ((if decide (title_key U n = k) then 1 else 0) + group_size U k ns)%nat.
Proof.
  unfold group_size. cbn [List.filter].
  destruct (decide (title_key U n = k)) as [E|N].
  - rewrite bool_decide_eq_true_2 by exact E. reflexivity.
  - rewrite bool_decide_eq_false_2 by exact N. reflexivity.
Qed.

Lemma group_size_perm (k : rkey) (ns ns' : list RawNotice) :
  Permutation ns ns' -> group_size U k ns = group_size U k ns'.
Proof.
  induction 1 as [|x l l' _ IH|x y l|l l' l'' _ IH1 _ IH2].
  - reflexivity.
  - rewrite !group_size_cons. now rewrite IH.
  - rewrite !group_size_cons. lia.
  - now transitivity (group_size U k l').
Qed.
End Repeated.

(** X21. Two notices of one agency whose titles differ in a year only
    (20 and two digits, after a text whose last three characters do not
    hold the digit 2) have the same normalised title and the same key, and
    that key is repeated in every batch that holds both. *)
Theorem yearly_reissues_share_a_key (U : unicode_db)
    (a y1 y2 b : str) (n1 n2 : RawNotice)
    (before between after : list RawNotice) :
  closes_years a -> is_year U y1 -> is_year U y2 ->
  Notice.notice_title n1 = a ++ y1 ++ b ->
  Notice.notice_title n2 = a ++ y2 ++ b ->
  Notice.agency_name n1 = Notice.agency_name n2 ->
  _normalize_title U (a ++ y1 ++ b) = _normalize_title U (a ++ y2 ++ b)
  /\ title_key U n1 = title_key U n2
  /\ title_key U n1
       ∈ _find_repeated_titles U (before ++ n1 :: between ++ n2 :: after).
Proof.
  intros Ha H1 H2 T1 T2 Hagency.
  pose proof (normalize_years_alike b Ha H1 H2) as E.
  assert (Ek : title_key U n1 = title_key U n2).
  { unfold title_key. now rewrite T1, T2, E, Hagency. }
  split; [exact E|]. split; [exact Ek|].
  apply find_repeated_iff.
  rewrite group_size_app, group_size_cons, group_size_app, group_size_cons.
  rewrite decide_True by reflexivity.
  rewrite decide_True by (symmetry; exact Ek).
  lia.
Qed.

(** The same course, announced by the same agency in 2024 and in 2025. *)
Lemma yearly_reissues_share_a_key_witness :
  let n1 := Leads.example_notice "1" "HRD 2024 교육" "용역" "서울시" ""
                                 None "u1" in
  let n2 := Leads.example_notice "2" "HRD 2025 교육" "용역" "서울시" ""
                                 None "u2" in
  _normalize_title Classifier.basic_unicode
    (u "HRD " ++ u "2024" ++ u " 교육")
  = _normalize_title Classifier.basic_unicode
      (u "HRD " ++ u "2025" ++ u " 교육")
  /\ title_key Classifier.basic_unicode n1
     = title_key Classifier.basic_unicode n2
  /\ title_key Classifier.basic_unicode n1
       ∈ _find_repeated_titles Classifier.basic_unicode
           ([] ++ n1 :: [] ++ n2 :: []).
Proof.
  apply (@yearly_reissues_share_a_key Classifier.basic_unicode
           (u "HRD ") (u "2024") (u "2025") (u " 교육")).
  - intros i Hi. vm_compute in Hi.
    destruct i as [|[|[|[|i]]]]; vm_compute; try discriminate; lia.
  - exists 50%N, 52%N. vm_compute. repeat split.
  - exists 50%N, 53%N. vm_compute. repeat split.
  - vm_compute. reflexivity.
  - vm_compute. reflexivity.
  - reflexivity.
Defined.

(** X22. The repeated keys of a batch stay repeated when notices are added
    after or before it, and do not depend on the order of the batch. *)
Theorem find_repeated_titles_grows (U : unicode_db)
    (notices more : list RawNotice) :
  _find_repeated_titles U notices ⊆ _find_repeated_titles U (notices ++ more)
  /\ _find_repeated_titles U notices
      ⊆ _find_repeated_titles U (more ++ notices)
  /\ (forall notices' : list RawNotice,
         Permutation notices notices' ->
         _find_repeated_titles U notices = _find_repeated_titles U notices').
Proof.
  split; [|split].
  - intros k Hk. apply find_repeated_iff in Hk. apply find_repeated_iff.
    rewrite group_size_app. lia.
  - intros k Hk. apply find_repeated_iff in Hk. apply find_repeated_iff.
    rewrite group_size_app. lia.
  - intros notices' Hp. apply set_eq. intros k.
    rewrite !find_repeated_iff. now rewrite (group_size_perm U k Hp).
Qed.

End YearsFacts.

(** ** The address of a notice *)

Module UrlFacts.
Import Url.
Local Open Scope N_scope.

Ltac n_arith := zify; Z.to_euclidean_division_equations; lia.

Lemma utf8_encode_char_None (c : char) :
  utf8_encode_char c = None <-> surrogate c = true.
Proof.
  unfold utf8_encode_char, surrogate.
  destruct (c <? 128) eqn:E1; [|destruct (c <? 2048) eqn:E2;
    [|destruct (c <? 65536) eqn:E3]];
    rewrite ?N.ltb_lt, ?N.ltb_ge in *.
  - split; [discriminate|]. intros H. apply andb_prop in H as [H _].
    apply N.leb_le in H. lia.
  - split; [discriminate|]. intros H. apply andb_prop in H as [H _].
    apply N.leb_le in H. lia.
  - destruct ((55296 <=? c) && (c <=? 57343)); split; congruence.
  - split; [discriminate|]. intros H. apply andb_prop in H as [_ H].
    apply N.leb_le in H. lia.
Qed.

(** A string is encoded unless it holds a surrogate. *)
Lemma utf8_encode_None (s : str) :
  utf8_encode s = None <-> existsb surrogate s = true.
Proof.
  induction s as [|c s IH]; cbn [utf8_encode existsb].
  - split; discriminate.
  - rewrite orb_true_iff, <- IH, <- utf8_encode_char_None.
    destruct (utf8_encode_char c), (utf8_encode s); split;
      try discriminate; try tauto; intros [H | H]; discriminate H.
Qed.

(** The literal decoder reads an encoded code point back. *)
Lemma decode_encode_char (c : char) (bs rest : list N) :
  utf8_encode_char c = Some bs ->
  utf8_decode (bs ++ rest) = c :: utf8_decode rest.
Proof.
  unfold utf8_encode_char.
  destruct (c <? 128) eqn:E1.
  { intros [= <-]. cbn [app utf8_decode]. now rewrite E1. }
  destruct (c <? 2048) eqn:E2.
  { intros [= <-]. cbn [app utf8_decode].
    apply N.ltb_ge in E1. apply N.ltb_lt in E2.
    replace (192 + c / 64 <? 128) with false
      by (symmetry; apply N.ltb_ge; n_arith).
    replace (192 + c / 64 <? 224) with true
      by (symmetry; apply N.ltb_lt; n_arith).
    f_equal. n_arith. }
  destruct (c <? 65536) eqn:E3.
  { destruct ((55296 <=? c) && (c <=? 57343)); [discriminate|].
    intros [= <-]. cbn [app utf8_decode].
    apply N.ltb_ge in E1, E2. apply N.ltb_lt in E3.
    replace (224 + c / 4096 <? 128) with false
      by (symmetry; apply N.ltb_ge; n_arith).
    replace (224 + c / 4096 <? 224) with false
      by (symmetry; apply N.ltb_ge; n_arith).
    replace (224 + c / 4096 <? 240) with true
      by (symmetry; apply N.ltb_lt; n_arith).
    f_equal. n_arith. }
  intros [= <-]. cbn [app utf8_decode].
  apply N.ltb_ge in E1, E2, E3.
  replace (240 + c / 262144 <? 128) with false
    by (symmetry; apply N.ltb_ge; n_arith).
  replace (240 + c / 262144 <? 224) with false
    by (symmetry; apply N.ltb_ge; n_arith).
  replace (240 + c / 262144 <? 240) with false
    by (symmetry; apply N.ltb_ge; n_arith).
  f_equal. n_arith.
Qed.

Lemma decode_encode (s : str) (bs : list N) :
  utf8_encode s = Some bs -> utf8_decode bs = s.
Proof.
  revert bs. induction s as [|c s IH]; intros bs; cbn [utf8_encode].
  - now intros [= <-].
  - destruct (utf8_encode_char c) as [cs|] eqn:Ec; [|discriminate].
    destruct (utf8_encode s) as [rest|]; [|discriminate].
    intros [= <-]. rewrite (@decode_encode_char c cs rest Ec). f_equal.
    now apply IH.
Qed.

Lemma utf8_encode_inj (s t : str) (bs : list N) :
  utf8_encode s = Some bs -> utf8_encode t = Some bs -> s = t.
Proof.
  intros Hs Ht. rewrite <- (@decode_encode s bs Hs). now apply decode_encode.
Qed.

Lemma utf8_encode_char_bytes (c : char) (bs : list N) :
  c < 1114112 -> utf8_encode_char c = Some bs ->
  Forall (fun b => b < 256) bs.
Proof.
  intros Hc. unfold utf8_encode_char.
  destruct (c <? 128) eqn:E1; [|destruct (c <? 2048) eqn:E2;
    [|destruct (c <? 65536) eqn:E3;
      [destruct ((55296 <=? c) && (c <=? 57343)); [discriminate|]|]]];
    rewrite ?N.ltb_lt, ?N.ltb_ge in *; intros [= <-];
    repeat constructor; n_arith.
Qed.

Lemma utf8_encode_bytes (s : str) (bs : list N) :
  Forall (fun c => c < 1114112) s -> utf8_encode s = Some bs ->
  Forall (fun b => b < 256) bs.
Proof.
  intros Hs. revert bs.
  induction Hs as [|c s Hc _ IH]; intros bs; cbn [utf8_encode].
  - intros [= <-]. constructor.
  - destruct (utf8_encode_char c) as [cs|] eqn:Ec; [|discriminate].
    destruct (utf8_encode s) as [rest|]; [|discriminate].
    intros [= <-]. apply Forall_app. split.
    + exact (@utf8_encode_char_bytes c cs Hc Ec).
    + now apply IH.
Qed.

(** *** Percent-encoding *)

Lemma hex_digit_safe (n : N) : n < 16 -> ALWAYS_SAFE (hex_digit n) = true.
Proof.
  intros H. unfold hex_digit, ALWAYS_SAFE.
  destruct (n <? 10) eqn:E; rewrite ?N.ltb_lt, ?N.ltb_ge in E.
  - replace ((48 <=? 48 + n) && (48 + n <=? 57)) with true;
      [now rewrite orb_true_r|].
    symmetry. apply andb_true_iff. rewrite !N.leb_le. lia.
  - replace ((65 <=? 55 + n) && (55 + n <=? 90)) with true; [reflexivity|].
    symmetry. apply andb_true_iff. rewrite !N.leb_le. lia.
Qed.

Lemma hex_digit_inj (n m : N) :
  n < 16 -> m < 16 -> hex_digit n = hex_digit m -> n = m.
Proof.
  unfold hex_digit. intros Hn Hm.
  destruct (n <? 10) eqn:En; destruct (m <? 10) eqn:Em;
    rewrite ?N.ltb_lt, ?N.ltb_ge in *; lia.
Qed.

Lemma quote_byte_chars (b : N) :
  b < 256 -> forallb quoted_char (quote_byte [47] b) = true.
Proof.
  intros Hb. unfold quote_byte, quoted_char.
  destruct (ALWAYS_SAFE b || existsb (N.eqb b) [47]) eqn:E;
    cbn [forallb existsb] in *.
  - rewrite orb_false_r in E. rewrite E. reflexivity.
  - rewrite !hex_digit_safe by n_arith. reflexivity.
Qed.

Lemma quote_from_bytes_chars (bs : list N) :
  Forall (fun b => b < 256) bs ->
  forallb quoted_char (quote_from_bytes bs [47]) = true.
Proof.
  unfold quote_from_bytes.
  induction 1 as [|b bs Hb _ IH]; cbn [flat_map]; [reflexivity|].
  rewrite forallb_app, IH, (quote_byte_chars Hb). reflexivity.
Qed.

Lemma quote_from_bytes_inj (bs1 : list N) :
  forall bs2 : list N,
    Forall (fun b => b < 256) bs1 -> Forall (fun b => b < 256) bs2 ->
    quote_from_bytes bs1 [47] = quote_from_bytes bs2 [47] -> bs1 = bs2.
Proof.
  unfold quote_from_bytes.
  induction bs1 as [|b1 r1 IH]; intros [|b2 r2] H1 H2; cbn [flat_map].
  - reflexivity.
  - unfold quote_byte. destruct (_ || _); discriminate.
  - unfold quote_byte. destruct (_ || _); discriminate.
  - inversion H1 as [|? ? Hb1 Hr1]; inversion H2 as [|? ? Hb2 Hr2]; subst.
    unfold quote_byte.
    destruct (ALWAYS_SAFE b1 || existsb (N.eqb b1) [47]) eqn:S1;
      destruct (ALWAYS_SAFE b2 || existsb (N.eqb b2) [47]) eqn:S2;
      cbn [app]; intros E.
    + injection E as -> E. f_equal. now apply IH.
    + injection E as -> _. vm_compute in S1. discriminate S1.
    + injection E as <- _. vm_compute in S2. discriminate S2.
    + injection E as Eh El E.
      apply hex_digit_inj in Eh; [|n_arith|n_arith].
      apply hex_digit_inj in El; [|n_arith|n_arith].
      assert (b1 = b2) by n_arith. subst b2. f_equal. now apply IH.
Qed.

Lemma code_points_bound (s : str) :
  code_points s -> Forall (fun c => c < 1114112) s.
Proof.
  unfold code_points. rewrite forallb_forall, Forall_forall.
  intros H c Hc. apply N.ltb_lt. now apply H.
Qed.

Lemma quote_inj (s t q : str) :
  code_points s -> code_points t ->
  quote s = Some q -> quote t = Some q -> s = t.
Proof.
  unfold quote. intros Hs Ht.
  destruct (utf8_encode s) as [bs|] eqn:Es; [|discriminate].
  destruct (utf8_encode t) as [bt|] eqn:Et; [|discriminate].
  intros [= <-] [= E].
  apply quote_from_bytes_inj in E.
  - subst bt. exact (@utf8_encode_inj s t bs Es Et).
  - exact (@utf8_encode_bytes t bt (code_points_bound Ht) Et).
  - exact (@utf8_encode_bytes s bs (code_points_bound Hs) Es).
Qed.

Lemma quote_chars (s q : str) :
  code_points s -> quote s = Some q -> forallb quoted_char q = true.
Proof.
  unfold quote. intros Hs.
  destruct (utf8_encode s) as [bs|] eqn:Es; [|discriminate].
  intros [= <-]. apply quote_from_bytes_chars.
  exact (@utf8_encode_bytes s bs (code_points_bound Hs) Es).
Qed.

Lemma quote_None (s : str) : quote s = None <-> existsb surrogate s = true.
Proof.
  rewrite <- utf8_encode_None. unfold quote.
  destruct (utf8_encode s); split; congruence.
Qed.

(** [build_notice_url] fails for a number that is not empty when the
    number or the order holds a surrogate, and only then. *)
Lemma build_notice_url_None (bid_no bid_ord : str) :
  build_notice_url bid_no bid_ord = None
  <-> bid_no <> []
      /\ existsb surrogate bid_no || existsb surrogate bid_ord = true.
Proof.
  unfold build_notice_url. destruct bid_no as [|c0 s0]; cbn [is_nil].
  - split; [discriminate | intros [H _]; congruence].
  - fold (ord_or_zero bid_ord).
    assert (Hsur : existsb surrogate (ord_or_zero bid_ord)
                   = existsb surrogate bid_ord)
      by (unfold ord_or_zero; destruct bid_ord; reflexivity).
    destruct (quote (c0 :: s0)) as [no|] eqn:Eno.
    + destruct (quote (ord_or_zero bid_ord)) as [ord|] eqn:Eord.
      * split; [discriminate|]. intros [_ H]. exfalso.
        apply orb_prop in H as [H | H].
        -- apply quote_None in H. congruence.
        -- rewrite <- Hsur in H. apply quote_None in H. congruence.
      * split; [|reflexivity]. intros _. split; [discriminate|].
        apply quote_None in Eord. rewrite Hsur in Eord. rewrite Eord.
        apply orb_true_r.
    + split; [|reflexivity]. intros _. split; [discriminate|].
      apply quote_None in Eno. now rewrite Eno.
Qed.

Lemma quoted_is_url_char (q : str) :
  forallb quoted_char q = true -> forallb url_char q = true.
Proof.
  rewrite !forallb_forall. intros H c Hc. unfold url_char.
  now rewrite (H c Hc).
Qed.

Lemma no_ampersand (q : str) :
  forallb quoted_char q = true -> ~ In 38 q.
Proof.
  rewrite forallb_forall. intros H Hin. specialize (H _ Hin).
  vm_compute in H. discriminate H.
Qed.

(** Two strings that are cut at the first occurrence of a character. *)
Lemma split_at_first (A : Type) (x : A) (a1 : list A) :
  forall (a2 r1 r2 : list A),
    ~ In x a1 -> ~ In x a2 ->
    a1 ++ x :: r1 = a2 ++ x :: r2 -> a1 = a2 /\ r1 = r2.
Proof.
  induction a1 as [|y a1 IH]; intros [|z a2] r1 r2 H1 H2 E;
    cbn [app In] in *.
  - injection E as E. now split.
  - injection E as -> _. tauto.
  - injection E as -> _. tauto.
  - injection E as -> E.
    destruct (IH a2 r1 r2) as [-> ->]; try tauto.
Qed.

Lemma build_notice_url_parts (bid_no bid_ord url : str) :
  bid_no <> [] ->
  build_notice_url bid_no bid_ord = Some url ->
  exists no ord : str,
    quote bid_no = Some no /\ quote (ord_or_zero bid_ord) = Some ord
    /\ url = NOTICE_URL ++ u "bidNtceNo=" ++ no ++ u "&bidNtceOrd=" ++ ord.
Proof.
  intros Hne. unfold build_notice_url. fold (ord_or_zero bid_ord).
  destruct bid_no as [|c0 s0]; [congruence|]. cbn [is_nil].
  destruct (quote (c0 :: s0)) as [no|]; [|discriminate].
  destruct (quote (ord_or_zero bid_ord)) as [ord|]; [|discriminate].
  intros H. exists no, ord. split; [reflexivity|]. split; [reflexivity|].
  symmetry.
  exact (f_equal (fun o : option str => match o with
                                        | Some x => x
                                        | None => []
                                        end) H).
Qed.

Lemma fixed_parts_chars :
  forallb url_char NOTICE_URL = true
  /\ forallb url_char (u "bidNtceNo=") = true
  /\ forallb url_char (u "&bidNtceOrd=") = true.
Proof. vm_compute. repeat split. Qed.

(** X23. [build_notice_url]: an empty notice number gives the unassigned
    mark; otherwise the call fails exactly when the number or the order
    holds a surrogate, and an address that is built is the fixed prefix,
    the quoted number and the quoted order (0 for an empty one), and holds
    only ASCII letters, digits and the characters [_ . - ~ / % : ? = &]. *)
Theorem build_notice_url_shape (bid_no bid_ord : str) :
  code_points bid_no -> code_points bid_ord ->
  (bid_no = [] -> build_notice_url bid_no bid_ord = Some UNASSIGNED)
  /\ (bid_no <> [] ->
      (build_notice_url bid_no bid_ord = None
       <-> existsb surrogate bid_no || existsb surrogate bid_ord = true)
      /\ (forall url : str,
            build_notice_url bid_no bid_ord = Some url ->
            forallb url_char url = true
            /\ exists no ord : str,
                 quote bid_no = Some no
                 /\ quote (ord_or_zero bid_ord) = Some ord
                 /\ url = NOTICE_URL ++ u "bidNtceNo=" ++ no
                                     ++ u "&bidNtceOrd=" ++ ord)).
Proof.
  intros Hno Hord.
  assert (Hord' : code_points (ord_or_zero bid_ord)).
  { unfold ord_or_zero. destruct (is_nil bid_ord); [|exact Hord].
    reflexivity. }
  assert (Hsur : existsb surrogate (ord_or_zero bid_ord)
                 = existsb surrogate bid_ord).
  { unfold ord_or_zero. destruct bid_ord; reflexivity. }
  split; [intros ->; reflexivity|].
  intros Hne. split.
  - unfold build_notice_url. fold (ord_or_zero bid_ord).
    destruct bid_no as [|c0 s0]; [congruence|]. cbn [is_nil].
    destruct (quote (c0 :: s0)) as [no|] eqn:Eno.
    + destruct (quote (ord_or_zero bid_ord)) as [ord|] eqn:Eord.
      * split; [discriminate|]. intros H. exfalso.
        apply orb_prop in H as [H | H].
        -- apply quote_None in H. congruence.
        -- rewrite <- Hsur in H. apply quote_None in H. congruence.
      * split; [|reflexivity]. intros _.
        apply quote_None in Eord. rewrite Hsur in Eord. rewrite Eord.
        apply orb_true_r.
    + split; [|reflexivity]. intros _.
      apply quote_None in Eno. now rewrite Eno.
  - intros url Hurl.
    destruct (@build_notice_url_parts bid_no bid_ord url Hne Hurl)
      as (no & ord & Qno & Qord & ->).
    split; [|now exists no, ord].
    pose proof (@quote_chars _ _ Hno Qno) as Cno.
    pose proof (@quote_chars _ _ Hord' Qord) as Cord.
    destruct fixed_parts_chars as (F1 & F2 & F3).
    rewrite !forallb_app, F1, F2, F3.
    rewrite (quoted_is_url_char _ Cno), (quoted_is_url_char _ Cord).
    reflexivity.
Qed.

Lemma build_notice_url_shape_witness :
  (u "20240101234" = [] ->
   build_notice_url (u "20240101234") (u "00") = Some UNASSIGNED)
  /\ (u "20240101234" <> [] ->
      (build_notice_url (u "20240101234") (u "00") = None
       <-> existsb surrogate (u "20240101234") || existsb surrogate (u "00")
           = true)
      /\ (forall url : str,
            build_notice_url (u "20240101234") (u "00") = Some url ->
            forallb url_char url = true
            /\ exists no ord : str,
                 quote (u "20240101234") = Some no
                 /\ quote (ord_or_zero (u "00")) = Some ord
                 /\ url = NOTICE_URL ++ u "bidNtceNo=" ++ no
                                     ++ u "&bidNtceOrd=" ++ ord)).
Proof.
  apply (@build_notice_url_shape (u "20240101234") (u "00"));
    reflexivity.
Defined.

(** X24. The address determines the notice: two non-empty notice numbers
    with their orders that get the same address are the same number and,
    an empty order read as 0, the same order. *)
Theorem build_notice_url_injective (no1 ord1 no2 ord2 url : str) :
  code_points no1 -> code_points ord1 ->
  code_points no2 -> code_points ord2 ->
  no1 <> [] -> no2 <> [] ->
  build_notice_url no1 ord1 = Some url ->
  build_notice_url no2 ord2 = Some url ->
  no1 = no2 /\ ord_or_zero ord1 = ord_or_zero ord2.
Proof.
  intros C1 D1 C2 D2 N1 N2 H1 H2.
  destruct (@build_notice_url_parts no1 ord1 url N1 H1)
    as (q1 & o1 & Q1 & O1 & E1).
  destruct (@build_notice_url_parts no2 ord2 url N2 H2)
    as (q2 & o2 & Q2 & O2 & E2).
  rewrite E1 in E2. apply app_inv_head in E2. apply app_inv_head in E2.
  change (u "&bidNtceOrd=") with (38 :: u "bidNtceOrd=") in E2.
  cbn [app] in E2.
  apply split_at_first in E2 as [-> E2].
  - apply app_inv_head in E2. subst o2.
    split.
    + exact (@quote_inj no1 no2 q2 C1 C2 Q1 Q2).
    + apply (@quote_inj _ _ o1); try assumption.
      * unfold ord_or_zero. destruct (is_nil ord1); [reflexivity|].
        exact D1.
      * unfold ord_or_zero. destruct (is_nil ord2); [reflexivity|].
        exact D2.
  - apply no_ampersand. exact (@quote_chars _ _ C1 Q1).
  - apply no_ampersand. exact (@quote_chars _ _ C2 Q2).
Qed.
(** Two readings of one address. *)
Lemma build_notice_url_injective_witness :
  u "20240101234" = u "20240101234" /\ ord_or_zero [] = ord_or_zero (u "0").
Proof.
  apply (@build_notice_url_injective (u "20240101234") [] (u "20240101234")
           (u "0")
           (NOTICE_URL ++ u "bidNtceNo=20240101234&bidNtceOrd=0")).
  - reflexivity.
  - reflexivity.
  - reflexivity.
  - reflexivity.
  - discriminate.
  - discriminate.
  - vm_compute. reflexivity.
  - vm_compute. reflexivity.
Defined.
End UrlFacts.

(** ** From items to notices *)

Module IngestFacts.
Import Json Ingest StrFacts Url UrlFacts.

Lemma remove_commas_clean (s : str) : ~ In 44%N (remove_commas s).
Proof.
  unfold remove_commas. intros H. apply filter_In in H as [_ H].
  discriminate H.
Qed.

Lemma remove_commas_keeps (s : str) :
  ~ In 44%N s -> remove_commas s = s.
Proof.
  unfold remove_commas. induction s as [|c s IH]; cbn [filter In];
    [reflexivity|].
  intros H. destruct (c =? 44)%N eqn:E.
  - apply N.eqb_eq in E. subst c. tauto.
  - cbn [negb]. f_equal. apply IH. tauto.
Qed.

Lemma str_or_nonempty (s default : str) :
  default <> [] -> str_or s default <> [].
Proof. unfold str_or. destruct s; cbn [is_nil]; [trivial | discriminate]. Qed.

Section WithEnvironment.
Variable U : unicode_db.
Variable repr : json -> str.
Variable py_float : str -> option Q.

Lemma parse_budget_from_first (item : PyDict.dict str json)
    (keys : list str) (x : Q) :
  parse_budget_from repr py_float item keys = Some x
  <-> exists before key after,
        keys = before ++ key :: after
        /\ amount_of repr py_float item key = Some x
        /\ Forall (fun k => amount_of repr py_float item k = None) before.
Proof.
  induction keys as [|k keys IH]; cbn [parse_budget_from].
  - split; [discriminate|]. intros ([|? ?] & ? & ? & E & _); discriminate E.
  - assert (Hk : amount_of repr py_float item k = None
                 -> parse_budget_from repr py_float item (k :: keys)
                    = parse_budget_from repr py_float item keys).
    { unfold amount_of. cbn [parse_budget_from].
      destruct (blank (dict_get item k JNull)); [reflexivity|].
      now intros ->. }
    destruct (amount_of repr py_float item k) as [y|] eqn:Ek.
    + assert (Hy : parse_budget_from repr py_float item (k :: keys) = Some y).
      { unfold amount_of in Ek. cbn [parse_budget_from].
        destruct (blank (dict_get item k JNull)); [discriminate|].
        now rewrite Ek. }
      cbn [parse_budget_from] in Hy. rewrite Hy.
      split.
      * intros [= ->]. exists [], k, keys. repeat split; [exact Ek|constructor].
      * intros ([|k' before] & key & after & E & Hx & Hnone);
          cbn [app] in E; injection E as -> ->.
        -- congruence.
        -- inversion Hnone; subst. congruence.
    + specialize (Hk eq_refl). cbn [parse_budget_from] in Hk. rewrite Hk, IH.
      split.
      * intros (before & key & after & -> & Hx & Hnone).
        exists (k :: before), key, after. repeat split; [exact Hx|].
        now constructor.
      * intros ([|k' before] & key & after & E & Hx & Hnone);
          cbn [app] in E; injection E as -> ->.
        -- congruence.
        -- inversion Hnone; subst. now exists before, key, after.
Qed.

Lemma parse_budget_from_none (item : PyDict.dict str json) (keys : list str) :
  parse_budget_from repr py_float item keys = None
  <-> Forall (fun k => amount_of repr py_float item k = None) keys.
Proof.
  induction keys as [|k keys IH]; cbn [parse_budget_from].
  - split; [constructor | reflexivity].
  - unfold amount_of at 1.
    destruct (blank (dict_get item k JNull)) eqn:Eb.
    + rewrite IH. split.
      * intros H. constructor; [|exact H]. unfold amount_of. now rewrite Eb.
      * intros H. now inversion H.
    + destruct (py_float _) as [y|] eqn:Ey.
      * split; [discriminate|]. intros H. inversion H as [|? ? Hk _]; subst.
        unfold amount_of in Hk. rewrite Eb, Ey in Hk. discriminate Hk.
      * rewrite IH. split.
        -- intros H. constructor; [|exact H].
           unfold amount_of. now rewrite Eb, Ey.
        -- intros H. now inversion H.
Qed.

Lemma normalize_bid_key_stripped (d : PyDict.dict str json) :
  strip U (fst (normalize_bid_key U repr d)) = fst (normalize_bid_key U repr d)
  /\ strip U (snd (normalize_bid_key U repr d))
     = snd (normalize_bid_key U repr d).
Proof. unfold normalize_bid_key. cbn [fst snd]. split; apply strip_idem. Qed.

Lemma url_not_unassigned (no ord : str) :
  NOTICE_URL ++ u "bidNtceNo=" ++ no ++ u "&bidNtceOrd=" ++ ord
  <> Url.UNASSIGNED.
Proof. intros H. vm_compute in H. discriminate H. Qed.
End WithEnvironment.

(** X25. [_parse_budget] answers the amount of the first of its three keys
    that has a usable one, and nothing when no key has; a key that is
    missing, null, empty or a dash has none; the amount of a string is
    read after its commas are removed. *)
Theorem parse_budget_first_usable (repr : json -> str)
    (py_float : str -> option Q) (item : PyDict.dict str json) :
  (forall x : Q,
      _parse_budget repr py_float item = Some x
      <-> exists (before : list str) (key : str) (after : list str),
            BUDGET_KEYS = before ++ key :: after
            /\ amount_of repr py_float item key = Some x
            /\ Forall (fun k => amount_of repr py_float item k = None) before)
  /\ (_parse_budget repr py_float item = None
      <-> Forall (fun k => amount_of repr py_float item k = None) BUDGET_KEYS)
  /\ (forall key : str,
        In (dict_get item key JNull) [JNull; JStr []; JStr (u "-")] ->
        amount_of repr py_float item key = None)
  /\ (forall key s : str,
        dict_get item key JNull = JStr s -> s <> [] -> s <> u "-" ->
        amount_of repr py_float item key = py_float (remove_commas s)
        /\ ~ In 44%N (remove_commas s)).
Proof.
  split; [|split; [|split]].
  - intros x. apply parse_budget_from_first.
  - apply parse_budget_from_none.
  - intros key H. unfold amount_of. cbn [In] in H.
    destruct H as [<- | [<- | [<- | []]]]; reflexivity.
  - intros key s E Hne Hdash. unfold amount_of. rewrite E.
    cbn [blank py_str].
    replace (is_nil s) with false by (now destruct s).
    replace (str_eqb s (u "-")) with false
      by (symmetry; now apply str_eqb_neq).
    cbn [orb]. split; [reflexivity | apply remove_commas_clean].
Qed.

(** X26. The notice that the fetcher makes of an item: an item that is no
    dictionary raises [AttributeError]; a dictionary raises
    [UnicodeEncodeError] exactly when [build_notice_url] fails, which is
    when its stripped number is not empty and the number or the order
    holds a surrogate (with an empty number nothing is quoted, and a
    notice is made whatever the order holds); otherwise there is a notice,
    whose number and order are the stripped fields or their defaults,
    whose number, order, title and address are not empty, whose address is
    the unassigned mark exactly for an empty number, and whose amount is
    that of [_parse_budget]. *)
Theorem notice_of_item_spec (U : unicode_db) (repr : json -> str)
    (py_float : str -> option Q) (item : json) :
  match item with
  | JDict d =>
      let no := fst (normalize_bid_key U repr d) in
      let ord := snd (normalize_bid_key U repr d) in
      strip U no = no /\ strip U ord = ord
      /\ (notice_of_item U repr py_float item = inl UnicodeEncodeError
          <-> build_notice_url no ord = None)
      /\ (build_notice_url no ord = None
          <-> no <> []
              /\ existsb surrogate no || existsb surrogate ord = true)
      /\ ((exists notice : RawNotice,
              notice_of_item U repr py_float item = inr notice)
          <-> build_notice_url no ord <> None)
      /\ (forall notice : RawNotice,
            notice_of_item U repr py_float item = inr notice ->
            Notice.bid_ntce_no notice = str_or no UNASSIGNED
            /\ Notice.bid_ntce_ord notice = str_or ord (u "0")
            /\ Notice.bid_ntce_no notice <> []
            /\ Notice.bid_ntce_ord notice <> []
            /\ Notice.notice_title notice <> []
            /\ Notice.source_url notice <> []
            /\ (Notice.source_url notice = UNASSIGNED <-> no = [])
            /\ Notice.budget_amt notice = _parse_budget repr py_float d)
  | _ => notice_of_item U repr py_float item = inl AttributeError
  end.
Proof.
  destruct item as [| | | | | |d]; try reflexivity.
  cbn zeta.
  destruct (normalize_bid_key_stripped U repr d) as [Sno Sord].
  split; [exact Sno|]. split; [exact Sord|].
  unfold notice_of_item.
  destruct (normalize_bid_key U repr d) as [no ord]. cbn [fst snd] in *.
  pose proof (build_notice_url_None no ord) as Hnone.
  destruct (build_notice_url no ord) as [url|] eqn:Eurl.
  - split; [split; discriminate|]. split; [exact Hnone|].
    split; [split; [discriminate | intros _; eexists; reflexivity]|].
    intros notice H. injection H as <-.
    cbn [Notice.bid_ntce_no Notice.bid_ntce_ord Notice.notice_title
         Notice.source_url Notice.budget_amt].
    split; [reflexivity|]. split; [reflexivity|].
    split; [apply str_or_nonempty; discriminate|].
    split; [apply str_or_nonempty; discriminate|].
    split; [apply str_or_nonempty; discriminate|].
    assert (Hurl : (url = UNASSIGNED <-> no = []) /\ url <> []).
    { destruct no as [|c0 s0].
      - cbn [build_notice_url is_nil] in Eurl. injection Eurl as <-.
        split; [tauto | discriminate].
      - destruct (@build_notice_url_parts (c0 :: s0) ord url
                    ltac:(discriminate) Eurl) as (q & o & _ & _ & ->).
        split; [|discriminate].
        split; [|discriminate].
        intros H. exfalso. exact (url_not_unassigned q o H). }
    destruct Hurl as [H1 H2].
    split; [exact H2|]. split; [exact H1 | reflexivity].
  - split; [split; reflexivity|]. split; [exact Hnone|].
    split; [split; [intros [n H]; discriminate H | congruence]|].
    intros notice H. discriminate H.
Qed.

End IngestFacts.

(** ** The fetcher of a date range *)

Module FetchFacts.
Import Json Ingest IngestFacts Fetch Pages Datetime Dedup DedupFacts.

Lemma In_dedupe (n : RawNotice) (ns : list RawNotice) :
  In n (dedupe_notices ns) -> In n ns.
Proof.
  unfold dedupe_notices, PyDict.values. intros H.
  apply in_map_iff in H as [[k m] [E Hin]]. cbn [snd] in E. subst m.
  assert (Hget : PyDict.get key_eq_dec k (deduped ns) = Some n).
  { apply PyDictFacts.In_get; [|exact Hin].
    rewrite keys_deduped. apply NoDup_first_distinct. }
  rewrite get_deduped in Hget. unfold last_with_key in Hget.
  apply find_some in Hget as [Hin' _]. now apply in_rev.
Qed.

Lemma keys_of_dedupe (ns : list RawNotice) :
  NoDup (map notice_key (dedupe_notices ns)).
Proof.
  assert (E : map notice_key (dedupe_notices ns) = PyDict.keys (deduped ns)).
  { unfold dedupe_notices, PyDict.values, PyDict.keys. rewrite map_map.
    apply map_ext_in. intros [k n] Hin. cbn [fst snd].
    assert (Hget : PyDict.get key_eq_dec k (deduped ns) = Some n).
    { apply PyDictFacts.In_get; [|exact Hin].
      rewrite keys_deduped. apply NoDup_first_distinct. }
    rewrite get_deduped in Hget. now apply last_with_key_key in Hget. }
  rewrite E, keys_deduped. apply NoDup_first_distinct.
Qed.

Lemma flat_map_shift (A : Type) (f : nat -> list A) (n : nat) :
  flat_map f (seq 1 n) = flat_map (fun k => f (S k)) (seq 0 n).
Proof.
  rewrite <- seq_shift. induction (seq 0 n) as [|k l IH]; [reflexivity|].
  cbn [map flat_map]. now rewrite IH.
Qed.

Section WithEnvironment.
Variable U : unicode_db.
Variable repr : json -> str.
Variable py_float : str -> option Q.
Variable int_of_str : str -> option Z.
Variable strftime : datetime -> str -> str.
Variable E : Type.
Variable server : nat -> str -> Params -> nat -> Fetcher.response json E.

Local Abbreviation fetch_pages :=
  (fetch_pages U repr py_float int_of_str strftime server).
Local Abbreviation fetch_windows :=
  (fetch_windows U repr py_float int_of_str strftime server).
Local Abbreviation read_page := (read_page U repr py_float int_of_str).
Local Abbreviation request := (request server).

Lemma notice_of_item_complete (item : json) (n : RawNotice) :
  notice_of_item U repr py_float item = inr n -> complete n.
Proof.
  destruct item as [| | | | | |d]; try discriminate.
  unfold notice_of_item.
  destruct (normalize_bid_key U repr d) as [no ord].
  destruct (Url.build_notice_url no ord) as [url|] eqn:Eurl; [|discriminate].
  intros H. injection H as <-. unfold complete.
  cbn [Notice.bid_ntce_no Notice.bid_ntce_ord Notice.notice_title
       Notice.source_url].
  split; [apply str_or_nonempty; discriminate|].
  split; [apply str_or_nonempty; discriminate|].
  split; [apply str_or_nonempty; discriminate|].
  destruct no as [|c0 s0].
  - cbn [Url.build_notice_url is_nil] in Eurl. injection Eurl as <-.
    discriminate.
  - destruct (@UrlFacts.build_notice_url_parts (c0 :: s0) ord url
                ltac:(discriminate) Eurl) as (q & o & _ & _ & ->).
    discriminate.
Qed.

Lemma notices_of_items_complete (items : list json) :
  forall ns : list RawNotice,
    notices_of_items U repr py_float items = inr ns -> Forall complete ns.
Proof.
  induction items as [|item items IH]; intros ns; cbn [notices_of_items].
  - intros [= <-]. constructor.
  - destruct (notice_of_item U repr py_float item) as [e|n] eqn:En;
      [discriminate|].
    destruct (notices_of_items U repr py_float items) as [e|rest];
      [discriminate|].
    intros [= <-]. constructor; [|now apply IH].
    exact (notice_of_item_complete _ En).
Qed.

Lemma read_page_complete (data : json) (page_no : Z) :
  match read_page data page_no with
  | LastPage more | NextPage more => Forall complete more
  | BadPage _ => True
  end.
Proof.
  unfold Fetch.read_page.
  destruct (page_items data) as [e|[items body]]; [exact I|].
  destruct (negb (truth_value items)); [constructor|].
  destruct (iterate items) as [e|item_list]; [exact I|].
  destruct (notices_of_items U repr py_float item_list) as [e|more] eqn:Em;
    [exact I|].
  pose proof (notices_of_items_complete _ Em) as Hc.
  destruct (to_int _ _) as [e|total]; [exact I|].
  destruct (total <=? page_no * 100)%Z; exact Hc.
Qed.

Section Window.
Variable service_key : str.
Variables window_start window_end : datetime.

Local Abbreviation q := (query strftime service_key window_start window_end).

Lemma own_query_q (page_no : Z) :
  (1 <= page_no)%Z -> own_query service_key (q page_no).
Proof. intros H. repeat split. exact H. Qed.

(** What the loop leaves behind, however it ends. *)
Lemma fetch_pages_inv (fuel : nat) :
  forall (page_no : Z) (notices : list RawNotice) (log : list Params),
    (1 <= page_no)%Z ->
    Forall complete notices -> Forall (own_query service_key) log ->
    let r := fetch_pages fuel service_key window_start window_end page_no
                         notices log in
    Forall (own_query service_key) (snd r)
    /\ (length log <= length (snd r))%nat
    /\ match fst r with
       | inr ns => Forall complete ns /\ (length log < length (snd r))%nat
       | inl _ => True
       end.
Proof.
  induction fuel as [|fuel IH]; intros page_no notices log Hp Hn Hl;
    cbn zeta; cbn [Fetch.fetch_pages].
  - cbn [fst snd]. repeat split; [exact Hl | lia].
  - assert (Hl' : Forall (own_query service_key) (log ++ [q page_no])).
    { apply Forall_app. split; [exact Hl|].
      constructor; [now apply own_query_q | constructor]. }
    assert (Hlen : (length log < length (log ++ [q page_no]))%nat)
      by (rewrite length_app; cbn [length]; lia).
    destruct (request (length log) (q page_no)) as [data| | |];
      try (cbn [fst snd]; repeat split; [exact Hl' | lia]).
    pose proof (read_page_complete data page_no) as Hc.
    destruct (read_page data page_no) as [more|more|e].
    + cbn [fst snd]. split; [exact Hl'|]. split; [lia|].
      split; [|exact Hlen]. apply Forall_app. now split.
    + specialize (IH (page_no + 1)%Z (notices ++ more) (log ++ [q page_no])
                     ltac:(lia) ltac:(apply Forall_app; now split) Hl').
      cbn zeta in IH. destruct IH as (H1 & H2 & H3).
      split; [exact H1|]. split; [lia|].
      destruct (fst (fetch_pages fuel service_key window_start window_end
                       (page_no + 1) (notices ++ more) (log ++ [q page_no])));
        [exact I|].
      destruct H3 as [H3 H4]. split; [exact H3 | lia].
    + cbn [fst snd]. repeat split; [exact Hl' | lia].
Qed.

Lemma fetch_pages_step (fuel : nat) (page_no : Z) (notices : list RawNotice)
    (log : list Params) :
  fetch_pages (S fuel) service_key window_start window_end page_no notices log
  = match request (length log) (q page_no) with
    | Fetcher.Return _ data =>
        match read_page data page_no with
        | LastPage more => (inr (notices ++ more), log ++ [q page_no])
        | NextPage more =>
            fetch_pages fuel service_key window_start window_end
                        (page_no + 1)%Z (notices ++ more) (log ++ [q page_no])
        | BadPage e => (inl (DocumentRaised E e), log ++ [q page_no])
        end
    | o => (inl (RequestRaised o), log ++ [q page_no])
    end.
Proof. reflexivity. Qed.

(** The loop after [n] pages that each ask for the next one. *)
Lemma fetch_pages_skip (n : nat) :
  forall (fuel : nat) (first : Z) (notices : list RawNotice)
         (log : list Params) (docs : nat -> json)
         (more : nat -> list RawNotice),
    (forall k : nat, (k < n)%nat ->
        request (length log + k) (q (first + Z.of_nat k))
        = Fetcher.Return E (docs k)
        /\ read_page (docs k) (first + Z.of_nat k) = NextPage (more k)) ->
    fetch_pages (n + fuel) service_key window_start window_end first
                notices log
    = fetch_pages fuel service_key window_start window_end
        (first + Z.of_nat n) (notices ++ flat_map more (seq 0 n))
        (log ++ map (fun k => q (first + Z.of_nat k)) (seq 0 n)).
Proof.
  induction n as [|n IH]; intros fuel first notices log docs more H.
  - cbn [Nat.add seq flat_map map]. now rewrite Z.add_0_r, !app_nil_r.
  - change (S n + fuel)%nat with (S (n + fuel)).
    rewrite fetch_pages_step.
    destruct (H 0%nat ltac:(lia)) as [Hreq Hread].
    rewrite Nat.add_0_r, Z.add_0_r in Hreq. rewrite Z.add_0_r in Hread.
    rewrite Hreq, Hread.
    rewrite (IH fuel (first + 1)%Z (notices ++ more 0%nat)
                (log ++ [q first]) (fun k => docs (S k))
                (fun k => more (S k))).
    + replace (first + Z.of_nat (S n))%Z with (first + 1 + Z.of_nat n)%Z
        by lia.
      cbn [seq flat_map map]. rewrite Z.add_0_r.
      rewrite flat_map_shift, <- seq_shift, map_map, <- !app_assoc.
      cbn [app].
      assert (Em : map (fun k => q (first + 1 + Z.of_nat k)) (seq 0 n)
                   = map (fun k => q (first + Z.of_nat (S k))) (seq 0 n)).
      { apply map_ext. intros k. f_equal. lia. }
      rewrite Em. reflexivity.
    + intros k Hk. destruct (H (S k) ltac:(lia)) as [Hr Hd].
      rewrite length_app. cbn [length].
      replace (length log + 1 + k)%nat with (length log + S k)%nat by lia.
      replace (first + 1 + Z.of_nat k)%Z with (first + Z.of_nat (S k))%Z
        by lia.
      now split.
Qed.
(** A page that asks for the next one reports a total beyond it. *)
Lemma read_page_next (data : json) (page_no : Z) (more : list RawNotice) :
  read_page data page_no = NextPage more ->
  exists total : Z,
    total_count int_of_str data = Some total /\ (page_no * 100 < total)%Z.
Proof.
  unfold Fetch.read_page, total_count.
  destruct (page_items data) as [e|[items body]]; [discriminate|].
  destruct (negb (truth_value items)); [discriminate|].
  destruct (iterate items) as [e|item_list]; [discriminate|].
  destruct (notices_of_items U repr py_float item_list) as [e|ns];
    [discriminate|].
  destruct (to_int _ _) as [e|total]; [discriminate|].
  destruct (total <=? page_no * 100)%Z eqn:Hle; [discriminate|].
  intros _. exists total. split; [reflexivity|]. now apply Z.leb_gt.
Qed.

Section Bounded.
Variable T : Z.
Hypothesis totals_bounded :
  forall (i : nat) (p : Params) (data : json) (total : Z),
    request i p = Fetcher.Return E data ->
    total_count int_of_str data = Some total -> (total <= T)%Z.

(** With totals of at most [T], the loop needs no more pages than there
    are hundreds in [T], and one. *)
Lemma fetch_pages_bounded (fuel : nat) :
  forall (page_no : Z) (notices : list RawNotice) (log : list Params),
    (1 <= page_no)%Z ->
    (Z.to_nat (T / 100 - page_no + 1) < fuel)%nat ->
    let r := fetch_pages fuel service_key window_start window_end page_no
                         notices log in
    fst r <> inl (OutOfFuel E)
    /\ (length (snd r)
        <= length log + Z.to_nat (T / 100 - page_no + 1) + 1)%nat.
Proof.
  induction fuel as [|fuel IH]; intros page_no notices log Hp Hfuel; [lia|].
  cbn zeta. rewrite fetch_pages_step.
  assert (Hone : (length (log ++ [q page_no])
                  <= length log + Z.to_nat (T / 100 - page_no + 1) + 1)%nat)
    by (rewrite length_app; cbn [length]; lia).
  destruct (request (length log) (q page_no)) as [data| | |] eqn:Hreq;
    try (cbn [fst snd]; split; [discriminate | exact Hone]).
  destruct (read_page data page_no) as [more|more|e] eqn:Hread;
    try (cbn [fst snd]; split; [discriminate | exact Hone]).
  destruct (read_page_next _ _ Hread) as (total & Htotal & Hlt).
  pose proof (totals_bounded _ _ Hreq Htotal) as Hle.
  assert (Hdiv : (page_no <= T / 100)%Z).
  { apply Z.div_le_lower_bound; lia. }
  pose proof (IH (page_no + 1)%Z (notices ++ more) (log ++ [q page_no])
                 ltac:(lia) ltac:(lia)) as H.
  cbn zeta in H. destruct H as [H1 H2].
  split; [exact H1|].
  rewrite length_app in H2. cbn [length] in H2. lia.
Qed.
End Bounded.
End Window.

(** With totals of at most [T], the loop over the windows. *)
Lemma fetch_windows_bounded (T : Z) (fuel : nat) (service_key : str)
    (windows : list Windows.window) :
  (forall (i : nat) (p : Params) (data : json) (total : Z),
      request i p = Fetcher.Return E data ->
      total_count int_of_str data = Some total -> (total <= T)%Z) ->
  (Z.to_nat (T / 100) < fuel)%nat ->
  forall (notices : list RawNotice) (log : list Params),
    let r := fetch_windows fuel service_key windows notices log in
    fst r <> inl (OutOfFuel E)
    /\ (length (snd r)
        <= length log + length windows * (Z.to_nat (T / 100) + 1))%nat.
Proof.
  intros Htotals Hfuel.
  induction windows as [|[ws we] windows IH]; intros notices log;
    cbn zeta; cbn [Fetch.fetch_windows].
  - cbn [fst snd length]. split; [discriminate | lia].
  - pose proof (@fetch_pages_bounded service_key ws we T Htotals fuel 1%Z
                  notices log ltac:(lia)
                  ltac:(replace (T / 100 - 1 + 1)%Z with (T / 100)%Z by lia;
                        exact Hfuel)) as H.
    cbn zeta in H.
    replace (T / 100 - 1 + 1)%Z with (T / 100)%Z in H by lia.
    destruct H as [H1 H2].
    destruct (fetch_pages fuel service_key ws we 1 notices log)
      as [[e|ns] log'] eqn:Ep; cbn [fst snd] in *.
    + split; [exact H1|]. cbn [length]. lia.
    + specialize (IH ns log'). cbn zeta in IH. destruct IH as [I1 I2].
      split; [exact I1|]. cbn [length]. lia.
Qed.

(** The loop over the windows, however it ends. *)
Lemma fetch_windows_inv (fuel : nat) (service_key : str)
    (windows : list Windows.window) :
  forall (notices : list RawNotice) (log : list Params),
    Forall complete notices -> Forall (own_query service_key) log ->
    let r := fetch_windows fuel service_key windows notices log in
    Forall (own_query service_key) (snd r)
    /\ match fst r with
       | inr ns =>
           Forall complete ns
           /\ (length log + length windows <= length (snd r))%nat
       | inl _ => True
       end.
Proof.
  induction windows as [|[ws we] windows IH]; intros notices log Hn Hl;
    cbn zeta; cbn [Fetch.fetch_windows].
  - cbn [fst snd length]. split; [exact Hl|]. split; [exact Hn | lia].
  - pose proof (@fetch_pages_inv service_key ws we fuel 1%Z notices log
                  ltac:(lia) Hn Hl) as H.
    cbn zeta in H. destruct H as (H1 & H2 & H3).
    destruct (fetch_pages fuel service_key ws we 1 notices log)
      as [[e|ns] log'] eqn:Ep; cbn [fst snd] in *.
    + split; [exact H1 | exact I].
    + destruct H3 as [H3 H4].
      specialize (IH ns log' H3 H1). cbn zeta in IH.
      destruct IH as [I1 I2]. split; [exact I1|].
      destruct (fst (fetch_windows fuel service_key windows ns log'));
        [exact I|].
      destruct I2 as [I2 I3]. split; [exact I2|]. cbn [length]. lia.
Qed.
End WithEnvironment.

(** X27. The pages of a window: after [n] pages that each ask for the
    next, starting from page 1, the answer to the query for page [n + 1]
    decides. A last page ends the window with the notices of all pages in
    order; a page that cannot be read, or a request that raises, ends the
    run with that exception; in each case exactly the queries for the
    pages 1 to [n + 1] were sent. *)
Theorem fetch_pages_pagination (U : unicode_db) (repr : json -> str)
    (py_float : str -> option Q) (int_of_str : str -> option Z)
    (strftime : datetime -> str -> str) (E : Type)
    (server : nat -> str -> Params -> nat -> Fetcher.response json E)
    (service_key : str) (window_start window_end : datetime)
    (n fuel : nat) (docs : nat -> json) (more : nat -> list RawNotice)
    (notices : list RawNotice) (log : list Params) :
  (n < fuel)%nat ->
  (forall k : nat, (k < n)%nat ->
      request server (length log + k)
              (query strftime service_key window_start window_end
                     (1 + Z.of_nat k))
      = Fetcher.Return E (docs k)
      /\ read_page U repr py_float int_of_str (docs k) (1 + Z.of_nat k)
         = NextPage (more k)) ->
  let asked :=
    request server (length log + n)
            (query strftime service_key window_start window_end
                   (1 + Z.of_nat n)) in
  let gathered := notices ++ flat_map more (seq 0 n) in
  let sent :=
    log ++ map (fun k => query strftime service_key window_start window_end
                               (1 + Z.of_nat k)) (seq 0 (S n)) in
  let answer :=
    fetch_pages U repr py_float int_of_str strftime server fuel service_key
                window_start window_end 1 notices log in
  (forall (data : json) (last : list RawNotice),
      asked = Fetcher.Return E data ->
      read_page U repr py_float int_of_str data (1 + Z.of_nat n)
      = LastPage last ->
      answer = (inr (gathered ++ last), sent))
  /\ (forall (data : json) (e : error),
        asked = Fetcher.Return E data ->
        read_page U repr py_float int_of_str data (1 + Z.of_nat n)
        = BadPage e ->
        answer = (inl (DocumentRaised E e), sent))
  /\ ((forall data : json, asked <> Fetcher.Return E data) ->
      answer = (inl (RequestRaised asked), sent)).
Proof.
  intros Hfuel Hpages. cbn zeta.
  replace fuel with (n + S (fuel - S n))%nat by lia.
  rewrite (@fetch_pages_skip U repr py_float int_of_str strftime E server
             service_key window_start window_end n (S (fuel - S n)) 1%Z
             notices log docs more Hpages).
  rewrite fetch_pages_step, length_app, length_map, length_seq.
  rewrite seq_S, map_app. cbn [map Nat.add]. rewrite app_assoc.
  split; [|split].
  - intros data last Hreq Hread. now rewrite Hreq, Hread.
  - intros data e Hreq Hread. now rewrite Hreq, Hread.
  - intros Hno.
    destruct (request server (length log + n)
                (query strftime service_key window_start window_end
                       (1 + Z.of_nat n))) as [data| | |]; try reflexivity.
    exfalso. now apply (Hno data).
Qed.

(** Two pages of a window: the total of 101 asks for a second page, which
    is the last. *)
Lemma fetch_pages_pagination_witness :
  fetch_pages Classifier.basic_unicode (fun _ => []) (fun _ => Some 1000%Q)
    (fun _ => None) (fun _ _ => []) example_long_server 5 (u "key")
    63842207400000000%Z 63842207400000000%Z 1 [] []
  = (inr (([] ++ flat_map (fun _ => [example_fetched]) (seq 0 1))
          ++ [example_fetched]),
     [] ++ map (fun k => query (fun _ _ => []) (u "key")
                               63842207400000000%Z 63842207400000000%Z
                               (1 + Z.of_nat k)) (seq 0 2)).
Proof.
  refine (proj1 (@fetch_pages_pagination Classifier.basic_unicode
                   (fun _ => []) (fun _ => Some 1000%Q) (fun _ => None)
                   (fun _ _ => []) unit example_long_server (u "key")
                   63842207400000000%Z 63842207400000000%Z 1 5
                   (fun _ => example_long_document)
                   (fun _ => [example_fetched]) [] [] _ _)
                example_long_document [example_fetched] _ _).
  - lia.
  - intros k Hk. assert (k = 0%nat) as -> by lia.
    split; vm_compute; reflexivity.
  - reflexivity.
  - vm_compute. reflexivity.
Defined.

(** X28. Every query that [fetch_notices_std] sends carries the caller's
    key, 100 rows, the type json and a page number from 1 on; and when it
    returns, the notices have distinct keys and no empty number, order,
    title or address, the planner was exhausted, and at least one query
    was sent for each window. *)
Theorem fetch_notices_std_answer (U : unicode_db) (repr : json -> str)
    (py_float : str -> option Q) (int_of_str : str -> option Z)
    (strftime : datetime -> str -> str) (E : Type)
    (server : nat -> str -> Params -> nat -> Fetcher.response json E)
    (fuel : nat) (service_key : str) (start end_ : datetime) (mode : str) :
  let r := fetch_notices_std U repr py_float int_of_str strftime server fuel
                             service_key start end_ mode in
  Forall (own_query service_key) (snd r)
  /\ match fst r with
     | inr notices =>
         NoDup (map notice_key notices)
         /\ Forall complete notices
         /\ Windows.iter_windows start end_ mode
            = (fst (Windows.iter_windows start end_ mode), Windows.Exhausted)
         /\ (length (fst (Windows.iter_windows start end_ mode))
             <= length (snd r))%nat
     | inl _ => True
     end.
Proof.
  cbn zeta. unfold fetch_notices_std.
  destruct (Windows.iter_windows start end_ mode) as [windows status].
  pose proof (@fetch_windows_inv U repr py_float int_of_str strftime E server
                fuel service_key windows [] [] ltac:(constructor)
                ltac:(constructor)) as H.
  cbn zeta in H. destruct H as [H1 H2].
  destruct (fetch_windows U repr py_float int_of_str strftime server fuel
              service_key windows [] []) as [[e|ns] log];
    cbn [fst snd length Nat.add] in *.
  - split; [exact H1 | exact I].
  - destruct H2 as [H2 H3].
    destruct status; cbn [fst snd]; (split; [exact H1|]); try exact I.
    split; [apply keys_of_dedupe|].
    split; [|split; [reflexivity | exact H3]].
    rewrite Forall_forall in *. intros n Hn. apply H2.
    now apply In_dedupe.
Qed.

(** X29. When the server never reports a total above [T] and the fuel of
    the model exceeds the hundreds in [T], the fetcher does not run out of
    pages: it stops for lack of fuel only if the planner does. It sends at
    most one query more than there are hundreds in [T] for each window. *)
Theorem fetch_notices_std_request_budget (U : unicode_db)
    (repr : json -> str) (py_float : str -> option Q)
    (int_of_str : str -> option Z) (strftime : datetime -> str -> str)
    (E : Type)
    (server : nat -> str -> Params -> nat -> Fetcher.response json E)
    (T : Z) (fuel : nat) (service_key : str) (start end_ : datetime)
    (mode : str) :
  (forall (i : nat) (p : Params) (data : json) (total : Z),
      request server i p = Fetcher.Return E data ->
      total_count int_of_str data = Some total -> (total <= T)%Z) ->
  (Z.to_nat (T / 100) < fuel)%nat ->
  let r := fetch_notices_std U repr py_float int_of_str strftime server fuel
                             service_key start end_ mode in
  (fst r = inl (OutOfFuel E) ->
   snd (Windows.iter_windows start end_ mode) = Windows.OutOfFuel)
  /\ (length (snd r)
      <= length (fst (Windows.iter_windows start end_ mode))
         * (Z.to_nat (T / 100) + 1))%nat.
Proof.
  intros Htotals Hfuel. cbn zeta. unfold fetch_notices_std.
  destruct (Windows.iter_windows start end_ mode) as [windows status].
  pose proof (@fetch_windows_bounded U repr py_float int_of_str strftime E
                server T fuel service_key windows Htotals Hfuel [] []) as H.
  cbn zeta in H. destruct H as [H1 H2].
  destruct (fetch_windows U repr py_float int_of_str strftime server fuel
              service_key windows [] []) as [[e|ns] log];
    cbn [fst snd length Nat.add] in *.
  - split; [intros H; contradiction | exact H2].
  - destruct status; cbn [fst snd]; (split; [|exact H2]);
      try discriminate; reflexivity.
Qed.

(** A server whose total is always 101, over one day. *)
Lemma fetch_notices_std_request_budget_witness :
  let r := fetch_notices_std Classifier.basic_unicode (fun _ => [])
             (fun _ => Some 1000%Q) (fun _ => None) (fun _ _ => [])
             example_long_server 2 (u "key") 63842207400000000%Z
             63842207400000000%Z (u "daily") in
  (fst r = inl (OutOfFuel unit) ->
   snd (Windows.iter_windows 63842207400000000%Z 63842207400000000%Z
          (u "daily")) = Windows.OutOfFuel)
  /\ (length (snd r)
      <= length (fst (Windows.iter_windows 63842207400000000%Z
                        63842207400000000%Z (u "daily")))
         * (Z.to_nat (101 / 100) + 1))%nat.
Proof.
  apply (@fetch_notices_std_request_budget Classifier.basic_unicode
           (fun _ => []) (fun _ => Some 1000%Q) (fun _ => None)
           (fun _ _ => []) unit example_long_server 101 2).
  - intros i p data total Hreq Htotal.
    assert (Hdoc : data = example_long_document).
    { symmetry.
      exact (f_equal (fun o => match o with
                               | Fetcher.Return _ d => d
                               | _ => data
                               end) Hreq). }
    subst data. vm_compute in Htotal.
    assert (total = 101%Z) as ->
        by exact (f_equal (fun o => match o with
                                    | Some t => t
                                    | None => total
                                    end) (eq_sym Htotal)).
    discriminate.
  - vm_compute. lia.
Defined.

(** One window, one page, one item. *)
Example fetch_one_notice :
  let r := fetch_notices_std Classifier.basic_unicode (fun _ => [])
             (fun _ => Some 1000%Q) (fun _ => None) (fun _ _ => [])
             example_server 3 (u "key") 63842207400000000%Z
             63842207400000000%Z (u "daily") in
  match fst r with
  | inr [notice] =>
      Notice.bid_ntce_no notice = u "20240101234"
      /\ Notice.bid_ntce_ord notice = u "0"
      /\ Notice.work_type notice = u "미지정"
      /\ Notice.budget_amt notice = Some 1000%Q
      /\ Notice.source_url notice
         = Url.NOTICE_URL ++ u "bidNtceNo=20240101234&bidNtceOrd=0"
  | _ => False
  end
  /\ map pageNo (snd r) = [1%Z].
Proof. vm_compute. repeat split. Qed.

End FetchFacts.

(** ** The command line *)

Module CliFacts.
Import Datetime DatetimeFacts Windows WindowsFacts Plans PlansFacts
  Completion PlannerFacts Cli.
Local Open Scope Z_scope.

Lemma week_plan (end_ : datetime) :
  daily_plan (end_ - 7 * US_PER_DAY) end_
  = map (fun k => (end_ - (7 - Z.of_nat k) * US_PER_DAY,
                   end_ - (6 - Z.of_nat k) * US_PER_DAY - US_PER_MINUTE))
        (seq 0 7)
    ++ [(end_, end_)].
Proof.
  unfold daily_plan.
  replace (end_ - (end_ - 7 * US_PER_DAY)) with (7 * US_PER_DAY) by ring.
  rewrite Z.div_mul by discriminate.
  change (Z.to_nat (7 + 1)) with 8%nat.
  unfold daily_window, US_PER_DAY, US_PER_MINUTE. cbn [seq map app Z.of_nat].
  repeat (f_equal; try (apply pair_equal_spec; split; lia)).
Qed.

(** X30. [main] with a clock and a date parser that answer datetimes:
    without a service key it exits before it looks at the dates; and
    [run_pipeline] is called only with the given non-empty key and mode
    and with a start not after the end, the end being now when none is
    given. When no start is given the start is seven days before the end;
    when the day after the end is still a datetime, the daily plan of that
    range has eight windows, the last of which starts and ends at the end;
    when it is not (an end on 9999-12-31), the planner raises after the
    first seven windows. *)
Theorem main_checks_and_default_range
    (strptime : str -> str -> option datetime) (now : datetime)
    (args : Args) :
  representable now = true ->
  (forall (s fmt : str) (t : datetime),
      strptime s fmt = Some t -> representable t = true) ->
  (service_key args = [] ->
   exists message : str, main strptime now args = RaiseSystemExit message)
  /\ forall (key : str) (b e : datetime) (m out : str) (top : Z),
       main strptime now args = CallRunPipeline key b e m out top ->
       key = service_key args /\ key <> [] /\ m = mode args
       /\ b <= e /\ representable b = true /\ representable e = true
       /\ (given (end_ args) = None -> e = now)
       /\ (given (start args) = None ->
           b = e - 7 * US_PER_DAY
           /\ (representable (e + US_PER_DAY) = true ->
               iter_windows b e (u "daily")
               = (map (fun k => (e - (7 - Z.of_nat k) * US_PER_DAY,
                                 e - (6 - Z.of_nat k) * US_PER_DAY
                                 - US_PER_MINUTE))
                      (seq 0 7)
                  ++ [(e, e)], Exhausted))
           /\ (representable (e + US_PER_DAY) = false ->
               iter_windows b e (u "daily")
               = (map (fun k => (e - (7 - Z.of_nat k) * US_PER_DAY,
                                 e - (6 - Z.of_nat k) * US_PER_DAY
                                 - US_PER_MINUTE))
                      (seq 0 7), Raised))).
Proof.
  intros Hnow Hparse. split.
  - intros Hk. unfold main. rewrite Hk. cbn [is_nil]. eexists. reflexivity.
  - intros key b e m out top. unfold main.
    destruct (service_key args) as [|c key'] eqn:Ek; [discriminate|].
    cbn [is_nil].
    assert (He : forall t : datetime,
               match given (end_ args) with
               | Some s => strptime s (u "%Y-%m-%d")
               | None => Some now
               end = Some t ->
               representable t = true /\ (given (end_ args) = None -> t = now)).
    { intros t. destruct (given (end_ args)) as [s|].
      - intros H. split; [exact (Hparse _ _ _ H) | discriminate].
      - intros [= <-]. now split. }
    destruct (match given (end_ args) with
              | Some s => strptime s (u "%Y-%m-%d")
              | None => Some now
              end) as [t|]; [|discriminate].
    destruct (He t eq_refl) as [Ht Hdef]. clear He.
    destruct (given (start args)) as [s|].
    + destruct (strptime s (u "%Y-%m-%d")) as [b'|] eqn:Eb; [|discriminate].
      destruct (t <? b') eqn:Elt; [discriminate|].
      intros H. injection H as <- <- <- <- <- <-.
      apply Z.ltb_ge in Elt.
      split; [reflexivity|]. split; [discriminate|]. split; [reflexivity|].
      split; [exact Elt|]. split; [exact (Hparse _ _ _ Eb)|].
      split; [exact Ht|]. split; [exact Hdef | discriminate].
    + unfold add_us.
      destruct (representable (t + - (7 * US_PER_DAY))) eqn:Er;
        [|discriminate].
      destruct (t <? t + - (7 * US_PER_DAY)) eqn:Elt; [discriminate|].
      intros H. injection H as <- <- <- <- <- <-.
      apply Z.ltb_ge in Elt.
      split; [reflexivity|]. split; [discriminate|]. split; [reflexivity|].
      split; [exact Elt|]. split; [exact Er|].
      split; [exact Ht|]. split; [exact Hdef|].
      intros _. split; [lia|].
      split.
      * intros Hnext.
        rewrite (@iter_daily_plan (t + - (7 * US_PER_DAY)) t Er Hnext Elt).
        replace (t + - (7 * US_PER_DAY)) with (t - 7 * US_PER_DAY) by ring.
        now rewrite week_plan.
      * intros Hnext.
        rewrite (@iter_windows_daily (t + - (7 * US_PER_DAY)) t Er Ht Elt).
        replace (t + - (7 * US_PER_DAY)) with (t - 7 * US_PER_DAY) by ring.
        assert (Ediv : (t - (t - 7 * US_PER_DAY)) / US_PER_DAY = 7).
        { replace (t - (t - 7 * US_PER_DAY)) with (7 * US_PER_DAY) by ring.
          apply Z.div_mul. discriminate. }
        assert (Ef : first_past (t - 7 * US_PER_DAY) t = t + US_PER_DAY)
          by (unfold first_past; rewrite Ediv; ring).
        rewrite Ef, Hnext, Ediv, week_plan.
        change (Z.to_nat 7) with 7%nat.
        reflexivity.
Qed.

(** No dates on the command line, at 2024-01-30T09:30. *)
Lemma main_checks_and_default_range_witness :
  let args := {| start := None; end_ := None; mode := u "daily";
                 out_dir := u "output"; top_n := 50;
                 service_key := u "key" |} in
  (service_key args = [] ->
   exists message : str,
     main (fun _ _ => None) 63842207400000000 args = RaiseSystemExit message)
  /\ forall (key : str) (b e : datetime) (m out : str) (top : Z),
       main (fun _ _ => None) 63842207400000000 args
       = CallRunPipeline key b e m out top ->
       key = service_key args /\ key <> [] /\ m = mode args
       /\ b <= e /\ representable b = true /\ representable e = true
       /\ (given (end_ args) = None -> e = 63842207400000000)
       /\ (given (start args) = None ->
           b = e - 7 * US_PER_DAY
           /\ (representable (e + US_PER_DAY) = true ->
               iter_windows b e (u "daily")
               = (map (fun k => (e - (7 - Z.of_nat k) * US_PER_DAY,
                                 e - (6 - Z.of_nat k) * US_PER_DAY
                                 - US_PER_MINUTE))
                      (seq 0 7)
                  ++ [(e, e)], Exhausted))
           /\ (representable (e + US_PER_DAY) = false ->
               iter_windows b e (u "daily")
               = (map (fun k => (e - (7 - Z.of_nat k) * US_PER_DAY,
                                 e - (6 - Z.of_nat k) * US_PER_DAY
                                 - US_PER_MINUTE))
                      (seq 0 7), Raised))).
Proof.
  apply (@main_checks_and_default_range (fun _ _ => None) 63842207400000000).
  - reflexivity.
  - intros s fmt t H. discriminate H.
Defined.

End CliFacts.
